(** * SweetPad CLI: command assembly, selection memory and smart pickers

    A shallow embedding of the TypeScript sources
    [src/build/runner.ts] (class [XcodeCommandBuilder], [buildApp]),
    [src/cli/state.ts], [src/cli/context.ts], [src/cli/config.ts],
    [src/cli/pickers.ts], [src/cli/fzf.ts] and [src/cli/index.ts],
    followed by the properties of the specification that were checked
    against them.

    Conventions.  JavaScript strings are modelled by [string] (ASCII);
    arrays by [list]; [Set<string>] by [gset string]; objects used as
    dictionaries ([StateMap], [CliConfigMap], [process.env]) by
    [gmap string _]; a [throw] by the left injection of a sum. *)

From Stdlib Require Import String Ascii ZArith List DecimalString Sorted.
From stdpp Require Import base option list gmap sets strings.
Import ListNotations.

Local Open Scope string_scope.
Local Open Scope list_scope.

(** ** JavaScript string primitives used by the sources *)

Module Js.

(** [s.startsWith(p)] *)
Definition startsWith (s p : string) : bool := String.prefix p s.

(** [s.includes(sub)] *)
Fixpoint includes (s sub : string) : bool :=
  String.prefix sub s ||
  match s with
  | EmptyString => false
  | String _ s' => includes s' sub
  end.

(** [s.split(sep)] for a one-character separator: every occurrence of
    the separator cuts, and the pieces never contain it. *)
Fixpoint split (sep : ascii) (s : string) : list string :=
  match s with
  | EmptyString => [EmptyString]
  | String c s' =>
      if Ascii.eqb c sep then EmptyString :: split sep s'
      else match split sep s' with
           | piece :: pieces => String c piece :: pieces
           | [] => [String c EmptyString]
           end
  end.

(** Truthiness of a string: only the empty string is falsy. *)
Definition truthy (s : string) : bool :=
  match s with EmptyString => false | _ => true end.

(** [arr.includes(x)] on an array of strings. *)
Definition arrayIncludes (arr : list string) (x : string) : bool :=
  bool_decide (x ∈ arr).

(** Reading an element by index where the source lets [undefined]
    flow into a template string. *)
Definition indexOrUndefined (arr : list string) (i : nat) : string :=
  default "undefined" (arr !! i).

Definition mapChars (f : ascii → ascii) : string → string :=
  fix go (s : string) : string :=
    match s with
    | EmptyString => EmptyString
    | String c s' => String (f c) (go s')
    end.

Definition upperChar (c : ascii) : ascii :=
  let n := nat_of_ascii c in
  if (97 <=? n)%nat && (n <=? 122)%nat then ascii_of_nat (n - 32) else c.

Definition lowerChar (c : ascii) : ascii :=
  let n := nat_of_ascii c in
  if (65 <=? n)%nat && (n <=? 90)%nat then ascii_of_nat (n + 32) else c.

(** [s.toUpperCase()] and [s.toLowerCase()], on ASCII. *)
Definition toUpperCase : string → string := mapChars upperChar.
Definition toLowerCase : string → string := mapChars lowerChar.

(** [s.replace(/\./g, "_")] *)
Definition replaceDots : string → string :=
  mapChars (fun c => if Ascii.eqb c "."%char then "_"%char else c).

(** White space in the sense of [trim], on ASCII: space, tab, line
    feed, vertical tab, form feed, carriage return. *)
Definition isSpace (c : ascii) : bool :=
  let n := nat_of_ascii c in
  (n =? 32)%nat || ((9 <=? n)%nat && (n <=? 13)%nat).

Fixpoint trimStart (s : string) : string :=
  match s with
  | EmptyString => EmptyString
  | String c s' => if isSpace c then trimStart s' else s
  end.

Fixpoint trimEnd (s : string) : string :=
  match s with
  | EmptyString => EmptyString
  | String c s' =>
      match trimEnd s' with
      | EmptyString => if isSpace c then EmptyString else String c EmptyString
      | rest => String c rest
      end
  end.

(** [s.trim()] *)
Definition trim (s : string) : string := trimEnd (trimStart s).

Fixpoint dropChars (n : nat) (s : string) : string :=
  match n, s with
  | S n', String _ s' => dropChars n' s'
  | _, _ => s
  end.

(** [s.replace(/^prefix/, "")] for a literal prefix. *)
Definition stripPrefix (prefix s : string) : string :=
  if String.prefix prefix s then dropChars (String.length prefix) s else s.

End Js.

(** ** [XcodeCommandBuilder] (src/build/runner.ts) *)

Module XcodeCommandBuilder.

Definition NO_VALUE : string := "__NO_VALUE__".
Definition xcodebuild : string := "xcodebuild".

Record Param := { arg : string; value : string }.
Record BuildSetting := { key : string; setting : string }.

(** The three private arrays of the class. *)
Record t := {
  parameters : list Param;
  buildSettings : list BuildSetting;
  actions : list string
}.

(** [new XcodeCommandBuilder()] *)
Definition empty : t :=
  {| parameters := []; buildSettings := []; actions := [] |}.

Definition pushParameter (p : Param) (b : t) : t :=
  {| parameters := parameters b ++ [p];
     buildSettings := buildSettings b;
     actions := actions b |}.

Definition pushBuildSetting (s : BuildSetting) (b : t) : t :=
  {| parameters := parameters b;
     buildSettings := buildSettings b ++ [s];
     actions := actions b |}.

Definition pushAction (a : string) (b : t) : t :=
  {| parameters := parameters b;
     buildSettings := buildSettings b;
     actions := actions b ++ [a] |}.

Definition addBuildSettings (k v : string) (b : t) : t :=
  pushBuildSetting {| key := k; setting := v |} b.

Definition addOption (flag : string) (b : t) : t :=
  pushParameter {| arg := flag; value := NO_VALUE |} b.

Definition addParameters (a v : string) (b : t) : t :=
  pushParameter {| arg := a; value := v |} b.

Definition addAction (a : string) (b : t) : t := pushAction a b.

(** The body of the [for] loop of [addAdditionalArgs] for a token
    that is not consumed together with its successor: the second to
    fifth branches of the [if] chain.  The second component is the
    [console.warn] output. *)
Definition classifySingle (current : string) (b : t) : t * list string :=
  if Js.startsWith current "-" then
    (pushParameter {| arg := current; value := NO_VALUE |} b, [])
  else if Js.includes current "=" then
    let pieces := Js.split "=" current in
    (pushBuildSetting {| key := Js.indexOrUndefined pieces 0;
                         setting := Js.indexOrUndefined pieces 1 |} b, [])
  else if Js.arrayIncludes ["clean"; "build"; "test"] current then
    (pushAction current b, [])
  else (b, [current]).

(** Guard of the first branch: [current && next &&
    current.startsWith("-") && !next.startsWith("-")]. *)
Definition isPair (current next : string) : bool :=
  Js.truthy current && Js.truthy next &&
  Js.startsWith current "-" && negb (Js.startsWith next "-").

(** The [for (let i = 0; i < args.length; i++)] loop; [i++] inside
    the first branch skips the token used as a value. *)
Fixpoint scanArgs (args : list string) (b : t) : t * list string :=
  match args with
  | [] => (b, [])
  | current :: rest =>
      match rest with
      | next :: rest' =>
          if isPair current next then
            scanArgs rest' (pushParameter {| arg := current; value := next |} b)
          else
            let '(b1, w1) := classifySingle current b in
            let '(b2, w2) := scanArgs rest b1 in
            (b2, w1 ++ w2)
      | [] =>
          let '(b1, w1) := classifySingle current b in
          let '(b2, w2) := scanArgs rest b1 in
          (b2, w1 ++ w2)
      end
  end.

(** [arr.filter(x => { if (seen.has(k(x))) return false;
    seen.add(k(x)); return true; })] with [seen] a [Set<string>]. *)
Fixpoint filterSeen {A : Type} (k : A → string) (seen : gset string)
    (l : list A) : list A :=
  match l with
  | [] => []
  | x :: l' =>
      if decide (k x ∈ seen) then filterSeen k seen l'
      else x :: filterSeen k ({[ k x ]} ∪ seen) l'
  end.

(** [.slice().reverse().filter(...).reverse()] *)
Definition dedupReversed {A : Type} (k : A → string) (l : list A) : list A :=
  rev (filterSeen k ∅ (rev l)).

(** The three deduplication passes that close [addAdditionalArgs]. *)
Definition dedup (b : t) : t :=
  {| parameters := dedupReversed arg (parameters b);
     buildSettings := dedupReversed key (buildSettings b);
     actions := filterSeen id ∅ (actions b) |}.

(** [addAdditionalArgs(args)], together with what it prints through
    [console.warn]. *)
Definition addAdditionalArgsLog (args : list string) (b : t) : t * list string :=
  match args with
  | [] => (b, [])
  | _ :: _ => let '(b', w) := scanArgs args b in (dedup b', w)
  end.

Definition addAdditionalArgs (args : list string) (b : t) : t :=
  fst (addAdditionalArgsLog args b).

Definition renderSetting (s : BuildSetting) : string :=
  key s +:+ "=" +:+ setting s.

Definition renderParameter (p : Param) : list string :=
  if String.eqb (value p) NO_VALUE then [arg p] else [arg p; value p].

(** [build()] *)
Definition build (b : t) : list string :=
  [xcodebuild]
    ++ map renderSetting (buildSettings b)
    ++ concat (map renderParameter (parameters b))
    ++ actions b.

(** *** Command assembly of [buildApp]

    What [buildApp] reads from its [options] argument and from the
    runtime before it builds the command. *)
Record BuildAppInput := {
  scheme : string;
  configuration : string;
  xcworkspace : string;
  destinationRaw : string;
  shouldBuild : bool;
  shouldClean : bool;
  shouldTest : bool;
  debug : bool;
  (** [runtime.getConfig("build.arch")] *)
  archConfig : option string;
  (** [runtime.getConfigOrDefault("build.allowProvisioningUpdates", true)] *)
  allowProvisioningUpdates : bool;
  (** [runtime.getConfig("build.args") || []] *)
  additionalArgs : list string;
  (** result of [prepareBundleDir] *)
  bundlePath : string;
  (** result of [prepareDerivedDataPath]: [null] or a path *)
  derivedDataPath : option string
}.

Definition when (c : bool) (f : t → t) (b : t) : t := if c then f b else b.

Definition truthyOpt (o : option string) : bool :=
  match o with Some s => Js.truthy s | None => false end.

(** The builder as [buildApp] leaves it just before
    [command.addAdditionalArgs(additionalArgs)]. *)
Definition buildAppDeclared (o : BuildAppInput) : t :=
  let arch := default "" (archConfig o) in
  let b := empty in
  let b := when (truthyOpt (archConfig o))
             (fun b => addBuildSettings "ONLY_ACTIVE_ARCH" "NO"
                         (addBuildSettings "VALID_ARCHS" arch
                            (addBuildSettings "ARCHS" arch b))) b in
  let b := when (debug o)
             (fun b => addBuildSettings "ONLY_ACTIVE_ARCH" "YES"
                         (addBuildSettings "GCC_GENERATE_DEBUGGING_SYMBOLS" "YES" b)) b in
  let b := addParameters "-scheme" (scheme o) b in
  let b := addParameters "-configuration" (configuration o) b in
  let b := addParameters "-workspace" (xcworkspace o) b in
  let b := addParameters "-destination" (destinationRaw o) b in
  let b := addParameters "-resultBundlePath" (bundlePath o) b in
  let b := when (truthyOpt (derivedDataPath o))
             (addParameters "-derivedDataPath" (default "" (derivedDataPath o))) b in
  let b := when (allowProvisioningUpdates o)
             (addOption "-allowProvisioningUpdates") b in
  let b := when (shouldClean o) (addAction "clean") b in
  let b := when (shouldBuild o) (addAction "build") b in
  let b := when (shouldTest o) (addAction "test") b in
  b.

(** The builder on which [buildApp] calls [command.build()]. *)
Definition buildAppCommand (o : BuildAppInput) : t :=
  addAdditionalArgs (additionalArgs o) (buildAppDeclared o).

(** [commandParts] of [buildApp]. *)
Definition buildAppCommandParts (o : BuildAppInput) : list string :=
  build (buildAppCommand o).

End XcodeCommandBuilder.


(** ** JSON values, errors and the platform *)

(** A JSON value as [JSON.parse] returns it.  Numbers are restricted to
    integers; the fields of an object are its own enumerable properties
    in property order, each key once. *)
#[warnings="-register-all"]
Inductive JSON :=
  | JNull
  | JBool (b : bool)
  | JNumber (n : Z)
  | JString (s : string)
  | JArray (items : list JSON)
  | JObject (fields : list (string * JSON)).

(** What the sources throw or let through. *)
Inductive Error :=
  | ExtensionError (message : string)
  | ErrnoException (code : string)
  | SyntaxError
  | TypeError.

(** [(error as NodeJS.ErrnoException).code] *)
Definition errorCode (e : Error) : option string :=
  match e with
  | ErrnoException code => Some code
  | _ => None
  end.

(** Built-ins of the JavaScript platform that the sources call and that
    are left uninterpreted: [JSON.parse] ([None] when it throws a
    [SyntaxError]), [JSON.stringify(v, null, 2)], and the functions of
    [node:path]. *)
Record Platform := {
  JSON_parse : string → option JSON;
  JSON_stringify : JSON → string;
  path_join : string → string → string;
  path_dirname : string → string;
  path_isAbsolute : string → bool;
  path_relative : string → string → string
}.

(** JavaScript truthiness of a JSON value. *)
Definition truthy (v : JSON) : bool :=
  match v with
  | JNull => false
  | JBool b => b
  | JNumber n => negb (n =? 0)%Z
  | JString s => Js.truthy s
  | JArray _ | JObject _ => true
  end.

(** [v === s] for a string [s]. *)
Definition strictEqualsString (v : JSON) (s : string) : bool :=
  match v with
  | JString s' => String.eqb s' s
  | _ => false
  end.

(** ** The file system seen through [node:fs/promises]

    A path holds a readable file, or a node on which reading and
    writing fail with an errno code ([EACCES], [EISDIR], ...), or
    nothing.  Directories are implicit. *)
Inductive Node :=
  | File (content : string)
  | Failing (code : string).

Module Fs.

Definition readFile (fs : gmap string Node) (path : string) : Error + string :=
  match fs !! path with
  | None => inl (ErrnoException "ENOENT")
  | Some (Failing code) => inl (ErrnoException code)
  | Some (File content) => inr content
  end.

Definition writeFile (fs : gmap string Node) (path content : string)
    : Error + gmap string Node :=
  match fs !! path with
  | Some (Failing code) => inl (ErrnoException code)
  | _ => inr (<[path := File content]> fs)
  end.

(** [fs.mkdir(dir, { recursive: true })]: succeeds when the directory
    exists already, fails on a file or on a failing node. *)
Definition mkdirRecursive (fs : gmap string Node) (dir : string)
    : Error + gmap string Node :=
  match fs !! dir with
  | None => inr fs
  | Some (File _) => inl (ErrnoException "EEXIST")
  | Some (Failing code) => inl (ErrnoException code)
  end.

End Fs.

(** ** Selection memory (src/cli/state.ts) *)

Module State.

Definition STATE_FILE : string := "cli-state.json".

(** The object behind a [StateMap] value returned by [JSON.parse]:
    its own properties under their keys, a later duplicate winning.
    The cast [as StateMap] is unchecked; a top-level value that is not
    an object has no such property. *)
Definition asStateMap (v : JSON) : gmap string JSON :=
  match v with
  | JObject fields => list_to_map (reverse fields)
  | _ => ∅
  end.

(** The JSON object that [JSON.stringify] receives for a [StateMap]. *)
Definition ofStateMap (state : gmap string JSON) : JSON :=
  JObject (map_to_list state).

(** The [catch (error)] clause of [loadState]. *)
Definition loadStateCatch (error : Error) : Error + gmap string JSON :=
  if bool_decide (errorCode error = Some "ENOENT") then inr ∅
  else inl error.

Definition loadState (P : Platform) (fs : gmap string Node) (storagePath : string)
    : Error + gmap string JSON :=
  let statePath := path_join P storagePath STATE_FILE in
  match Fs.readFile fs statePath with
  | inl error => loadStateCatch error
  | inr content =>
      match JSON_parse P content with
      | None => loadStateCatch SyntaxError
      | Some v => inr (asStateMap v)
      end
  end.

Definition saveState (P : Platform) (fs : gmap string Node) (storagePath : string)
    (state : gmap string JSON) : Error + gmap string Node :=
  let statePath := path_join P storagePath STATE_FILE in
  match Fs.mkdirRecursive fs (path_dirname P statePath) with
  | inl error => inl error
  | inr fs1 => Fs.writeFile fs1 statePath (JSON_stringify P (ofStateMap state))
  end.

(** [state[key]]: [None] is [undefined]. *)
Definition getRememberedValue (state : gmap string JSON) (key : string)
    : option JSON :=
  state !! key.

(** [{ ...state, [key]: value }] *)
Definition setRememberedValue (state : gmap string JSON) (key : string)
    (value : JSON) : gmap string JSON :=
  <[key := value]> state.

(** [{ ...state }] followed by [delete newState[key]] *)
Definition removeRememberedValue (state : gmap string JSON) (key : string)
    : gmap string JSON :=
  delete key state.

End State.

(** ** Configuration (src/cli/config.ts) *)

Module Config.

Definition envKeyForConfigKey (key : string) : string :=
  "SWEETPAD_" +:+ Js.replaceDots (Js.toUpperCase key).

Definition parseEnvValue (P : Platform) (raw : string) : JSON :=
  let trimmed := Js.trim raw in
  if String.eqb trimmed "true" then JBool true
  else if String.eqb trimmed "false" then JBool false
  else if Js.startsWith trimmed "{" || Js.startsWith trimmed "[" then
    match JSON_parse P trimmed with
    | Some v => v
    | None => JString trimmed
    end
  else JString trimmed.

(** One turn of the loop of [extractSweetpadConfig].  Assigning to
    [config["__proto__"]] creates no own property. *)
Definition extractStep (key : string) (value : JSON) (config : gmap string JSON)
    : gmap string JSON :=
  if negb (Js.startsWith key "sweetpad.") then config
  else
    let normalizedKey := Js.stripPrefix "sweetpad." key in
    if String.eqb normalizedKey "__proto__" then config
    else <[normalizedKey := value]> config.

Definition extractSweetpadConfig (settings : gmap string JSON) : gmap string JSON :=
  map_fold extractStep ∅ settings.

Definition builtinKeys : list string :=
  [ "build.configuration"; "build.arch"; "build.args"; "build.env";
    "build.launchArgs"; "build.launchEnv"; "build.rosettaDestination";
    "build.allowProvisioningUpdates"; "build.xcbeautifyEnabled";
    "build.derivedDataPath"; "build.xcodeWorkspacePath";
    "build.bringSimulatorToForeground"; "xcodebuildserver.autogenerate";
    "xcodebuildserver.path"; "system.customXcodeWorkspaceParser" ].

(** [Object.keys(config)] *)
Definition Object_keys (config : gmap string JSON) : list string :=
  (map_to_list config).*1.

(** [new Set([...Object.keys(config), ...])], in iteration order. *)
Definition knownKeys (config : gmap string JSON) : list string :=
  remove_dups (Object_keys config ++ builtinKeys).

(** Body of [for (const key of knownKeys)]; [env] is [process.env]. *)
Definition envStep (P : Platform) (env : gmap string string)
    (config : gmap string JSON) (key : string) : gmap string JSON :=
  match env !! envKeyForConfigKey key with
  | Some envValue => <[key := parseEnvValue P envValue]> config
  | None => config
  end.

(** The project settings file [.vscode/settings.json] as
    [isFileExists] and [readJsonFile] find it. *)
Inductive SettingsFile :=
  | Absent
  | Unreadable (error : Error)
  | Settings (settings : gmap string JSON).

Definition loadCliConfig (P : Platform) (file : SettingsFile)
    (env : gmap string string) : Error + gmap string JSON :=
  match file with
  | Unreadable error => inl error
  | Absent => inr (foldl (envStep P env) ∅ (knownKeys ∅))
  | Settings settings =>
      let config := extractSweetpadConfig settings in
      inr (foldl (envStep P env) config (knownKeys config))
  end.

Definition getCliConfig (config : gmap string JSON) (key : string) : option JSON :=
  config !! key.

(** [value ?? fallback]: [null] and [undefined] give the fallback. *)
Definition getCliConfigOrDefault (config : gmap string JSON) (key : string)
    (fallback : JSON) : JSON :=
  match getCliConfig config key with
  | None | Some JNull => fallback
  | Some value => value
  end.

End Config.

(** ** Runtime context (src/cli/context.ts) *)

Module Context.

(** The mutable fields of [CliRuntimeContext] that selection memory
    uses, and two ghost logs: the prompts of the [fzfPick] calls and
    the [setRememberedValue] calls made so far, oldest first. *)
Record Runtime := {
  persistentState : gmap string JSON;
  stateDirty : bool;
  fzfLog : list string;
  rememberLog : list (string * JSON)
}.

(** A computation of the CLI: it reads and updates the runtime and
    either throws or returns. *)
Definition M (A : Type) : Type := Runtime → (Error + A) * Runtime.

Definition ret {A : Type} (a : A) : M A := fun r => (inr a, r).

Definition throw {A : Type} (e : Error) : M A := fun r => (inl e, r).

Definition bind {A B : Type} (m : M A) (k : A → M B) : M B :=
  fun r =>
    match m r with
    | (inl e, r') => (inl e, r')
    | (inr a, r') => k a r'
    end.

Definition getRememberedValue (key : string) : M (option JSON) :=
  fun r => (inr (State.getRememberedValue (persistentState r) key), r).

Definition setRememberedValue (key : string) (value : JSON) : M unit :=
  fun r =>
    (inr tt,
     {| persistentState := State.setRememberedValue (persistentState r) key value;
        stateDirty := true;
        fzfLog := fzfLog r;
        rememberLog := rememberLog r ++ [(key, value)] |}).

Definition removeRememberedValue (key : string) : M unit :=
  fun r =>
    (inr tt,
     {| persistentState := delete key (persistentState r);
        stateDirty := true;
        fzfLog := fzfLog r;
        rememberLog := rememberLog r |}).

Definition logFzf (prompt : string) : M unit :=
  fun r =>
    (inr tt,
     {| persistentState := persistentState r;
        stateDirty := stateDirty r;
        fzfLog := fzfLog r ++ [prompt];
        rememberLog := rememberLog r |}).

(** [CliRuntimeContext.create], for a given storage path. *)
Definition create (P : Platform) (fs : gmap string Node) (storagePath : string)
    : Error + Runtime :=
  match State.loadState P fs storagePath with
  | inl error => inl error
  | inr persistent =>
      inr {| persistentState := persistent;
             stateDirty := false;
             fzfLog := [];
             rememberLog := [] |}
  end.

(** [savePersistentState] *)
Definition savePersistentState (P : Platform) (fs : gmap string Node)
    (storagePath : string) (r : Runtime) : Error + (gmap string Node * Runtime) :=
  if stateDirty r then
    match State.saveState P fs storagePath (persistentState r) with
    | inl error => inl error
    | inr fs' =>
        inr (fs', {| persistentState := persistentState r;
                     stateDirty := false;
                     fzfLog := fzfLog r;
                     rememberLog := rememberLog r |})
    end
  else inr (fs, r).

End Context.

Declare Scope cli_scope.
Delimit Scope cli_scope with cli.
Notation "x <- m ;; k" := (Context.bind m (fun x => k))
  (at level 100, m at next level, right associativity) : cli_scope.
Notation "m ;;; k" := (Context.bind m (fun _ => k))
  (at level 100, right associativity) : cli_scope.

(** ** Destinations *)

Inductive DestinationType :=
  | macOS
  | iOSSimulator | watchOSSimulator | tvOSSimulator | visionOSSimulator
  | iOSDevice | watchOSDevice | tvOSDevice | visionOSDevice.

(** A destination object.  [objectId] is the identity of the object
    ([Array.prototype.includes] compares objects by identity); [udid] is
    present on simulators and devices, [name] on the classes that have
    one. *)
Record Destination := {
  objectId : nat;
  type : DestinationType;
  id : string;
  udid : option string;
  name : option string;
  label : string;
  quickPickDetails : option string;
  platform : string
}.

#[global] Instance DestinationType_eq_dec : EqDecision DestinationType.
Proof. solve_decision. Defined.

#[global] Instance Destination_eq_dec : EqDecision Destination.
Proof. solve_decision. Defined.

(** Modelled from the spec: [splitSupportedDestinatinos] of
    src/destination/utils.ts is missing.  A destination is supported iff
    its platform tag appears in the declared set, or the declared set is
    absent or empty; each partition keeps the enumeration order. *)
Definition splitSupportedDestinatinos (destinations : list Destination)
    (supportedPlatforms : option (list string))
    : list Destination * list Destination :=
  match supportedPlatforms with
  | None | Some [] => (destinations, [])
  | Some declared =>
      (filter (fun d => platform d ∈ declared) destinations,
       filter (fun d => platform d ∉ declared) destinations)
  end.

(** ** The interactive picker (src/cli/fzf.ts) and the pickers
       (src/cli/pickers.ts) *)

(** How a run of the [fzf] process ends: the binary is missing, the
    spawn fails otherwise, it exits with a non-zero code, or it prints a
    line whose second column does or does not read as an index. *)
Inductive FzfOutcome :=
  | FzfNotInstalled
  | FzfSpawnError (code : string)
  | FzfCancelled
  | FzfPrinted (index : option nat).

(** The collaborators that the pickers query, fixed for one run of the
    CLI: the scheme names, the configuration names, the workspace files
    found, the destination object of this Mac
    ([new macOSDestination({ name: "My Mac", arch })], a class that is
    not under src), the simulators of the simulators manager, the
    destinations made from the devices that [devicectl] lists, the
    platforms that the build settings declare, and the user in front of
    [fzf] (a function of the prompt and the labels shown). *)
Record World := {
  getSchemes : list string;
  getBuildConfigurations : list string;
  detectXcodeWorkspacesPaths : list string;
  macDestination : Destination;
  getSimulators : list Destination;
  deviceDestinations : list Destination;
  supportedPlatforms : option (list string);
  fzf : string → list string → FzfOutcome
}.

(** [listDestinations] (src/cli/pickers.ts): this Mac first, then the
    simulators, then the devices. *)
Definition listDestinations (W : World) : list Destination :=
  macDestination W :: getSimulators W ++ deviceDestinations W.

Module Pickers.
Import Context.
Local Open Scope cli_scope.

Definition DEFAULT_DEBUG_CONFIGURATION : string := "Debug".
Definition DEFAULT_RELEASE_CONFIGURATION : string := "Release".

Definition fzfPick {T : Type} (W : World) (prompt : string)
    (items : list (string * T)) : M T :=
  logFzf prompt ;;;
  match items with
  | [] => throw (ExtensionError "No items available for selection")
  | [item] => ret (snd item)
  | _ =>
      match fzf W prompt (map fst items) with
      | FzfNotInstalled =>
          throw (ExtensionError
            "fzf is required but not installed. Install it with `brew install fzf` and try again.")
      | FzfSpawnError code => throw (ErrnoException code)
      | FzfCancelled => throw (ExtensionError "Selection cancelled")
      | FzfPrinted None => throw (ExtensionError "Failed to parse fzf selection")
      | FzfPrinted (Some index) =>
          match items !! index with
          | Some item => ret (snd item)
          | None => throw (ExtensionError "Failed to parse fzf selection")
          end
      end
  end.

Definition pickScheme (W : World) (prompt : option string) : M string :=
  let schemes := getSchemes W in
  match schemes with
  | [] => throw (ExtensionError "No schemes found")
  | [scheme] => ret scheme
  | _ =>
      fzfPick W (default "Select scheme" prompt)
        (map (fun scheme => (scheme, scheme)) schemes)
  end.

(** [configurations.length === 2 && some(Debug) && some(Release)] *)
Definition isDebugReleasePair (configurations : list string) : bool :=
  (length configurations =? 2)%nat
  && existsb (String.eqb DEFAULT_DEBUG_CONFIGURATION) configurations
  && existsb (String.eqb DEFAULT_RELEASE_CONFIGURATION) configurations.

Definition pickConfiguration (W : World) : M string :=
  let configurations := getBuildConfigurations W in
  match configurations with
  | [] => ret DEFAULT_DEBUG_CONFIGURATION
  | [configuration] => ret configuration
  | _ =>
      if isDebugReleasePair configurations then ret DEFAULT_DEBUG_CONFIGURATION
      else
        fzfPick W "Select configuration"
          (map (fun configuration => (configuration, configuration)) configurations)
  end.

(** [a.split(path.sep).length] *)
Definition pathDepth (p : string) : nat := length (Js.split "/" p).

(** [paths.sort((a, b) => depth(a) - depth(b))]: a stable sort. *)
Fixpoint insertByDepth (p : string) (sorted : list string) : list string :=
  match sorted with
  | [] => [p]
  | q :: sorted' =>
      if (pathDepth q <=? pathDepth p)%nat then q :: insertByDepth p sorted'
      else p :: sorted
  end.

Definition sortByDepth (paths : list string) : list string :=
  fold_left (fun sorted p => insertByDepth p sorted) paths [].

Definition pickXcodeWorkspacePath (P : Platform) (W : World)
    (workspacePath : string) : M string :=
  let paths := detectXcodeWorkspacesPaths W in
  match paths with
  | [] => throw (ExtensionError "No xcode workspaces found")
  | [xcPath] => ret xcPath
  | _ =>
      fzfPick W "Select xcode workspace"
        (map (fun xcPath => (path_relative P workspacePath xcPath, xcPath))
             (sortByDepth paths))
  end.

Definition formatDestinationLabel (destination : Destination) : string :=
  let detail :=
    match quickPickDetails destination with
    | Some details => if Js.truthy details then " - " +:+ details else ""
    | None => ""
    end in
  label destination +:+ detail.

Definition pickDestination (W : World) : M Destination :=
  let '(supported, unsupported) :=
    splitSupportedDestinatinos (listDestinations W) (supportedPlatforms W) in
  match supported, unsupported with
  | [], [] => throw (ExtensionError "No destinations found")
  | _, _ =>
      fzfPick W "Select destination"
        (map (fun d => (formatDestinationLabel d, d)) supported
         ++ map (fun d => (formatDestinationLabel d +:+ " [unsupported]", d))
                unsupported)
  end.

(** [remembered && names.find((n) => n === remembered)] *)
Definition findRemembered (remembered : option JSON) (names : list string)
    : option string :=
  match remembered with
  | Some v => if truthy v then find (strictEqualsString v) names else None
  | None => None
  end.

Definition pickSchemeSmart (W : World) (prompt : option string) : M string :=
  remembered <- getRememberedValue "cli.scheme" ;;
  let schemes := getSchemes W in
  match schemes with
  | [] => throw (ExtensionError "No schemes found")
  | _ =>
      match findRemembered remembered schemes with
      | Some rememberedScheme => ret rememberedScheme
      | None =>
          selected <- pickScheme W prompt ;;
          setRememberedValue "cli.scheme" (JString selected) ;;;
          ret selected
      end
  end.

Definition pickConfigurationSmart (W : World) : M string :=
  remembered <- getRememberedValue "cli.configuration" ;;
  let configurations := getBuildConfigurations W in
  match configurations with
  | [] => ret DEFAULT_DEBUG_CONFIGURATION
  | [configuration] => ret configuration
  | _ =>
      if isDebugReleasePair configurations then ret DEFAULT_DEBUG_CONFIGURATION
      else
        match findRemembered remembered configurations with
        | Some rememberedConfig => ret rememberedConfig
        | None =>
            selected <- pickConfiguration W ;;
            setRememberedValue "cli.configuration" (JString selected) ;;;
            ret selected
        end
  end.

(** [remembered && paths.includes(remembered)] *)
Definition rememberedPath (remembered : option JSON) (paths : list string)
    : option string :=
  match remembered with
  | Some (JString s) =>
      if Js.truthy s && Js.arrayIncludes paths s then Some s else None
  | _ => None
  end.

Definition pickXcodeWorkspacePathSmart (P : Platform) (W : World)
    (workspacePath : string) : M string :=
  remembered <- getRememberedValue "cli.xcworkspace" ;;
  let paths := detectXcodeWorkspacesPaths W in
  match paths with
  | [] => throw (ExtensionError "No xcode workspaces found")
  | _ =>
      match rememberedPath remembered paths with
      | Some path => ret path
      | None =>
          match paths with
          | [xcPath] => ret xcPath
          | _ =>
              selected <- pickXcodeWorkspacePath P W workspacePath ;;
              setRememberedValue "cli.xcworkspace" (JString selected) ;;;
              ret selected
          end
      end
  end.

(** The predicate given to [allDestinations.find] in
    [pickDestinationSmart]. *)
Definition matchesRememberedId (rememberedId : JSON) (d : Destination) : bool :=
  match udid d with
  | Some u => strictEqualsString rememberedId u || strictEqualsString rememberedId (id d)
  | None => strictEqualsString rememberedId (id d)
  end.

(** The [if (rememberedId) { ... }] block: the destination that is
    returned without asking, if any. *)
Definition rememberedDestination (rememberedId : option JSON)
    (supported unsupported : list Destination) : option Destination :=
  match rememberedId with
  | Some v =>
      if truthy v then
        match find (matchesRememberedId v) (supported ++ unsupported) with
        | Some d => if bool_decide (d ∈ supported) then Some d else None
        | None => None
        end
      else None
  | None => None
  end.

Definition pickDestinationSmart (W : World) : M Destination :=
  rememberedId <- getRememberedValue "cli.destination.id" ;;
  let '(supported, unsupported) :=
    splitSupportedDestinatinos (listDestinations W) (supportedPlatforms W) in
  match supported, unsupported with
  | [], [] => throw (ExtensionError "No destinations found")
  | _, _ =>
      match rememberedDestination rememberedId supported unsupported with
      | Some d => ret d
      | None =>
          selected <- pickDestination W ;;
          setRememberedValue "cli.destination.id" (JString (id selected)) ;;;
          ret selected
      end
  end.

End Pickers.

(** ** Resolution of the four decision points (src/cli/index.ts) *)

Module Cli.
Import Context.
Local Open Scope cli_scope.

(** The fields of [CliOptions] that resolution reads. *)
Record CliOptions := {
  xcworkspace : option string;
  scheme : option string;
  configuration : option string;
  destinationId : option string;
  destinationName : option string
}.

Definition truthyOpt (o : option string) : bool :=
  match o with Some s => Js.truthy s | None => false end.

Definition resolveXcworkspace (P : Platform) (W : World) (options : CliOptions)
    (workspacePath : string) (config : gmap string JSON) : M string :=
  let configPath := Config.getCliConfig config "build.xcodeWorkspacePath" in
  let rawPath :=
    match xcworkspace options with
    | Some s => Some (JString s)
    | None => configPath
    end in
  match rawPath with
  | Some v =>
      if truthy v then
        match v with
        | JString raw =>
            ret (if path_isAbsolute P raw then raw
                 else path_join P workspacePath raw)
        | _ => throw TypeError (* [node:path] rejects a non-string *)
        end
      else Pickers.pickXcodeWorkspacePathSmart P W workspacePath
  | None => Pickers.pickXcodeWorkspacePathSmart P W workspacePath
  end.

(** [options.scheme ?? (await pickSchemeSmart(...))] *)
Definition resolveScheme (W : World) (options : CliOptions) : M string :=
  match scheme options with
  | Some s => ret s
  | None => Pickers.pickSchemeSmart W None
  end.

(** [options.configuration ?? getCliConfig(config, "build.configuration")
    ?? (await pickConfigurationSmart(...))] *)
Definition resolveConfiguration (W : World) (options : CliOptions)
    (config : gmap string JSON) : M JSON :=
  match configuration options with
  | Some s => ret (JString s)
  | None =>
      match Config.getCliConfig config "build.configuration" with
      | None | Some JNull =>
          selected <- Pickers.pickConfigurationSmart W ;;
          ret (JString selected)
      | Some v => ret v
      end
  end.

Definition matchDestinationId (destination : Destination) (id' : string) : bool :=
  let normalized := Js.toLowerCase (Js.trim id') in
  match udid destination with
  | Some u =>
      String.eqb (Js.toLowerCase u) normalized
      || String.eqb (Js.toLowerCase (id destination)) normalized
  | None => String.eqb (Js.toLowerCase (id destination)) normalized
  end.

Definition matchDestinationName (destination : Destination) (name' : string) : bool :=
  let normalized := Js.toLowerCase (Js.trim name') in
  if negb (Js.truthy normalized) then false
  else
    let label' := Js.toLowerCase (label destination) in
    let destName :=
      match name destination with
      | Some n => Js.toLowerCase n
      | None => label'
      end in
    Js.includes label' normalized
    || Js.includes destName normalized
    || Js.includes (Js.toLowerCase (id destination)) normalized.

Definition resolveDestination (W : World) (options : CliOptions) : M Destination :=
  if negb (truthyOpt (destinationId options))
     && negb (truthyOpt (destinationName options))
  then Pickers.pickDestinationSmart W
  else
    let destinations := listDestinations W in
    if truthyOpt (destinationId options) then
      let destinationId' := default "" (destinationId options) in
      match find (fun item => matchDestinationId item destinationId') destinations with
      | None =>
          throw (ExtensionError ("Destination not found for id: " +:+ destinationId'))
      | Some destination => ret destination
      end
    else
      let name' := default "" (destinationName options) in
      match filter (fun item => matchDestinationName item name' = true) destinations with
      | [] => throw (ExtensionError ("Destination not found for name: " +:+ name'))
      | [destination] => ret destination
      | _ => Pickers.pickDestinationSmart W
      end.

(** The part of [run] that resolves the four decision points, in
    order, before the state is saved. *)
Definition resolveAll (P : Platform) (W : World) (options : CliOptions)
    (workspacePath : string) (config : gmap string JSON)
    : M (string * string * JSON * Destination) :=
  xcworkspace' <- resolveXcworkspace P W options workspacePath config ;;
  scheme' <- resolveScheme W options ;;
  configuration' <- resolveConfiguration W options config ;;
  destination <- resolveDestination W options ;;
  ret (xcworkspace', scheme', configuration', destination).

End Cli.

(** ** Reference definitions used to state the properties *)

Module Reference.

(** Keep an entry iff no later entry has its key: each key once, at
    the place and with the value of its last occurrence. *)
Fixpoint keepLast {A : Type} (k : A → string) (l : list A) : list A :=
  match l with
  | [] => []
  | x :: l' =>
      if bool_decide (k x ∈ map k l') then keepLast k l'
      else x :: keepLast k l'
  end.

(** Keep an entry iff no earlier entry has its key. *)
Definition keepFirst {A : Type} (k : A → string) (l : list A) : list A :=
  rev (keepLast k (rev l)).

(** The last entry of [l] with key [key], or [x] if there is none. *)
Fixpoint lastWithKey {A : Type} (k : A → string) (key : string) (x : A)
    (l : list A) : A :=
  match l with
  | [] => x
  | y :: l' =>
      if String.eqb (k y) key then lastWithKey k key y l'
      else lastWithKey k key x l'
  end.

(** The deduplication in the words of the specification: each key
    once, placed where its first declaration was, valued from its last
    declaration. *)
Fixpoint firstPlaceLastValue {A : Type} (k : A → string) (seen : gset string)
    (l : list A) : list A :=
  match l with
  | [] => []
  | x :: l' =>
      if decide (k x ∈ seen) then firstPlaceLastValue k seen l'
      else lastWithKey k (k x) x l' :: firstPlaceLastValue k ({[ k x ]} ∪ seen) l'
  end.

(** The entries with a given key. *)
Definition withKey {A : Type} (k : A → string) (key : string) (l : list A) : list A :=
  filter (fun x => k x = key) l.

(** The entries of [c] declared after those of [b], class by class. *)
Definition declareAfter (b c : XcodeCommandBuilder.t) : XcodeCommandBuilder.t :=
  {| XcodeCommandBuilder.parameters :=
       XcodeCommandBuilder.parameters b ++ XcodeCommandBuilder.parameters c;
     XcodeCommandBuilder.buildSettings :=
       XcodeCommandBuilder.buildSettings b ++ XcodeCommandBuilder.buildSettings c;
     XcodeCommandBuilder.actions :=
       XcodeCommandBuilder.actions b ++ XcodeCommandBuilder.actions c |}.

(** The keys that the project settings file declares for SweetPad: the
    text after the [sweetpad.] prefix of its keys. *)
Definition declaresKey (file : Config.SettingsFile) (key : string) : Prop :=
  match file with
  | Config.Settings settings =>
      key ≠ "__proto__" ∧ is_Some (settings !! ("sweetpad." +:+ key))
  | _ => False
  end.

#[global] Instance declaresKey_dec (file : Config.SettingsFile) (key : string) :
  Decision (declaresKey file key).
Proof. destruct file; simpl; apply _. Defined.

(** The value that the project settings file gives to a key. *)
Definition declaredValue (file : Config.SettingsFile) (key : string) : option JSON :=
  match file with
  | Config.Settings settings =>
      if String.eqb key "__proto__" then None
      else settings !! ("sweetpad." +:+ key)
  | _ => None
  end.

(** A state map after a sequence of [setRememberedValue] calls. *)
Definition setAll (state : gmap string JSON) (sets : list (string * JSON))
    : gmap string JSON :=
  foldl (fun st kv => State.setRememberedValue st (fst kv) (snd kv)) state sets.

(** What the scan of the free-form tokens declares on its own. *)
Definition parsed (args : list string) : XcodeCommandBuilder.t :=
  fst (XcodeCommandBuilder.scanArgs args XcodeCommandBuilder.empty).

End Reference.

(** ** A concrete platform

    An executable reading of [JSON.stringify(v, null, 2)] and
    [JSON.parse] on the JSON values above, and POSIX-style path
    functions.  It serves to run the embedding on concrete inputs. *)

Module JsonText.

Definition dquote : ascii := ascii_of_nat 34.
Definition newline : ascii := ascii_of_nat 10.

Definition hexDigit (n : nat) : ascii :=
  nth n ["0"; "1"; "2"; "3"; "4"; "5"; "6"; "7"; "8"; "9";
         "a"; "b"; "c"; "d"; "e"; "f"]%char "0"%char.

Definition hexValue (c : ascii) : option nat :=
  let n := nat_of_ascii c in
  if (48 <=? n)%nat && (n <=? 57)%nat then Some (n - 48)
  else if (97 <=? n)%nat && (n <=? 102)%nat then Some (n - 87)
  else if (65 <=? n)%nat && (n <=? 70)%nat then Some (n - 55)
  else None.

Definition escapeChar (c : ascii) : string :=
  let n := nat_of_ascii c in
  if Ascii.eqb c dquote then String "\" (String dquote "")
  else if Ascii.eqb c "\" then "\\"
  else if (n =? 10)%nat then "\n"
  else if (n =? 13)%nat then "\r"
  else if (n =? 9)%nat then "\t"
  else if (n <? 32)%nat then
    "\u00" +:+ String (hexDigit (n / 16)) (String (hexDigit (n mod 16)) "")
  else String c "".

Fixpoint escape (s : string) : string :=
  match s with
  | EmptyString => EmptyString
  | String c s' => escapeChar c +:+ escape s'
  end.

Definition quote (s : string) : string :=
  String dquote (escape s +:+ String dquote "").

Fixpoint spaces (n : nat) : string :=
  match n with
  | 0 => ""
  | S n' => String " " (spaces n')
  end.

Fixpoint join (sep : string) (l : list string) : string :=
  match l with
  | [] => ""
  | [x] => x
  | x :: l' => x +:+ sep +:+ join sep l'
  end.

Definition block (opening closing : string) (indent : nat) (lines : list string)
    : string :=
  match lines with
  | [] => opening +:+ closing
  | _ =>
      opening +:+ String newline ""
        +:+ join ("," +:+ String newline "")
              (map (fun line => spaces (indent + 2) +:+ line) lines)
        +:+ String newline "" +:+ spaces indent +:+ closing
  end.

Fixpoint stringifyAt (indent : nat) (v : JSON) : string :=
  match v with
  | JNull => "null"
  | JBool true => "true"
  | JBool false => "false"
  | JNumber n => NilZero.string_of_int (Z.to_int n)
  | JString s => quote s
  | JArray items =>
      block "[" "]" indent (map (stringifyAt (indent + 2)) items)
  | JObject fields =>
      block "{" "}" indent
        (map (fun field => quote (fst field) +:+ ": "
                             +:+ stringifyAt (indent + 2) (snd field)) fields)
  end.

Definition stringify (v : JSON) : string := stringifyAt 0 v.

Definition isJsonSpace (c : ascii) : bool :=
  let n := nat_of_ascii c in
  (n =? 32)%nat || (n =? 9)%nat || (n =? 10)%nat || (n =? 13)%nat.

Fixpoint skipSpace (s : string) : string :=
  match s with
  | String c s' => if isJsonSpace c then skipSpace s' else s
  | EmptyString => EmptyString
  end.

(** The rest of a string literal, after its opening quote. *)
Fixpoint parseStringBody (s : string) : option (string * string) :=
  match s with
  | EmptyString => None
  | String c s' =>
      if Ascii.eqb c dquote then Some (EmptyString, s')
      else if Ascii.eqb c "\" then
        match s' with
        | String e s'' =>
            let continue (c' : ascii) (rest : string) :=
              match parseStringBody rest with
              | Some (body, rest') => Some (String c' body, rest')
              | None => None
              end in
            if Ascii.eqb e "n" then continue newline s''
            else if Ascii.eqb e "r" then continue (ascii_of_nat 13) s''
            else if Ascii.eqb e "t" then continue (ascii_of_nat 9) s''
            else if Ascii.eqb e "b" then continue (ascii_of_nat 8) s''
            else if Ascii.eqb e "f" then continue (ascii_of_nat 12) s''
            else if Ascii.eqb e "u" then
              match s'' with
              | String "0" (String "0" (String h (String l s3))) =>
                  match hexValue h, hexValue l with
                  | Some hv, Some lv => continue (ascii_of_nat (16 * hv + lv)) s3
                  | _, _ => None
                  end
              | _ => None
              end
            else if Ascii.eqb e dquote || Ascii.eqb e "\" || Ascii.eqb e "/"
            then continue e s''
            else None
        | EmptyString => None
        end
      else if (nat_of_ascii c <? 32)%nat then None
      else
        match parseStringBody s' with
        | Some (body, rest) => Some (String c body, rest)
        | None => None
        end
  end.

Definition isDigit (c : ascii) : bool :=
  let n := nat_of_ascii c in (48 <=? n)%nat && (n <=? 57)%nat.

Fixpoint takeDigits (s : string) : string * string :=
  match s with
  | String c s' =>
      if isDigit c then let '(ds, rest) := takeDigits s' in (String c ds, rest)
      else (EmptyString, s)
  | EmptyString => (EmptyString, EmptyString)
  end.

Definition parseNumber (s : string) : option (JSON * string) :=
  let '(sign, body) :=
    match s with
    | String "-" s' => ("-", s')
    | _ => ("", s)
    end in
  let '(digits, rest) := takeDigits body in
  match digits with
  | EmptyString => None
  | _ =>
      match NilZero.int_of_string (sign +:+ digits) with
      | Some n => Some (JNumber (Z.of_int n), rest)
      | None => None
      end
  end.

Definition literal (word : string) (v : JSON) (s : string) : option (JSON * string) :=
  if String.prefix word s then Some (v, Js.dropChars (String.length word) s)
  else None.

Fixpoint parseValue (fuel : nat) (s : string) {struct fuel} : option (JSON * string) :=
  match fuel with
  | 0 => None
  | S fuel' =>
      match skipSpace s with
      | EmptyString => None
      | String c s' as s0 =>
          if Ascii.eqb c dquote then
            match parseStringBody s' with
            | Some (str, rest) => Some (JString str, rest)
            | None => None
            end
          else if Ascii.eqb c "[" then
            match skipSpace s' with
            | String "]" rest => Some (JArray [], rest)
            | _ => parseItems fuel' [] s'
            end
          else if Ascii.eqb c "{" then
            match skipSpace s' with
            | String "}" rest => Some (JObject [], rest)
            | _ => parseFields fuel' [] s'
            end
          else if Ascii.eqb c "n" then literal "null" JNull s0
          else if Ascii.eqb c "t" then literal "true" (JBool true) s0
          else if Ascii.eqb c "f" then literal "false" (JBool false) s0
          else parseNumber s0
      end
  end
with parseItems (fuel : nat) (acc : list JSON) (s : string) {struct fuel}
    : option (JSON * string) :=
  match fuel with
  | 0 => None
  | S fuel' =>
      match parseValue fuel' s with
      | Some (v, rest) =>
          match skipSpace rest with
          | String "," rest' => parseItems fuel' (acc ++ [v]) rest'
          | String "]" rest' => Some (JArray (acc ++ [v]), rest')
          | _ => None
          end
      | None => None
      end
  end
with parseFields (fuel : nat) (acc : list (string * JSON)) (s : string) {struct fuel}
    : option (JSON * string) :=
  match fuel with
  | 0 => None
  | S fuel' =>
      match skipSpace s with
      | String c s' =>
          if Ascii.eqb c dquote then
            match parseStringBody s' with
            | Some (name, rest) =>
                match skipSpace rest with
                | String ":" rest' =>
                    match parseValue fuel' rest' with
                    | Some (v, rest'') =>
                        match skipSpace rest'' with
                        | String "," rest3 => parseFields fuel' (acc ++ [(name, v)]) rest3
                        | String "}" rest3 => Some (JObject (acc ++ [(name, v)]), rest3)
                        | _ => None
                        end
                    | None => None
                    end
                | _ => None
                end
            | None => None
            end
          else None
      | EmptyString => None
      end
  end.

Definition parse (s : string) : option JSON :=
  match parseValue (2 * String.length s + 2) s with
  | Some (v, rest) =>
      match skipSpace rest with
      | EmptyString => Some v
      | _ => None
      end
  | None => None
  end.

End JsonText.

Module Posix.

Definition isAbsolute (p : string) : bool := Js.startsWith p "/".

Definition join (a b : string) : string := a +:+ "/" +:+ b.

(** The text before the last ['/'], or ["."] if there is none. *)
Definition dirname (p : string) : string :=
  match rev (Js.split "/" p) with
  | _ :: (_ :: _) as parents => JsonText.join "/" (rev parents)
  | _ => "."
  end.

(** The path from [from] to [to] when [to] lies below [from]. *)
Definition relative (from to : string) : string :=
  Js.stripPrefix (from +:+ "/") to.

Definition platform : Platform :=
  {| JSON_parse := JsonText.parse;
     JSON_stringify := JsonText.stringify;
     path_join := join;
     path_dirname := dirname;
     path_isAbsolute := isAbsolute;
     path_relative := relative |}.

End Posix.

(** ** Sample inputs *)

Module Samples.

(** A debug build with an architecture override and no additional
    arguments configured. *)
Definition debugArchBuild : XcodeCommandBuilder.BuildAppInput :=
  {| XcodeCommandBuilder.scheme := "MyApp";
     XcodeCommandBuilder.configuration := "Debug";
     XcodeCommandBuilder.xcworkspace := "/p/MyApp.xcworkspace";
     XcodeCommandBuilder.destinationRaw := "platform=macOS,arch=arm64";
     XcodeCommandBuilder.shouldBuild := true;
     XcodeCommandBuilder.shouldClean := false;
     XcodeCommandBuilder.shouldTest := false;
     XcodeCommandBuilder.debug := true;
     XcodeCommandBuilder.archConfig := Some "arm64";
     XcodeCommandBuilder.allowProvisioningUpdates := true;
     XcodeCommandBuilder.additionalArgs := [];
     XcodeCommandBuilder.bundlePath := "/p/.sweetpad/bundle/MyApp";
     XcodeCommandBuilder.derivedDataPath := None |}.

(** The same build with [build.args] set to [["-quiet"]]. *)
Definition debugArchBuildQuiet : XcodeCommandBuilder.BuildAppInput :=
  {| XcodeCommandBuilder.scheme := "MyApp";
     XcodeCommandBuilder.configuration := "Debug";
     XcodeCommandBuilder.xcworkspace := "/p/MyApp.xcworkspace";
     XcodeCommandBuilder.destinationRaw := "platform=macOS,arch=arm64";
     XcodeCommandBuilder.shouldBuild := true;
     XcodeCommandBuilder.shouldClean := false;
     XcodeCommandBuilder.shouldTest := false;
     XcodeCommandBuilder.debug := true;
     XcodeCommandBuilder.archConfig := Some "arm64";
     XcodeCommandBuilder.allowProvisioningUpdates := true;
     XcodeCommandBuilder.additionalArgs := ["-quiet"];
     XcodeCommandBuilder.bundlePath := "/p/.sweetpad/bundle/MyApp";
     XcodeCommandBuilder.derivedDataPath := None |}.

(** A remembered scheme, and a batch of selections made after it. *)
Definition rememberedScheme : gmap string JSON :=
  <["cli.scheme" := JString "MyApp"]> ∅.

Definition laterSelections : list (string * JSON) :=
  [ ("cli.configuration", JString "Release");
    ("cli.scheme", JString "MyAppTests");
    ("cli.destination.id", JString "ABC-123") ].

Definition storagePath : string := "/p/.sweetpad".

(** A storage directory whose state file is not valid JSON, and one
    whose state file cannot be read. *)
Definition corruptStorage : gmap string Node :=
  <["/p/.sweetpad/cli-state.json" := File "{not json"]> ∅.

Definition lockedStorage : gmap string Node :=
  <["/p/.sweetpad/cli-state.json" := Failing "EACCES"]> ∅.

(** Four destinations, and a world whose scheme supports the iOS
    simulator only: the two iPhones are supported, the Mac and the watch
    are not. *)
Definition myMac : Destination :=
  {| objectId := 0; type := macOS; id := "macos-My Mac"; udid := None;
     name := Some "My Mac"; label := "My Mac"; quickPickDetails := Some "arm64";
     platform := "macosx" |}.

Definition iPhone15 : Destination :=
  {| objectId := 1; type := iOSSimulator; id := "iossimulator-DEF-456";
     udid := Some "DEF-456"; name := Some "iPhone 15"; label := "iPhone 15";
     quickPickDetails := Some "iOS 17.0"; platform := "iphonesimulator" |}.

Definition iPhone15Pro : Destination :=
  {| objectId := 2; type := iOSSimulator; id := "iossimulator-GHI-789";
     udid := Some "GHI-789"; name := Some "iPhone 15 Pro"; label := "iPhone 15 Pro";
     quickPickDetails := Some "iOS 17.0"; platform := "iphonesimulator" |}.

Definition appleWatch : Destination :=
  {| objectId := 3; type := watchOSSimulator; id := "watchossimulator-ABC-123";
     udid := Some "ABC-123"; name := Some "Apple Watch"; label := "Apple Watch";
     quickPickDetails := None; platform := "watchsimulator" |}.

(** The user picks the first line that [fzf] shows. *)
Definition picksFirst (prompt : string) (labels : list string) : FzfOutcome :=
  FzfPrinted (Some 0).

Definition world : World :=
  {| getSchemes := ["MyApp"; "MyAppTests"];
     getBuildConfigurations := ["Debug"; "Release"];
     detectXcodeWorkspacesPaths :=
       ["/p/MyApp.xcworkspace"; "/p/Pods/Pods.xcworkspace"];
     macDestination := myMac;
     getSimulators := [iPhone15; iPhone15Pro; appleWatch];
     deviceDestinations := [];
     supportedPlatforms := Some ["iphonesimulator"];
     fzf := picksFirst |}.

(** The same project with a third configuration. *)
Definition worldWithStaging : World :=
  {| getSchemes := ["MyApp"; "MyAppTests"];
     getBuildConfigurations := ["Debug"; "Staging"; "Release"];
     detectXcodeWorkspacesPaths :=
       ["/p/MyApp.xcworkspace"; "/p/Pods/Pods.xcworkspace"];
     macDestination := myMac;
     getSimulators := [iPhone15; iPhone15Pro; appleWatch];
     deviceDestinations := [];
     supportedPlatforms := Some ["iphonesimulator"];
     fzf := picksFirst |}.

(** A directory in which nothing is found, on a Mac without simulators
    and devices. *)
Definition emptyWorld : World :=
  {| getSchemes := [];
     getBuildConfigurations := [];
     detectXcodeWorkspacesPaths := [];
     macDestination := myMac;
     getSimulators := [];
     deviceDestinations := [];
     supportedPlatforms := None;
     fzf := picksFirst |}.

Definition runtimeWith (state : gmap string JSON) : Context.Runtime :=
  {| Context.persistentState := state;
     Context.stateDirty := false;
     Context.fzfLog := [];
     Context.rememberLog := [] |}.

(** Selections remembered from an earlier run. *)
Definition remembered : gmap string JSON :=
  <["cli.xcworkspace" := JString "/p/MyApp.xcworkspace"]>
    (<["cli.scheme" := JString "MyApp"]>
       (<["cli.configuration" := JString "Release"]>
          (<["cli.destination.id" := JString "GHI-789"]> ∅))).

(** The remembered destination is the watch, which the scheme does not
    support. *)
Definition rememberedWatch : gmap string JSON :=
  <["cli.destination.id" := JString "ABC-123"]> ∅.

(** [--destination iPhone], which two destinations match. *)
Definition destinationByName : Cli.CliOptions :=
  {| Cli.xcworkspace := None;
     Cli.scheme := None;
     Cli.configuration := None;
     Cli.destinationId := None;
     Cli.destinationName := Some "iPhone" |}.

(** All four decision points given on the command line. *)
Definition allExplicit : Cli.CliOptions :=
  {| Cli.xcworkspace := Some "MyApp.xcworkspace";
     Cli.scheme := Some "MyAppTests";
     Cli.configuration := Some "Release";
     Cli.destinationId := Some "ABC-123";
     Cli.destinationName := Some "Apple Watch" |}.

(** A settings file with one SweetPad key and one foreign key, and an
    environment that overrides a built-in key, the declared key, and a
    key that is neither. *)
Definition projectSettings : gmap string JSON :=
  <["sweetpad.format.path" := JString "swift-format"]>
    (<["editor.tabSize" := JNumber 2]> ∅).

Definition environment : gmap string string :=
  <["SWEETPAD_BUILD_CONFIGURATION" := "Release"]>
    (<["SWEETPAD_FORMAT_PATH" := " /opt/swift-format "]>
       (<["SWEETPAD_TUIST_AUTOGENERATE" := "true"]> ∅)).

End Samples.


(** ** Command line (src/cli/index.ts, [parseArgs]) *)

Module Args.

(** [CliOptions]: an absent optional field is [None]; [help] and [debug]
    are only ever set to [true], [false] stands for [undefined].  The
    elements of [launchArgs] and the values of [launchEnv] may come out
    of [JSON.parse] and are JSON values; [launchEnv] holds the own
    properties of the object. *)
Record CliOptions := {
  command : option string;
  workspaceRoot : option string;
  xcworkspace : option string;
  scheme : option string;
  configuration : option string;
  destinationId : option string;
  destinationName : option string;
  sdk : option string;
  debug : bool;
  launchArgs : list JSON;
  launchEnv : gmap string JSON;
  help : bool
}.

Definition initial : CliOptions :=
  {| command := None; workspaceRoot := None; xcworkspace := None;
     scheme := None; configuration := None; destinationId := None;
     destinationName := None; sdk := None; debug := false;
     launchArgs := []; launchEnv := ∅; help := false |}.

(** [target[key] = value] on a plain object: the key [__proto__] goes
    to the setter of [Object.prototype] and creates no own property. *)
Definition assign (key : string) (value : JSON) (target : gmap string JSON)
    : gmap string JSON :=
  if String.eqb key "__proto__" then target else <[key := value]> target.

(** [Object.assign(target, source)], [source] given by its own
    enumerable properties. *)
Definition Object_assign (target source : gmap string JSON) : gmap string JSON :=
  delete "__proto__" source ∪ target.

(** The own enumerable properties of an array: its elements under
    their indices. *)
Definition arrayProperties (items : list JSON) : gmap string JSON :=
  list_to_map (imap (fun i item => (NilEmpty.string_of_uint (Nat.to_uint i), item))
                    items).

(** The own enumerable properties of what [parseEnvValue] returns for
    a parsed value: [parsed && typeof parsed === "object"] holds for
    objects and arrays. *)
Definition objectProperties (parsed : JSON) : gmap string JSON :=
  match parsed with
  | JObject _ => State.asStateMap parsed
  | JArray items => arrayProperties items
  | _ => ∅
  end.

Definition parseListValue (P : Platform) (raw : string) : Error + list JSON :=
  let trimmed := Js.trim raw in
  if Js.startsWith trimmed "[" then
    match JSON_parse P trimmed with
    | None => inl SyntaxError
    | Some (JArray items) => inr items
    | Some _ => inr []
    end
  else if negb (Js.truthy trimmed) then inr []
  else
    inr (map JString
           (filter (fun value => Js.truthy value = true)
                   (map Js.trim (Js.split "," trimmed)))).

(** One turn of the loop of [parseEnvValue]. *)
Definition envItem (env : gmap string JSON) (item : string) : gmap string JSON :=
  match Js.split "=" item with
  | [] => env
  | key :: rest =>
      if negb (Js.truthy key) || bool_decide (rest = []) then env
      else assign (Js.trim key) (JString (Js.trim (JsonText.join "=" rest))) env
  end.

(** [parseEnvValue], by the own properties of the object it returns. *)
Definition parseEnvValue (P : Platform) (raw : string)
    : Error + gmap string JSON :=
  let trimmed := Js.trim raw in
  if Js.startsWith trimmed "{" then
    match JSON_parse P trimmed with
    | None => inl SyntaxError
    | Some parsed => inr (objectProperties parsed)
    end
  else inr (foldl envItem ∅ (Js.split "," trimmed)).

Definition setHelp (options : CliOptions) : CliOptions :=
  {| command := command options;
     workspaceRoot := workspaceRoot options;
     xcworkspace := xcworkspace options;
     scheme := scheme options;
     configuration := configuration options;
     destinationId := destinationId options;
     destinationName := destinationName options;
     sdk := sdk options;
     debug := debug options;
     launchArgs := launchArgs options;
     launchEnv := launchEnv options;
     help := true |}.

Definition setDebug (options : CliOptions) : CliOptions :=
  {| command := command options;
     workspaceRoot := workspaceRoot options;
     xcworkspace := xcworkspace options;
     scheme := scheme options;
     configuration := configuration options;
     destinationId := destinationId options;
     destinationName := destinationName options;
     sdk := sdk options;
     debug := true;
     launchArgs := launchArgs options;
     launchEnv := launchEnv options;
     help := help options |}.

Definition setCommand (next : string) (options : CliOptions) : CliOptions :=
  {| command := Some next;
     workspaceRoot := workspaceRoot options;
     xcworkspace := xcworkspace options;
     scheme := scheme options;
     configuration := configuration options;
     destinationId := destinationId options;
     destinationName := destinationName options;
     sdk := sdk options;
     debug := debug options;
     launchArgs := launchArgs options;
     launchEnv := launchEnv options;
     help := help options |}.

Definition setWorkspaceRoot (next : string) (options : CliOptions) : CliOptions :=
  {| command := command options;
     workspaceRoot := Some next;
     xcworkspace := xcworkspace options;
     scheme := scheme options;
     configuration := configuration options;
     destinationId := destinationId options;
     destinationName := destinationName options;
     sdk := sdk options;
     debug := debug options;
     launchArgs := launchArgs options;
     launchEnv := launchEnv options;
     help := help options |}.

Definition setXcworkspace (next : string) (options : CliOptions) : CliOptions :=
  {| command := command options;
     workspaceRoot := workspaceRoot options;
     xcworkspace := Some next;
     scheme := scheme options;
     configuration := configuration options;
     destinationId := destinationId options;
     destinationName := destinationName options;
     sdk := sdk options;
     debug := debug options;
     launchArgs := launchArgs options;
     launchEnv := launchEnv options;
     help := help options |}.

Definition setScheme (next : string) (options : CliOptions) : CliOptions :=
  {| command := command options;
     workspaceRoot := workspaceRoot options;
     xcworkspace := xcworkspace options;
     scheme := Some next;
     configuration := configuration options;
     destinationId := destinationId options;
     destinationName := destinationName options;
     sdk := sdk options;
     debug := debug options;
     launchArgs := launchArgs options;
     launchEnv := launchEnv options;
     help := help options |}.

Definition setConfiguration (next : string) (options : CliOptions) : CliOptions :=
  {| command := command options;
     workspaceRoot := workspaceRoot options;
     xcworkspace := xcworkspace options;
     scheme := scheme options;
     configuration := Some next;
     destinationId := destinationId options;
     destinationName := destinationName options;
     sdk := sdk options;
     debug := debug options;
     launchArgs := launchArgs options;
     launchEnv := launchEnv options;
     help := help options |}.

Definition setDestinationId (next : string) (options : CliOptions) : CliOptions :=
  {| command := command options;
     workspaceRoot := workspaceRoot options;
     xcworkspace := xcworkspace options;
     scheme := scheme options;
     configuration := configuration options;
     destinationId := Some next;
     destinationName := destinationName options;
     sdk := sdk options;
     debug := debug options;
     launchArgs := launchArgs options;
     launchEnv := launchEnv options;
     help := help options |}.

Definition setDestinationName (next : string) (options : CliOptions) : CliOptions :=
  {| command := command options;
     workspaceRoot := workspaceRoot options;
     xcworkspace := xcworkspace options;
     scheme := scheme options;
     configuration := configuration options;
     destinationId := destinationId options;
     destinationName := Some next;
     sdk := sdk options;
     debug := debug options;
     launchArgs := launchArgs options;
     launchEnv := launchEnv options;
     help := help options |}.

Definition setSdk (next : string) (options : CliOptions) : CliOptions :=
  {| command := command options;
     workspaceRoot := workspaceRoot options;
     xcworkspace := xcworkspace options;
     scheme := scheme options;
     configuration := configuration options;
     destinationId := destinationId options;
     destinationName := destinationName options;
     sdk := Some next;
     debug := debug options;
     launchArgs := launchArgs options;
     launchEnv := launchEnv options;
     help := help options |}.

Definition pushLaunchArgs (values : list JSON) (options : CliOptions) : CliOptions :=
  {| command := command options;
     workspaceRoot := workspaceRoot options;
     xcworkspace := xcworkspace options;
     scheme := scheme options;
     configuration := configuration options;
     destinationId := destinationId options;
     destinationName := destinationName options;
     sdk := sdk options;
     debug := debug options;
     launchArgs := launchArgs options ++ values;
     launchEnv := launchEnv options;
     help := help options |}.

Definition assignLaunchEnv (source : gmap string JSON) (options : CliOptions) : CliOptions :=
  {| command := command options;
     workspaceRoot := workspaceRoot options;
     xcworkspace := xcworkspace options;
     scheme := scheme options;
     configuration := configuration options;
     destinationId := destinationId options;
     destinationName := destinationName options;
     sdk := sdk options;
     debug := debug options;
     launchArgs := launchArgs options;
     launchEnv := Object_assign (launchEnv options) source;
     help := help options |}.

Definition truthyOpt (o : option string) : bool :=
  match o with Some s => Js.truthy s | None => false end.

(** The [switch (arg)] of [parseArgs], with [next] the value. *)
Definition store (P : Platform) (arg next : string) (options : CliOptions)
    : Error + CliOptions :=
  if String.eqb arg "--workspace-root" then inr (setWorkspaceRoot next options)
  else if String.eqb arg "--xcworkspace" then inr (setXcworkspace next options)
  else if String.eqb arg "--scheme" then inr (setScheme next options)
  else if String.eqb arg "--configuration" then inr (setConfiguration next options)
  else if String.eqb arg "--destination-id" then inr (setDestinationId next options)
  else if String.eqb arg "--destination" then inr (setDestinationName next options)
  else if String.eqb arg "--sdk" then inr (setSdk next options)
  else if String.eqb arg "--launch-args" then
    match parseListValue P next with
    | inl error => inl error
    | inr values => inr (pushLaunchArgs values options)
    end
  else if String.eqb arg "--launch-env" then
    match parseEnvValue P next with
    | inl error => inl error
    | inr source => inr (assignLaunchEnv source options)
    end
  else inl (ExtensionError ("Unknown argument: " +:+ arg)).

(** The loop of [parseArgs] from position [i], [argv] being the tokens
    from [i] on. *)
Fixpoint parseFrom (P : Platform) (argv : list string) (options : CliOptions)
    : Error + CliOptions :=
  match argv with
  | [] => inr options
  | arg :: rest =>
      if String.eqb arg "--help" || String.eqb arg "-h" then
        parseFrom P rest (setHelp options)
      else if String.eqb arg "--debug" then parseFrom P rest (setDebug options)
      else if negb (Js.startsWith arg "-") && negb (truthyOpt (command options))
      then parseFrom P rest (setCommand arg options)
      else
        match rest with
        | [] => inl (ExtensionError ("Missing value for " +:+ arg))
        | next :: rest' =>
            if negb (Js.truthy next) || Js.startsWith next "-" then
              inl (ExtensionError ("Missing value for " +:+ arg))
            else
              match store P arg next options with
              | inl error => inl error
              | inr options' => parseFrom P rest' options'
              end
        end
  end.

Definition parseArgs (P : Platform) (argv : list string) : Error + CliOptions :=
  parseFrom P argv initial.

(** The fields that the resolution of the decision points reads. *)
Definition resolutionOptions (options : CliOptions) : Cli.CliOptions :=
  {| Cli.xcworkspace := xcworkspace options;
     Cli.scheme := scheme options;
     Cli.configuration := configuration options;
     Cli.destinationId := destinationId options;
     Cli.destinationName := destinationName options |}.

End Args.

(** ** [LineBuffer] (src/cli/terminal.ts) *)

Module Terminal.

(** The line feed, ["\n"] in the source. *)
Definition LF : ascii := ascii_of_nat 10.

(** The fields of [LineBuffer]; what it passes to [callback] is the
    second component of the results below, in call order. *)
Record LineBuffer := {
  buffer : string;
  enabled : bool
}.

(** [new LineBuffer({ enabled, callback })] *)
Definition create (enabled' : bool) : LineBuffer :=
  {| buffer := ""; enabled := enabled' |}.

(** [append(data)]: [lines.pop() ?? ""] becomes the buffer, the other
    pieces go to the callback. *)
Definition append (data : string) (lb : LineBuffer) : LineBuffer * list string :=
  if negb (enabled lb) then (lb, [])
  else
    let lines := Js.split LF (buffer lb +:+ data) in
    ({| buffer := default "" (last lines); enabled := enabled lb |},
     removelast lines).

(** [flush()] *)
Definition flush (lb : LineBuffer) : LineBuffer * list string :=
  if negb (enabled lb) then (lb, [])
  else if Js.truthy (buffer lb) then
    ({| buffer := ""; enabled := enabled lb |}, [buffer lb])
  else (lb, []).

End Terminal.

(** ** Further sample inputs *)

Module MoreSamples.

(** The debug build of the samples with [build.args] overriding the
    configuration and one build setting. *)
Definition overridingBuild : XcodeCommandBuilder.BuildAppInput :=
  {| XcodeCommandBuilder.scheme := "MyApp";
     XcodeCommandBuilder.configuration := "Debug";
     XcodeCommandBuilder.xcworkspace := "/p/MyApp.xcworkspace";
     XcodeCommandBuilder.destinationRaw := "platform=macOS,arch=arm64";
     XcodeCommandBuilder.shouldBuild := true;
     XcodeCommandBuilder.shouldClean := false;
     XcodeCommandBuilder.shouldTest := false;
     XcodeCommandBuilder.debug := true;
     XcodeCommandBuilder.archConfig := Some "arm64";
     XcodeCommandBuilder.allowProvisioningUpdates := true;
     XcodeCommandBuilder.additionalArgs :=
       ["-configuration"; "Release"; "ONLY_ACTIVE_ARCH=NO"];
     XcodeCommandBuilder.bundlePath := "/p/.sweetpad/bundle/MyApp";
     XcodeCommandBuilder.derivedDataPath := None |}.

(** The project of the samples with a user who leaves [fzf] without
    choosing. *)
Definition cancels (prompt : string) (labels : list string) : FzfOutcome :=
  FzfCancelled.

Definition cancellingWorld : World :=
  {| getSchemes := ["MyApp"; "MyAppTests"];
     getBuildConfigurations := ["Debug"; "Staging"; "Release"];
     detectXcodeWorkspacesPaths :=
       ["/p/MyApp.xcworkspace"; "/p/Pods/Pods.xcworkspace"];
     macDestination := Samples.myMac;
     getSimulators := [Samples.iPhone15; Samples.iPhone15Pro; Samples.appleWatch];
     deviceDestinations := [];
     supportedPlatforms := Some ["iphonesimulator"];
     fzf := cancels |}.

(** A Mac without simulators and devices, a scheme that supports the
    iOS simulator only, and a user who leaves [fzf] without choosing: the
    Mac is the only destination and is unsupported. *)
Definition macOnlyWorld : World :=
  {| getSchemes := ["MyApp"; "MyAppTests"];
     getBuildConfigurations := ["Debug"; "Release"];
     detectXcodeWorkspacesPaths := ["/p/MyApp.xcworkspace"];
     macDestination := Samples.myMac;
     getSimulators := [];
     deviceDestinations := [];
     supportedPlatforms := Some ["iphonesimulator"];
     fzf := cancels |}.

(** The remembered destination is the Mac. *)
Definition rememberedMac : gmap string JSON :=
  <["cli.destination.id" := JString "macos-My Mac"]> ∅.

(** A project whose scheme declares no platform: every destination is
    supported. *)
Definition openWorld : World :=
  {| getSchemes := ["MyApp"; "MyAppTests"];
     getBuildConfigurations := ["Debug"; "Release"];
     detectXcodeWorkspacesPaths := ["/p/MyApp.xcworkspace"];
     macDestination := Samples.myMac;
     getSimulators := [Samples.iPhone15; Samples.iPhone15Pro; Samples.appleWatch];
     deviceDestinations := [];
     supportedPlatforms := None;
     fzf := Samples.picksFirst |}.

(** [--destination-id def-456], in another case than the udid has. *)
Definition destinationByUdid : Cli.CliOptions :=
  {| Cli.xcworkspace := None;
     Cli.scheme := None;
     Cli.configuration := None;
     Cli.destinationId := Some " def-456 ";
     Cli.destinationName := None |}.

(** [sweetpad run --xcworkspace MyApp.xcworkspace --scheme MyAppTests
    --destination-id ABC-123] *)
Definition flagsGiven : list string :=
  ["run"; "--xcworkspace"; "MyApp.xcworkspace"; "--scheme"; "MyAppTests";
   "--destination-id"; "ABC-123"].

(** No flag on the command line; the selections that a user who picks
    the first line each time makes in the project with three
    configurations; the file system that the run leaves. *)
Definition noFlags : Cli.CliOptions :=
  {| Cli.xcworkspace := None;
     Cli.scheme := None;
     Cli.configuration := None;
     Cli.destinationId := None;
     Cli.destinationName := None |}.

Definition firstSelections : gmap string JSON :=
  <["cli.xcworkspace" := JString "/p/MyApp.xcworkspace"]>
    (<["cli.scheme" := JString "MyApp"]>
       (<["cli.configuration" := JString "Debug"]>
          (<["cli.destination.id" := JString "iossimulator-DEF-456"]> ∅))).

Definition afterFirstRun : gmap string Node :=
  <["/p/.sweetpad/cli-state.json" :=
      File (JsonText.stringify (State.ofStateMap firstSelections))]> ∅.

End MoreSamples.


(** ** Further reference definitions *)

Module MoreReference.

(** A builder whose flags start with ['-'] and whose actions are
    verbs. *)
Definition wellFormed (b : XcodeCommandBuilder.t) : Prop :=
  (∀ p, p ∈ XcodeCommandBuilder.parameters b →
     Js.startsWith (XcodeCommandBuilder.arg p) "-" = true)
  ∧ (∀ a, a ∈ XcodeCommandBuilder.actions b → a ∈ ["clean"; "build"; "test"]).

(** Workspace paths ordered by depth. *)
Definition shallower (a b : string) : Prop :=
  (Pickers.pathDepth a ≤ Pickers.pathDepth b)%nat.

(** The paths of a given depth. *)
Definition atDepth (n : nat) (paths : list string) : list string :=
  filter (fun p => Pickers.pathDepth p = n) paths.

(** The runtime after [fzfPick] was entered with a prompt. *)
Definition asked (prompt : string) (r : Context.Runtime) : Context.Runtime :=
  snd (Context.logFzf prompt r).

(** Two runtimes with the same selection memory: state, dirty flag and
    the [setRememberedValue] calls made. *)
Definition sameMemory (r r' : Context.Runtime) : Prop :=
  Context.persistentState r' = Context.persistentState r
  ∧ Context.stateDirty r' = Context.stateDirty r
  ∧ Context.rememberLog r' = Context.rememberLog r.

(** The runtime after an interactive choice was remembered under a
    key. *)
Definition remembering (key : string) (value : JSON) (r : Context.Runtime)
    : Context.Runtime :=
  snd (Context.setRememberedValue key value r).

(** How a smart picker can end: it returns an available option and
    leaves the runtime as it was; or it throws with the memory as it
    was; or it returns an available option that the plain picker gave
    and has remembered exactly that option under its key. *)
Definition smartOutcome {A : Type} (key : string) (toJson : A → JSON)
    (available : A → Prop) (r : Context.Runtime)
    (result : (Error + A) * Context.Runtime) : Prop :=
  (∃ a, result = (inr a, r) ∧ available a)
  ∨ (∃ e r1, result = (inl e, r1) ∧ sameMemory r r1)
  ∨ (∃ a r1, result = (inr a, remembering key (toJson a) r1)
             ∧ available a ∧ sameMemory r r1).

(** The flags of [parseArgs] that take a value, each with the field
    that receives it. *)
Definition valueFlags : list (string * (Args.CliOptions → option string)) :=
  [ ("--workspace-root", Args.workspaceRoot);
    ("--xcworkspace", Args.xcworkspace);
    ("--scheme", Args.scheme);
    ("--configuration", Args.configuration);
    ("--destination-id", Args.destinationId);
    ("--destination", Args.destinationName);
    ("--sdk", Args.sdk) ].

(** [value] comes right after [flag] somewhere in [argv]. *)
Definition follows (flag value : string) (argv : list string) : Prop :=
  ∃ before after, argv = before ++ flag :: value :: after.

(** What [parseArgs] has stored after the tokens [argv]. *)
Definition storedFrom (argv : list string) (options : Args.CliOptions) : Prop :=
  (∀ flag field value,
     (flag, field) ∈ valueFlags → field options = Some value →
     value ≠ "" ∧ Js.startsWith value "-" = false ∧ follows flag value argv)
  ∧ (∀ name, Args.command options = Some name →
       Js.startsWith name "-" = false ∧ name ∈ argv).

(** The flags that take no value. *)
Definition switches : list string := ["--help"; "-h"; "--debug"].

(** [KEY=VALUE], and a list of them as the text of [--launch-env]. *)
Definition pairText (pair : string * string) : string :=
  pair.1 +:+ "=" +:+ pair.2.

Definition envText (pairs : list (string * string)) : string :=
  JsonText.join "," (map pairText pairs).

(** The object with each key bound to the last value given for it. *)
Definition envObject (pairs : list (string * string)) : gmap string JSON :=
  list_to_map (reverse (map (fun pair => (pair.1, JString pair.2)) pairs)).

(** A text that [trim] leaves alone and that has no comma. *)
Definition plain (s : string) : Prop :=
  Js.trim s = s ∧ Js.includes s "," = false.

(** A key that the plain form of [--launch-env] can carry. *)
Definition plainKey (key : string) : Prop :=
  key ≠ "" ∧ key ≠ "__proto__" ∧ plain key
  ∧ Js.includes key "=" = false ∧ Js.startsWith key "{" = false.

(** An element that the plain form of [--launch-args] can carry. *)
Definition plainItem (item : string) : Prop :=
  item ≠ "" ∧ plain item ∧ Js.startsWith item "[" = false.

(** The lines that [pickDestination] hands to [fzfPick], each with its
    destination: the supported destinations, then the unsupported ones
    with their mark. *)
Definition destinationItems (W : World) : list (string * Destination) :=
  map (fun d => (Pickers.formatDestinationLabel d, d))
      (splitSupportedDestinatinos (listDestinations W) (supportedPlatforms W)).1
  ++ map (fun d => (Pickers.formatDestinationLabel d +:+ " [unsupported]", d))
         (splitSupportedDestinatinos (listDestinations W) (supportedPlatforms W)).2.

(** What one decision point may do to selection memory: nothing, or
    one write under [key]. *)
Definition writesUnder (key : string) (r r' : Context.Runtime) : Prop :=
  (Context.persistentState r' = Context.persistentState r
   ∧ Context.stateDirty r' = Context.stateDirty r)
  ∨ (∃ v, Context.persistentState r' = <[key := v]> (Context.persistentState r)
          ∧ Context.stateDirty r' = true).

(** The supported destinations of a world. *)
Definition supportedDestinations (W : World) : list Destination :=
  (splitSupportedDestinatinos (listDestinations W) (supportedPlatforms W)).1.

(** A sequence of [append] calls, with all that reached the callback. *)
Fixpoint appendAll (chunks : list string) (lb : Terminal.LineBuffer)
    : Terminal.LineBuffer * list string :=
  match chunks with
  | [] => (lb, [])
  | chunk :: chunks' =>
      let '(lb1, lines1) := Terminal.append chunk lb in
      let '(lb2, lines2) := appendAll chunks' lb1 in
      (lb2, lines1 ++ lines2)
  end.

(** The chunks one after the other: [chunks.join("")]. *)
Fixpoint concatStrings (chunks : list string) : string :=
  match chunks with
  | [] => ""
  | chunk :: chunks' => chunk +:+ concatStrings chunks'
  end.

(** Every line followed by a line feed. *)
Fixpoint terminated (lines : list string) : string :=
  match lines with
  | [] => ""
  | line :: lines' => line +:+ String Terminal.LF (terminated lines')
  end.

End MoreReference.

(** ** One run of the CLI up to the build (src/cli/index.ts, [run]) *)

Module Run.
Import Context.

(** The part of [run] from [CliRuntimeContext.create] to
    [runtime.savePersistentState()], for the storage path that
    [resolveStoragePath] gives: the four resolved values, the file
    system and the runtime that the build starts from. *)
Definition selections (P : Platform) (W : World) (fs : gmap string Node)
    (storagePath : string) (options : Cli.CliOptions) (workspacePath : string)
    (config : gmap string JSON)
    : Error + ((string * string * JSON * Destination)
               * gmap string Node * Runtime) :=
  match create P fs storagePath with
  | inl error => inl error
  | inr runtime =>
      match Cli.resolveAll P W options workspacePath config runtime with
      | (inl error, _) => inl error
      | (inr resolved, runtime1) =>
          match savePersistentState P fs storagePath runtime1 with
          | inl error => inl error
          | inr (fs1, runtime2) => inr (resolved, fs1, runtime2)
          end
      end
  end.

End Run.

(** * Properties *)

(** ** Deduplication and the command builder *)

Module BuilderFacts.
Import XcodeCommandBuilder Reference.

Lemma elem_of_rev {B : Type} (x : B) (l : list B) : x ∈ rev l ↔ x ∈ l.
Proof. rewrite !list_elem_of_In. symmetry. apply in_rev. Qed.

Lemma filter_all {B : Type} (P : B → Prop) `{!∀ x, Decision (P x)} (l : list B) :
  (∀ x, x ∈ l → P x) → filter P l = l.
Proof.
  induction l as [|x l IH]; intros Hall; [done|].
  rewrite filter_cons_True by (apply Hall; left).
  f_equal. apply IH. intros y Hy. apply Hall. by right.
Qed.

Lemma filter_none {B : Type} (P : B → Prop) `{!∀ x, Decision (P x)} (l : list B) :
  (∀ x, x ∈ l → ¬ P x) → filter P l = [].
Proof.
  induction l as [|x l IH]; intros Hall; [done|].
  rewrite filter_cons_False by (apply Hall; left).
  apply IH. intros y Hy. apply Hall. by right.
Qed.

Section Dedup.
Context {A : Type} (k : A → string).

Lemma filterSeen_app (seen : gset string) (l1 l2 : list A) :
  filterSeen k seen (l1 ++ l2)
  = filterSeen k seen l1 ++ filterSeen k (list_to_set (map k l1) ∪ seen) l2.
Proof.
  revert seen. induction l1 as [|x l1 IH]; intros seen; simpl.
  - by rewrite (left_id_L ∅ (∪)).
  - destruct (decide (k x ∈ seen)) as [Hin|Hout].
    + rewrite IH. do 2 f_equal.
      apply set_eq. intros y.
      rewrite !elem_of_union, !elem_of_list_to_set, elem_of_singleton.
      split; [tauto|]. intros [[->|?]|?]; tauto.
    + rewrite IH. simpl. do 3 f_equal.
      apply set_eq. intros y.
      rewrite !elem_of_union, !elem_of_list_to_set, elem_of_singleton.
      tauto.
Qed.

Lemma keepLast_keys (l : list A) (y : string) :
  y ∈ map k (keepLast k l) ↔ y ∈ map k l.
Proof.
  induction l as [|x l IH]; simpl; [done|].
  case_bool_decide as Hx; simpl; rewrite ?elem_of_cons, IH.
  - split; [tauto|]. intros [->|?]; tauto.
  - tauto.
Qed.

Lemma keepLast_NoDup (l : list A) : NoDup (map k (keepLast k l)).
Proof.
  induction l as [|x l IH]; simpl; [constructor|].
  case_bool_decide as Hx; simpl; [done|].
  constructor; [|done]. by rewrite keepLast_keys.
Qed.

Lemma keepLast_app (l1 l2 : list A) :
  keepLast k (l1 ++ l2)
  = filter (fun x => k x ∉ map k l2) (keepLast k l1) ++ keepLast k l2.
Proof.
  induction l1 as [|x l1 IH]; simpl; [done|].
  rewrite map_app.
  case_bool_decide as Hx; case_bool_decide as Hx1;
    rewrite elem_of_app in Hx.
  - done.
  - rewrite filter_cons_False; [done|]. intros Hn. apply Hn. tauto.
  - tauto.
  - rewrite filter_cons_True; [|tauto]. simpl. by rewrite IH.
Qed.

Lemma filterSeen_rev (seen : gset string) (l : list A) :
  rev (filterSeen k seen (rev l))
  = filter (fun x => k x ∉ seen) (keepLast k l).
Proof.
  induction l as [|x l IH]; simpl; [done|].
  rewrite filterSeen_app, rev_app_distr, IH. simpl.
  assert (Hmem : k x ∈ list_to_set (map k (rev l)) ∪ seen
                 ↔ k x ∈ map k l ∨ k x ∈ seen).
  { by rewrite elem_of_union, elem_of_list_to_set, map_rev, elem_of_rev. }
  destruct (decide (k x ∈ list_to_set (map k (rev l)) ∪ seen)) as [Hin|Hout];
    case_bool_decide as Hx; simpl.
  - done.
  - rewrite filter_cons_False; [done|]. intros Hn. apply Hn.
    apply Hmem in Hin. tauto.
  - exfalso. apply Hout, Hmem. tauto.
  - rewrite filter_cons_True; [done|]. intros Hs. apply Hout, Hmem. tauto.
Qed.

(** The reverse, filter, reverse pipeline keeps the last entry of
    every key. *)
Lemma dedupReversed_keepLast (l : list A) :
  dedupReversed k l = keepLast k l.
Proof.
  unfold dedupReversed. rewrite filterSeen_rev.
  apply filter_all. intros x _. apply not_elem_of_empty.
Qed.

(** The forward filter keeps the first entry of every key. *)
Lemma filterSeen_keepFirst (l : list A) :
  filterSeen k ∅ l = keepFirst k l.
Proof.
  unfold keepFirst. rewrite <- (rev_involutive l) at 1.
  rewrite <- (rev_involutive (filterSeen k ∅ (rev (rev l)))).
  f_equal. rewrite filterSeen_rev.
  apply filter_all. intros x _. apply not_elem_of_empty.
Qed.

Lemma withKey_absent (key : string) (l : list A) :
  key ∉ map k l → withKey k key l = [].
Proof.
  unfold withKey. induction l as [|x l IH]; simpl; [done|].
  rewrite not_elem_of_cons. intros [Hne Hl].
  rewrite filter_cons_False; [auto|congruence].
Qed.

Lemma last_declaration (l : list A) (key : string) :
  key ∈ map k l →
  ∃ pre s post, l = pre ++ s :: post ∧ k s = key ∧ key ∉ map k post.
Proof.
  induction l as [|x l IH]; simpl; [by rewrite elem_of_nil|].
  intros Hin. destruct (decide (key ∈ map k l)) as [Hl|Hl].
  - destruct (IH Hl) as (pre & s & post & -> & Hs & Hpost).
    by exists (x :: pre), s, post.
  - apply elem_of_cons in Hin as [->|?]; [|done].
    by exists [], x, l.
Qed.

Lemma first_declaration (l : list A) (key : string) :
  key ∈ map k l →
  ∃ pre s post, l = pre ++ s :: post ∧ k s = key ∧ key ∉ map k pre.
Proof.
  induction l as [|x l IH]; simpl; [by rewrite elem_of_nil|].
  intros Hin. destruct (decide (k x = key)) as [Hx|Hx].
  - exists [], x, l. split_and!; [done..|apply not_elem_of_nil].
  - apply elem_of_cons in Hin as [?|Hl]; [done|].
    destruct (IH Hl) as (pre & s & post & -> & Hs & Hpre).
    exists (x :: pre), s, post. split_and!; [done..|].
    simpl. rewrite not_elem_of_cons. by split.
Qed.

(** Around its last declaration: the key survives once, with that
    entry, followed by exactly the survivors of what was declared
    after it. *)
Lemma keepLast_at_last (pre post : list A) (s : A) :
  k s ∉ map k post →
  withKey k (k s) (keepLast k (pre ++ s :: post)) = [s]
  ∧ keepLast k (pre ++ s :: post)
    = filter (fun x => k x ∉ map k (s :: post)) (keepLast k pre)
      ++ s :: keepLast k post.
Proof.
  intros Hpost. rewrite keepLast_app.
  assert (Hs : keepLast k (s :: post) = s :: keepLast k post).
  { simpl. by rewrite bool_decide_false. }
  rewrite Hs. split; [|done].
  unfold withKey. rewrite filter_app.
  rewrite (filter_cons_True _ s) by done.
  fold (withKey k (k s) (keepLast k post)).
  rewrite (withKey_absent _ (keepLast k post)) by (by rewrite keepLast_keys).
  rewrite filter_none; [done|].
  intros x [Hx _]%list_elem_of_filter Hk.
  apply Hx. simpl. rewrite Hk. left.
Qed.


Lemma keepLast_subset (l : list A) (x : A) : x ∈ keepLast k l → x ∈ l.
Proof.
  induction l as [|y l IH]; simpl; [done|].
  case_bool_decide; rewrite ?elem_of_cons; [by right; apply IH|].
  intros [->|?]; [by left|right; by apply IH].
Qed.

Lemma withKey_rev (key : string) (l : list A) :
  withKey k key (rev l) = rev (withKey k key l).
Proof.
  unfold withKey. induction l as [|x l IH]; simpl; [done|].
  rewrite filter_app, IH.
  destruct (decide (k x = key)) as [Hx|Hx].
  - by rewrite !(filter_cons_True _ x) by done.
  - rewrite !(filter_cons_False _ x) by done. simpl. by rewrite app_nil_r.
Qed.

Lemma keepFirst_NoDup (l : list A) : NoDup (map k (keepFirst k l)).
Proof.
  unfold keepFirst. rewrite map_rev.
  apply NoDup_ListNoDup, List.NoDup_rev, NoDup_ListNoDup, keepLast_NoDup.
Qed.

(** A declared key survives the reverse, filter, reverse pipeline
    once, with its last declaration, at the place of that
    declaration. *)
Lemma survivor_of_last (l : list A) (key : string) :
  key ∈ map k l →
  ∃ pre s post,
    l = pre ++ s :: post ∧ k s = key ∧ (key ∉ map k post)
    ∧ withKey k key (keepLast k l) = [s]
    ∧ ∃ before,
        keepLast k l = before ++ s :: keepLast k post
        ∧ ∀ x, x ∈ before → x ∈ pre.
Proof.
  intros (pre & s & post & -> & <- & Hpost)%last_declaration.
  destruct (keepLast_at_last pre post s Hpost) as [Honce Hplace].
  exists pre, s, post. split_and!; [done..|].
  eexists. split; [exact Hplace|].
  intros x [_ Hx]%list_elem_of_filter. by apply keepLast_subset.
Qed.

(** A declared key survives the forward filter once, with its first
    declaration, at the place of that declaration. *)
Lemma survivor_of_first (l : list A) (key : string) :
  key ∈ map k l →
  ∃ pre s post,
    l = pre ++ s :: post ∧ k s = key ∧ (key ∉ map k pre)
    ∧ withKey k key (keepFirst k l) = [s]
    ∧ ∃ after,
        keepFirst k l = keepFirst k pre ++ s :: after
        ∧ ∀ x, x ∈ after → x ∈ post.
Proof.
  intros (pre & s & post & -> & <- & Hpre)%first_declaration.
  assert (Hrev : rev (pre ++ s :: post) = rev post ++ s :: rev pre).
  { rewrite rev_app_distr. simpl. by rewrite <- app_assoc. }
  assert (Hpre' : k s ∉ map k (rev pre)) by by rewrite map_rev, elem_of_rev.
  destruct (keepLast_at_last (rev post) (rev pre) s Hpre') as [Honce Hplace].
  exists pre, s, post. split_and!; [done..| |].
  - unfold keepFirst. by rewrite withKey_rev, Hrev, Honce.
  - unfold keepFirst. rewrite Hrev, Hplace, rev_app_distr. simpl.
    rewrite <- app_assoc. simpl. eexists. split; [done|].
    intros x [_ Hx%keepLast_subset]%elem_of_rev%list_elem_of_filter.
    by apply elem_of_rev.
Qed.

End Dedup.

Lemma declareAfter_empty (b : t) : declareAfter b empty = b.
Proof. destruct b. unfold declareAfter. simpl. by rewrite !app_nil_r. Qed.

Lemma declareAfter_assoc (a b c : t) :
  declareAfter (declareAfter a b) c = declareAfter a (declareAfter b c).
Proof. unfold declareAfter. simpl. by rewrite !app_assoc. Qed.

Lemma pushParameter_declareAfter (p : Param) (b : t) :
  pushParameter p b = declareAfter b (pushParameter p empty).
Proof. unfold pushParameter, declareAfter. simpl. by rewrite !app_nil_r. Qed.

Lemma pushBuildSetting_declareAfter (s : BuildSetting) (b : t) :
  pushBuildSetting s b = declareAfter b (pushBuildSetting s empty).
Proof. unfold pushBuildSetting, declareAfter. simpl. by rewrite !app_nil_r. Qed.

Lemma pushAction_declareAfter (a : string) (b : t) :
  pushAction a b = declareAfter b (pushAction a empty).
Proof. unfold pushAction, declareAfter. simpl. by rewrite !app_nil_r. Qed.

Lemma classifySingle_declareAfter (current : string) (b : t) :
  classifySingle current b
  = (declareAfter b (fst (classifySingle current empty)),
     snd (classifySingle current empty)).
Proof.
  unfold classifySingle.
  destruct (Js.startsWith current "-"); simpl;
    [by rewrite pushParameter_declareAfter|].
  destruct (Js.includes current "="); simpl;
    [by rewrite pushBuildSetting_declareAfter|].
  destruct (Js.arrayIncludes _ current); simpl;
    [by rewrite pushAction_declareAfter|].
  by rewrite declareAfter_empty.
Qed.

Lemma scanArgs_two (current next : string) (rest : list string) (b : t) :
  scanArgs (current :: next :: rest) b
  = if isPair current next then
      scanArgs rest (pushParameter {| arg := current; value := next |} b)
    else
      let '(b1, w1) := classifySingle current b in
      let '(b2, w2) := scanArgs (next :: rest) b1 in
      (b2, w1 ++ w2).
Proof. reflexivity. Qed.

(** The scan only appends: what was declared before stays in front, in
    its order, and what the tokens declare does not depend on it. *)
Lemma scanArgs_declareAfter (args : list string) (b : t) :
  scanArgs args b = (declareAfter b (parsed args), snd (scanArgs args empty)).
Proof.
  unfold parsed. revert b.
  induction args as [args IH] using (induction_ltof1 _ (@length string)).
  unfold ltof in IH. intros b.
  destruct args as [|current [|next rest]].
  - simpl. by rewrite declareAfter_empty.
  - simpl. rewrite (classifySingle_declareAfter current b).
    by destruct (classifySingle current empty) as [b1 w1].
  - assert (Hrest : length rest < length (current :: next :: rest))
      by (simpl; lia).
    assert (Hnext : length (next :: rest) < length (current :: next :: rest))
      by (simpl; lia).
    rewrite !scanArgs_two. destruct (isPair current next).
    + rewrite (IH rest Hrest (pushParameter _ b)).
      rewrite (IH rest Hrest (pushParameter _ empty)). simpl.
      by rewrite pushParameter_declareAfter, declareAfter_assoc.
    + rewrite (classifySingle_declareAfter current b).
      destruct (classifySingle current empty) as [b1 w1].
      cbn [fst snd].
      rewrite (IH (next :: rest) Hnext (declareAfter b b1)).
      rewrite (IH (next :: rest) Hnext b1).
      cbn [fst snd].
      by rewrite declareAfter_assoc.
Qed.

Lemma addAdditionalArgs_nonempty (args : list string) (b : t) :
  args ≠ [] →
  addAdditionalArgs args b = dedup (declareAfter b (parsed args)).
Proof.
  intros Hne. unfold addAdditionalArgs, addAdditionalArgsLog.
  destruct args as [|a args]; [done|].
  by rewrite scanArgs_declareAfter.
Qed.

Lemma dedup_classes (b : t) :
  dedup b = {| parameters := keepLast arg (parameters b);
               buildSettings := keepLast key (buildSettings b);
               actions := keepFirst Datatypes.id (actions b) |}.
Proof.
  unfold dedup.
  by rewrite !dedupReversed_keepLast, filterSeen_keepFirst.
Qed.

(** *** The scan on small inputs *)

Example flag_takes_next_token_as_value :
  addAdditionalArgs ["-quiet"; "ARCHS=arm64"; "clean"] empty
  = {| parameters := [ {| arg := "-quiet"; value := "ARCHS=arm64" |} ];
       buildSettings := [];
       actions := ["clean"] |}.
Proof. vm_compute. reflexivity. Qed.

Example three_classes_in_order :
  build (addAdditionalArgs ["clean"; "-sdk"; "macosx"; "ARCHS=arm64"; "-quiet"] empty)
  = ["xcodebuild"; "ARCHS=arm64"; "-sdk"; "macosx"; "-quiet"; "clean"].
Proof. vm_compute. reflexivity. Qed.

Example unknown_token_warned_and_dropped :
  addAdditionalArgsLog ["???"] empty = (empty, ["???"])
  ∧ build (addAdditionalArgs ["???"] empty) = ["xcodebuild"].
Proof. split; vm_compute; reflexivity. Qed.

(** *** Re-declaration (claims C1 and C5) *)

(** C1, as the code has it.  After declarations into the builder and
    the merge of a non-empty list of additional tokens, a build-setting
    key or parameter flag that was declared (by the caller or by a
    token) is kept exactly once, with the entry of its LAST declaration
    and at the place of that last declaration: what follows it are
    exactly the survivors of the later declarations.  An action verb is
    kept once at the place of its FIRST declaration.  The argument
    vector lists the three classes in this order. *)
Theorem redeclared_key_once_last_value_last_place (b : t) (args : list string) :
  args ≠ [] →
  let merged := declareAfter b (parsed args) in
  let built := addAdditionalArgs args b in
  (∀ k, k ∈ map key (buildSettings merged) →
     ∃ pre s post,
       buildSettings merged = pre ++ s :: post ∧ key s = k
       ∧ (k ∉ map key post)
       ∧ withKey key k (buildSettings built) = [s]
       ∧ ∃ before,
           buildSettings built = before ++ s :: keepLast key post
           ∧ ∀ x, x ∈ before → x ∈ pre)
  ∧ (∀ a, a ∈ map arg (parameters merged) →
     ∃ pre p post,
       parameters merged = pre ++ p :: post ∧ arg p = a
       ∧ (a ∉ map arg post)
       ∧ withKey arg a (parameters built) = [p]
       ∧ ∃ before,
           parameters built = before ++ p :: keepLast arg post
           ∧ ∀ x, x ∈ before → x ∈ pre)
  ∧ (∀ v, v ∈ actions merged →
     ∃ pre post,
       actions merged = pre ++ v :: post ∧ (v ∉ pre)
       ∧ withKey Datatypes.id v (actions built) = [v]
       ∧ ∃ after,
           actions built = keepFirst Datatypes.id pre ++ v :: after
           ∧ ∀ x, x ∈ after → x ∈ post)
  ∧ build built
    = [xcodebuild]
        ++ map renderSetting (keepLast key (buildSettings merged))
        ++ concat (map renderParameter (keepLast arg (parameters merged)))
        ++ keepFirst Datatypes.id (actions merged).
Proof.
  intros Hne merged built.
  assert (Hbuilt : built = dedup merged)
    by (by apply addAdditionalArgs_nonempty).
  rewrite dedup_classes in Hbuilt. rewrite Hbuilt. simpl.
  split_and!.
  - intros k Hk. by apply survivor_of_last.
  - intros a Ha. by apply survivor_of_last.
  - intros v Hv.
    assert (Hv' : v ∈ map Datatypes.id (actions merged))
      by (by rewrite map_id).
    destruct (survivor_of_first Datatypes.id _ _ Hv')
      as (pre & s & post & Hl & Hs & Hpre & Honce & Hplace).
    unfold Datatypes.id in Hs. subst s. rewrite map_id in Hpre.
    by exists pre, post.
  - reflexivity.
Qed.

Lemma addAdditionalArgs_empty (b : t) : addAdditionalArgs [] b = b.
Proof. reflexivity. Qed.

(** C5, as the code has it.  When the additional-args list is not
    empty, every build-setting key, parameter flag and action verb
    occurs at most once in its class after [addAdditionalArgs]. *)
Theorem keys_unique_after_nonempty_merge (b : t) (args : list string) :
  args ≠ [] →
  NoDup (map key (buildSettings (addAdditionalArgs args b)))
  ∧ NoDup (map arg (parameters (addAdditionalArgs args b)))
  ∧ NoDup (actions (addAdditionalArgs args b)).
Proof.
  intros Hne. rewrite addAdditionalArgs_nonempty, dedup_classes by done.
  simpl. split_and!; [apply keepLast_NoDup..|].
  rewrite <- (map_id (keepFirst _ _)). apply keepFirst_NoDup.
Qed.

(** C8 at the token ["KEY=a=b"]: the value kept is the text between
    the first and the second ['='], not the whole text after the
    first. *)
Theorem setting_value_cut_at_second_equals :
  addAdditionalArgs ["KEY=a=b"] empty
  = {| parameters := [];
       buildSettings := [ {| key := "KEY"; setting := "a" |} ];
       actions := [] |}
  ∧ build (addAdditionalArgs ["KEY=a=b"] empty) = ["xcodebuild"; "KEY=a"].
Proof. split; vm_compute; reflexivity. Qed.

(** Witness for C1: the debug build with an architecture override and
    [build.args = ["-quiet"]]. *)
Lemma redeclared_key_witness :
  ["-quiet"] ≠ []
  ∧ ∃ pre s post,
      buildSettings (declareAfter (buildAppDeclared Samples.debugArchBuildQuiet)
                                  (parsed ["-quiet"]))
      = pre ++ s :: post
      ∧ key s = "ONLY_ACTIVE_ARCH"
      ∧ withKey key "ONLY_ACTIVE_ARCH"
          (buildSettings (buildAppCommand Samples.debugArchBuildQuiet))
        = [s].
Proof.
  assert (Hne : ["-quiet"] ≠ []) by discriminate.
  split; [exact Hne|].
  destruct (redeclared_key_once_last_value_last_place
              (buildAppDeclared Samples.debugArchBuildQuiet) ["-quiet"] Hne)
    as (Hsettings & _).
  assert (Hdeclared :
    "ONLY_ACTIVE_ARCH"
    ∈ map key (buildSettings
                 (declareAfter (buildAppDeclared Samples.debugArchBuildQuiet)
                               (parsed ["-quiet"])))).
  { vm_compute. do 2 right. left. }
  destruct (Hsettings "ONLY_ACTIVE_ARCH" Hdeclared)
    as (pre & s & post & Hsplit & Hkey & _ & Honce & _).
  exists pre, s, post. split_and!; [exact Hsplit|exact Hkey|exact Honce].
Defined.

(** Counterexample to C1 as stated: in that build ONLY_ACTIVE_ARCH is
    declared third (NO) and fifth (YES); the argument vector has it
    after GCC_GENERATE_DEBUGGING_SYMBOLS, at the place of the last
    declaration, where the first-place reading puts it before. *)
Lemma redeclared_key_not_at_first_place :
  let merged :=
    declareAfter (buildAppDeclared Samples.debugArchBuildQuiet) (parsed ["-quiet"]) in
  map renderSetting (buildSettings (buildAppCommand Samples.debugArchBuildQuiet))
  = ["ARCHS=arm64"; "VALID_ARCHS=arm64";
     "GCC_GENERATE_DEBUGGING_SYMBOLS=YES"; "ONLY_ACTIVE_ARCH=YES"]
  ∧ map renderSetting (firstPlaceLastValue key ∅ (buildSettings merged))
    = ["ARCHS=arm64"; "VALID_ARCHS=arm64";
       "ONLY_ACTIVE_ARCH=YES"; "GCC_GENERATE_DEBUGGING_SYMBOLS=YES"]
  ∧ buildSettings (buildAppCommand Samples.debugArchBuildQuiet)
    ≠ firstPlaceLastValue key ∅ (buildSettings merged).
Proof.
  split_and!.
  - vm_compute. reflexivity.
  - vm_compute. reflexivity.
  - intros Heq. apply (f_equal (map renderSetting)) in Heq.
    vm_compute in Heq. discriminate Heq.
Qed.

(** Witness for C5: the debug build with an architecture override and
    [build.args = ["-quiet"]]. *)
Lemma keys_unique_witness :
  ["-quiet"] ≠ []
  ∧ NoDup (map key (buildSettings (buildAppCommand Samples.debugArchBuildQuiet)))
  ∧ NoDup (map arg (parameters (buildAppCommand Samples.debugArchBuildQuiet)))
  ∧ NoDup (actions (buildAppCommand Samples.debugArchBuildQuiet)).
Proof.
  assert (Hne : ["-quiet"] ≠ []) by discriminate.
  split; [exact Hne|].
  exact (keys_unique_after_nonempty_merge
           (buildAppDeclared Samples.debugArchBuildQuiet) ["-quiet"] Hne).
Defined.

(** Counterexample to C5 as stated: with no additional arguments the
    debug build with an architecture override keeps both declarations
    of ONLY_ACTIVE_ARCH. *)
Lemma duplicate_setting_without_additional_args :
  buildAppCommandParts Samples.debugArchBuild
  = ["xcodebuild"; "ARCHS=arm64"; "VALID_ARCHS=arm64"; "ONLY_ACTIVE_ARCH=NO";
     "GCC_GENERATE_DEBUGGING_SYMBOLS=YES"; "ONLY_ACTIVE_ARCH=YES";
     "-scheme"; "MyApp"; "-configuration"; "Debug";
     "-workspace"; "/p/MyApp.xcworkspace";
     "-destination"; "platform=macOS,arch=arm64";
     "-resultBundlePath"; "/p/.sweetpad/bundle/MyApp";
     "-allowProvisioningUpdates"; "build"]
  ∧ ¬ NoDup (map key (buildSettings (buildAppCommand Samples.debugArchBuild))).
Proof.
  split.
  - vm_compute. reflexivity.
  - intros Hnd. vm_compute in Hnd.
    apply NoDup_cons in Hnd as [_ Hnd].
    apply NoDup_cons in Hnd as [_ Hnd].
    apply NoDup_cons in Hnd as [Hin _].
    apply Hin. right. left.
Qed.

End BuilderFacts.

(** ** Selection memory *)

Module StateFacts.
Import State Reference.

Lemma asStateMap_ofStateMap (state : gmap string JSON) :
  asStateMap (ofStateMap state) = state.
Proof.
  unfold asStateMap, ofStateMap.
  rewrite <- (list_to_map_to_list state) at 2.
  apply list_to_map_proper; [|apply reverse_Permutation].
  rewrite fmap_reverse, reverse_Permutation. apply NoDup_fst_map_to_list.
Qed.

Lemma readFile_after_writeFile (fs fs' : gmap string Node) (path content : string) :
  Fs.writeFile fs path content = inr fs' →
  Fs.readFile fs' path = inr content.
Proof.
  unfold Fs.writeFile, Fs.readFile. intros Hw.
  assert (fs' = <[path := File content]> fs) as ->.
  { destruct (fs !! path) as [[?|?]|]; congruence. }
  by rewrite lookup_insert_eq.
Qed.

Lemma loadState_after_saveState (P : Platform) (fs fs' : gmap string Node)
    (dir : string) (state : gmap string JSON) :
  JSON_parse P (JSON_stringify P (ofStateMap state)) = Some (ofStateMap state) →
  saveState P fs dir state = inr fs' →
  loadState P fs' dir = inr state.
Proof.
  intros Hjson. unfold saveState, loadState.
  destruct (Fs.mkdirRecursive fs _) as [e|fs1]; [done|].
  intros Hw%readFile_after_writeFile. rewrite Hw, Hjson.
  by rewrite asStateMap_ofStateMap.
Qed.

(** C6.  Take any state map and any sequence of [setRememberedValue]
    calls, and let [state'] be the map they produce.  If the platform's
    JSON round-trips [state'] (its values are JSON-compatible), then every
    successful [saveState] of [state'] is followed by a [loadState] that
    returns [state'], and [saveState] does succeed when the storage
    directory is not a file and the state file is not a failing node. *)
Theorem set_save_load_roundtrip (P : Platform) (fs : gmap string Node)
    (dir : string) (state : gmap string JSON) (sets : list (string * JSON)) :
  let state' := setAll state sets in
  let statePath := path_join P dir STATE_FILE in
  JSON_parse P (JSON_stringify P (ofStateMap state')) = Some (ofStateMap state') →
  (∀ fs', saveState P fs dir state' = inr fs' → loadState P fs' dir = inr state')
  ∧ (fs !! path_dirname P statePath = None →
     (∀ code, fs !! statePath ≠ Some (Failing code)) →
     ∃ fs', saveState P fs dir state' = inr fs'
            ∧ loadState P fs' dir = inr state').
Proof.
  intros state' statePath Hjson. split.
  - intros fs'. by apply loadState_after_saveState.
  - intros Hdir Hfile.
    assert (Hsave : ∃ fs', saveState P fs dir state' = inr fs').
    { unfold saveState, Fs.mkdirRecursive, Fs.writeFile.
      fold statePath. rewrite Hdir.
      destruct (fs !! statePath) as [[content|code]|] eqn:Hnode; eauto.
      by destruct (Hfile code). }
    destruct Hsave as [fs' Hsave]. exists fs'. split; [done|].
    by apply (loadState_after_saveState P fs).
Qed.

(** Witness for C6: three selections on top of a remembered scheme,
    saved into an empty file system and loaded back. *)
Lemma set_save_load_witness :
  ∃ fs', saveState Posix.platform ∅ Samples.storagePath
           (setAll Samples.rememberedScheme Samples.laterSelections) = inr fs'
         ∧ loadState Posix.platform fs' Samples.storagePath
           = inr (setAll Samples.rememberedScheme Samples.laterSelections).
Proof.
  apply (set_save_load_roundtrip Posix.platform ∅ Samples.storagePath
           Samples.rememberedScheme Samples.laterSelections).
  - vm_compute. reflexivity.
  - vm_compute. reflexivity.
  - intros code. vm_compute. discriminate.
Defined.

(** C7.  [loadState] returns the empty map when reading the state file
    fails with ENOENT; when reading fails with any other error that
    error is thrown, and when the content does not parse the
    [SyntaxError] is thrown; neither is the empty-map result.
    [CliRuntimeContext.create] lets both through. *)
Theorem loadState_absent_empty_else_throws (P : Platform) (fs : gmap string Node)
    (dir : string) :
  let statePath := path_join P dir STATE_FILE in
  (fs !! statePath = None → loadState P fs dir = inr ∅)
  ∧ (∀ error, Fs.readFile fs statePath = inl error →
       errorCode error ≠ Some "ENOENT" →
       loadState P fs dir = inl error
       ∧ Context.create P fs dir = inl error)
  ∧ (∀ content, Fs.readFile fs statePath = inr content →
       JSON_parse P content = None →
       loadState P fs dir = inl SyntaxError
       ∧ Context.create P fs dir = inl SyntaxError).
Proof.
  intros statePath. unfold Context.create, loadState. fold statePath.
  split_and!.
  - intros Hnone. unfold Fs.readFile. by rewrite Hnone.
  - intros error -> Hcode. unfold loadStateCatch.
    by rewrite bool_decide_false.
  - intros content -> ->. done.
Qed.

(** Witness for C7: an absent, an unreadable and a corrupt state file. *)
Lemma loadState_witness :
  loadState Posix.platform ∅ Samples.storagePath = inr ∅
  ∧ loadState Posix.platform Samples.lockedStorage Samples.storagePath
    = inl (ErrnoException "EACCES")
  ∧ loadState Posix.platform Samples.corruptStorage Samples.storagePath
    = inl SyntaxError.
Proof.
  split_and!.
  - apply (loadState_absent_empty_else_throws Posix.platform ∅ Samples.storagePath).
    vm_compute. reflexivity.
  - apply (loadState_absent_empty_else_throws
             Posix.platform Samples.lockedStorage Samples.storagePath).
    + vm_compute. reflexivity.
    + vm_compute. discriminate.
  - apply (loadState_absent_empty_else_throws
             Posix.platform Samples.corruptStorage Samples.storagePath
          ) with (content := "{not json").
    + vm_compute. reflexivity.
    + vm_compute. reflexivity.
Defined.

End StateFacts.

(** ** Configuration *)

Module ConfigFacts.
Import Config.

Lemma prefix_append (p s : string) : String.prefix p (p +:+ s) = true.
Proof.
  induction p as [|c p IH]; simpl; [by destruct s|].
  destruct (ascii_dec c c); [done|congruence].
Qed.

Lemma dropChars_append (p s : string) :
  Js.dropChars (String.length p) (p +:+ s) = s.
Proof. induction p as [|c p IH]; simpl; [by destruct s|done]. Qed.

Lemma prefix_split (p s : string) :
  String.prefix p s = true → s = p +:+ Js.dropChars (String.length p) s.
Proof.
  revert s. induction p as [|c p IH]; intros [|d s]; simpl; try done.
  destruct (ascii_dec c d) as [->|]; [|done].
  intros Hp.
  change (String d s = String d (p +:+ Js.dropChars (String.length p) s)).
  f_equal. by apply IH.
Qed.

Lemma stripPrefix_append (p s : string) : Js.stripPrefix p (p +:+ s) = s.
Proof. unfold Js.stripPrefix. by rewrite prefix_append, dropChars_append. Qed.

Lemma stripPrefix_split (p s : string) :
  Js.startsWith s p = true → s = p +:+ Js.stripPrefix p s.
Proof.
  unfold Js.startsWith, Js.stripPrefix. intros Hp. rewrite Hp.
  by apply prefix_split.
Qed.

Example envKey_of_build_configuration :
  envKeyForConfigKey "build.configuration" = "SWEETPAD_BUILD_CONFIGURATION".
Proof. vm_compute. reflexivity. Qed.

(** A key is in the extracted configuration iff the settings file has
    it under the [sweetpad.] prefix. *)
Lemma extractSweetpadConfig_lookup (settings : gmap string JSON) (key : string) :
  extractSweetpadConfig settings !! key
  = if String.eqb key "__proto__" then None
    else settings !! ("sweetpad." +:+ key).
Proof.
  unfold extractSweetpadConfig.
  apply (map_fold_weak_ind
           (fun config m => config !! key
              = if String.eqb key "__proto__" then None
                else m !! ("sweetpad." +:+ key))).
  - rewrite !lookup_empty. by destruct (String.eqb _ _).
  - intros i x m config Hi IH. unfold extractStep.
    destruct (Js.startsWith i "sweetpad.") eqn:Hpre; simpl.
    + apply stripPrefix_split in Hpre.
      destruct (String.eqb (Js.stripPrefix "sweetpad." i) "__proto__") eqn:Hproto.
      * rewrite IH. destruct (String.eqb key "__proto__") eqn:Hk; [done|].
        rewrite lookup_insert_ne; [done|].
        intros ->. rewrite stripPrefix_append in Hproto. congruence.
      * destruct (decide (Js.stripPrefix "sweetpad." i = key)) as [<-|Hne].
        -- rewrite lookup_insert_eq, Hproto, <- Hpre.
           by rewrite lookup_insert_eq.
        -- rewrite lookup_insert_ne by done. rewrite IH.
           destruct (String.eqb key "__proto__"); [done|].
           rewrite lookup_insert_ne; [done|].
           intros ->. by rewrite stripPrefix_append in Hne.
    + rewrite IH. destruct (String.eqb key "__proto__"); [done|].
      rewrite lookup_insert_ne; [done|].
      intros ->. unfold Js.startsWith in Hpre.
      by rewrite (prefix_append "sweetpad." key) in Hpre.
Qed.

Lemma foldl_envStep_lookup (P : Platform) (env : gmap string string)
    (keys : list string) (config : gmap string JSON) (key : string) :
  foldl (envStep P env) config keys !! key
  = if bool_decide (key ∈ keys) then
      match env !! envKeyForConfigKey key with
      | Some raw => Some (parseEnvValue P raw)
      | None => config !! key
      end
    else config !! key.
Proof.
  revert config. induction keys as [|k keys IH]; intros config; simpl; [done|].
  rewrite IH. unfold envStep.
  destruct (decide (k = key)) as [->|Hne].
  - rewrite (bool_decide_true (key ∈ key :: keys)) by left.
    destruct (env !! envKeyForConfigKey key) as [raw|] eqn:Henv.
    + rewrite lookup_insert_eq. by case_bool_decide.
    + by case_bool_decide.
  - assert (Hin : bool_decide (key ∈ k :: keys) = bool_decide (key ∈ keys)).
    { apply bool_decide_ext. rewrite elem_of_cons.
      split; [intros [?|?]; [congruence|done]|by right]. }
    rewrite Hin.
    destruct (env !! envKeyForConfigKey k) as [raw|];
      [by rewrite lookup_insert_ne|done].
Qed.

Lemma knownKeys_spec (config : gmap string JSON) (key : string) :
  key ∈ knownKeys config ↔ is_Some (config !! key) ∨ key ∈ builtinKeys.
Proof.
  unfold knownKeys, Object_keys.
  rewrite elem_of_remove_dups, elem_of_app.
  split.
  - intros [Hin|?]; [left|by right].
    apply list_elem_of_fmap in Hin as [[k v] [-> Hkv]].
    apply elem_of_map_to_list in Hkv. by exists v.
  - intros [[v Hv]|?]; [left|by right].
    apply list_elem_of_fmap. exists (key, v). split; [done|].
    by apply elem_of_map_to_list.
Qed.

Import Reference.

Lemma declaresKey_declaredValue (file : SettingsFile) (key : string) :
  declaresKey file key ↔ is_Some (declaredValue file key).
Proof.
  destruct file as [|error|settings]; simpl;
    [by rewrite is_Some_alt..|].
  destruct (String.eqb_spec key "__proto__") as [->|Hne].
  - rewrite is_Some_alt. split; [by intros [? _]|done].
  - split; [by intros [_ ?]|done].
Qed.

Lemma loadCliConfig_inr (P : Platform) (file : SettingsFile)
    (env : gmap string string) (config : gmap string JSON) :
  loadCliConfig P file env = inr config →
  ∃ base, (∀ key, base !! key = declaredValue file key)
          ∧ config = foldl (envStep P env) base (knownKeys base).
Proof.
  destruct file as [|error|settings]; simpl; intros Hload; [|done|].
  - exists ∅. split; [intros key; apply lookup_empty|congruence].
  - exists (extractSweetpadConfig settings).
    split; [intros key; apply extractSweetpadConfig_lookup|congruence].
Qed.

Lemma loadCliConfig_lookup (P : Platform) (file : SettingsFile)
    (env : gmap string string) (config : gmap string JSON) (key : string) :
  loadCliConfig P file env = inr config →
  config !! key
  = if bool_decide (declaresKey file key ∨ key ∈ builtinKeys) then
      match env !! envKeyForConfigKey key with
      | Some raw => Some (parseEnvValue P raw)
      | None => declaredValue file key
      end
    else None.
Proof.
  intros (base & Hbase & ->)%loadCliConfig_inr.
  rewrite foldl_envStep_lookup, Hbase.
  assert (Hknown : key ∈ knownKeys base
                   ↔ declaresKey file key ∨ key ∈ builtinKeys)
    by (by rewrite knownKeys_spec, Hbase, declaresKey_declaredValue).
  rewrite (bool_decide_ext _ _ Hknown).
  case_bool_decide as Hk; [done|].
  destruct (declaredValue file key) eqn:Hv; [|done].
  exfalso. apply Hk. left. apply declaresKey_declaredValue. by rewrite Hv.
Qed.

(** C10.  In the configuration that [loadCliConfig] returns, a key that
    is neither declared by the project settings file nor in the built-in
    list is absent, whatever the environment holds; a key that is
    declared or built in takes the parsed value of its
    [SWEETPAD_...] variable when that is set and the declared value
    otherwise; and the result depends on the environment only through
    the variables of those keys. *)
Theorem env_override_only_for_known_keys (P : Platform) (file : SettingsFile)
    (env : gmap string string) (config : gmap string JSON) :
  loadCliConfig P file env = inr config →
  (∀ key, ¬ declaresKey file key → key ∉ builtinKeys → config !! key = None)
  ∧ (∀ key, declaresKey file key ∨ key ∈ builtinKeys →
       config !! key
       = match env !! envKeyForConfigKey key with
         | Some raw => Some (parseEnvValue P raw)
         | None => declaredValue file key
         end)
  ∧ (∀ env',
       (∀ key, declaresKey file key ∨ key ∈ builtinKeys →
          env' !! envKeyForConfigKey key = env !! envKeyForConfigKey key) →
       loadCliConfig P file env' = inr config).
Proof.
  intros Hload. split_and!.
  - intros key Hfile Hbuiltin.
    rewrite (loadCliConfig_lookup P file env config key Hload).
    rewrite bool_decide_false; [done|tauto].
  - intros key Hknown.
    rewrite (loadCliConfig_lookup P file env config key Hload).
    by rewrite bool_decide_true.
  - intros env' Henv.
    destruct (loadCliConfig P file env') as [error|config'] eqn:Hload'.
    { destruct file; simpl in *; congruence. }
    f_equal. apply map_eq. intros key.
    rewrite (loadCliConfig_lookup P file env' config' key Hload').
    rewrite (loadCliConfig_lookup P file env config key Hload).
    case_bool_decide as Hk; [|done]. by rewrite Henv.
Qed.

(** Witness for C10: the variable of the built-in key
    [build.configuration] and that of the declared key [format.path] are
    taken; SWEETPAD_TUIST_AUTOGENERATE, whose key [tuist.autogenerate] is
    neither declared nor built in, is ignored. *)
Lemma env_override_witness :
  ∃ config,
    loadCliConfig Posix.platform (Settings Samples.projectSettings)
      Samples.environment = inr config
    ∧ config !! "tuist.autogenerate" = None
    ∧ config !! "build.configuration" = Some (JString "Release")
    ∧ config !! "format.path" = Some (JString "/opt/swift-format").
Proof.
  destruct (loadCliConfig Posix.platform (Settings Samples.projectSettings)
              Samples.environment) as [error|config] eqn:Hload;
    [discriminate Hload|].
  exists config. split; [reflexivity|].
  destruct (env_override_only_for_known_keys Posix.platform
              (Settings Samples.projectSettings) Samples.environment config Hload)
    as (Habsent & Hknown & _).
  split_and!.
  - apply Habsent.
    + intros [_ [v Hv]]. vm_compute in Hv. discriminate Hv.
    + intros Hin. apply (bool_decide_pack _) in Hin.
      vm_compute in Hin. exact Hin.
  - rewrite Hknown.
    + vm_compute. reflexivity.
    + right. apply (bool_decide_unpack _). vm_compute. exact I.
  - rewrite Hknown.
    + vm_compute. reflexivity.
    + left. split; [discriminate|]. vm_compute. eexists. reflexivity.
Defined.

End ConfigFacts.

(** ** Smart pickers *)

Module PickerFacts.
Import Context Pickers.

Lemma find_string (s : string) (l : list string) :
  s ∈ l → find (String.eqb s) l = Some s.
Proof.
  induction l as [|x l IH]; [by rewrite elem_of_nil|].
  rewrite elem_of_cons. intros Hin. simpl.
  destruct (String.eqb_spec s x) as [->|Hne]; [done|].
  apply IH. by destruct Hin.
Qed.

Lemma find_app {A : Type} (f : A → bool) (l1 l2 : list A) :
  find f (l1 ++ l2)
  = match find f l1 with Some x => Some x | None => find f l2 end.
Proof.
  induction l1 as [|x l1 IH]; simpl; [done|]. by destruct (f x).
Qed.

Lemma find_exists {A : Type} (f : A → bool) (l : list A) :
  (∃ x, x ∈ l ∧ f x = true) → ∃ y, find f l = Some y ∧ y ∈ l ∧ f y = true.
Proof.
  intros (x & Hx & Hfx). destruct (find f l) as [y|] eqn:Hfind.
  - apply find_some in Hfind as [Hy Hfy].
    exists y. by rewrite list_elem_of_In.
  - apply list_elem_of_In in Hx.
    pose proof (find_none f l Hfind x Hx). congruence.
Qed.

Lemma find_none_forall {A : Type} (f : A → bool) (l : list A) :
  (∀ x, x ∈ l → f x = false) → find f l = None.
Proof.
  induction l as [|x l IH]; intros Hall; simpl; [done|].
  rewrite (Hall x) by left. apply IH. intros y Hy. apply Hall. by right.
Qed.

Lemma findRemembered_string (s : string) (names : list string) :
  s ≠ "" → s ∈ names → findRemembered (Some (JString s)) names = Some s.
Proof.
  intros Hs Hin. unfold findRemembered. simpl.
  destruct s as [|c s]; [done|]. simpl.
  assert (Heq : find (fun n => String.eqb (String c s) n) names = Some (String c s))
    by (by apply find_string).
  exact Heq.
Qed.

Lemma rememberedPath_string (s : string) (paths : list string) :
  s ≠ "" → s ∈ paths → rememberedPath (Some (JString s)) paths = Some s.
Proof.
  intros Hs Hin. unfold rememberedPath, Js.arrayIncludes.
  rewrite bool_decide_true by done.
  by destruct s.
Qed.

(** A remembered id that matches a supported destination selects the
    first supported destination that it matches. *)
Lemma rememberedDestination_supported (v : JSON)
    (supported unsupported : list Destination) :
  truthy v = true →
  (∃ d, d ∈ supported ∧ matchesRememberedId v d = true) →
  ∃ d, rememberedDestination (Some v) supported unsupported = Some d
       ∧ d ∈ supported ∧ matchesRememberedId v d = true.
Proof.
  intros Hv (d & Hfind & Hd & Hmatch)%find_exists.
  exists d. unfold rememberedDestination.
  rewrite Hv, find_app, Hfind. by rewrite bool_decide_true.
Qed.

(** A remembered id that matches no supported destination selects
    nothing. *)
Lemma rememberedDestination_unsupported (o : option JSON)
    (supported unsupported : list Destination) :
  (∀ v d, o = Some v → d ∈ supported → matchesRememberedId v d = false) →
  rememberedDestination o supported unsupported = None.
Proof.
  intros Hnone. unfold rememberedDestination.
  destruct o as [v|]; [|done]. destruct (truthy v); [|done].
  rewrite find_app, (find_none_forall _ supported) by eauto.
  destruct (find _ unsupported) as [d|] eqn:Hfind; [|done].
  apply find_some in Hfind as [_ Hmatch].
  case_bool_decide as Hin; [|done].
  rewrite (Hnone v d) in Hmatch by done. done.
Qed.




Lemma mac_is_enumerated (W : World) :
  macDestination W
  ∈ (splitSupportedDestinatinos (listDestinations W) (supportedPlatforms W)).1
    ++ (splitSupportedDestinatinos (listDestinations W) (supportedPlatforms W)).2.
Proof.
  unfold splitSupportedDestinatinos, listDestinations.
  destruct (supportedPlatforms W) as [[|tag declared]|]; cbn [fst snd];
    [rewrite app_nil_r; by left| |rewrite app_nil_r; by left].
  destruct (decide (platform (macDestination W) ∈ tag :: declared)) as [Hin|Hout].
  - rewrite filter_cons_True by done. by left.
  - apply elem_of_app. right. rewrite filter_cons_True by done. by left.
Qed.

Lemma fzfPick_error {T : Type} (W : World) (prompt : string)
    (items : list (string * T)) (r : Runtime) (message : string) :
  items ≠ [] →
  fst (fzfPick W prompt items r) = inl (ExtensionError message) →
  message = "fzf is required but not installed. Install it with `brew install fzf` and try again."
  ∨ message = "Selection cancelled"
  ∨ message = "Failed to parse fzf selection".
Proof.
  unfold fzfPick, bind, logFzf, throw, ret.
  destruct items as [|item [|item' items]]; [done|done|]. intros _.
  destruct (fzf W prompt _) as [| | |[index|]]; cbn [fst].
  - intros [= <-]. by left.
  - done.
  - intros [= <-]. right. by left.
  - destruct (_ !! index); cbn [fst]; [done|]. intros [= <-]. by do 2 right.
  - intros [= <-]. by do 2 right.
Qed.

(** C3, as the code has it.  With nothing to pick from, the smart
    pickers of the workspace file and of the scheme throw and leave the
    runtime as it was, and the configuration picker returns Debug.  For
    the destination there is always something to pick from: this Mac is
    enumerated, in one partition or the other, and [No destinations
    found] is never thrown; when no destination is supported and the Mac
    is the only unsupported one it is returned and remembered. *)
Theorem no_options_throws_except_configuration (P : Platform) (W : World)
    (r : Runtime) :
  (detectXcodeWorkspacesPaths W = [] →
   ∀ workspacePath,
     pickXcodeWorkspacePathSmart P W workspacePath r
     = (inl (ExtensionError "No xcode workspaces found"), r))
  ∧ (getSchemes W = [] →
     ∀ prompt,
       pickSchemeSmart W prompt r = (inl (ExtensionError "No schemes found"), r))
  ∧ (macDestination W
     ∈ (splitSupportedDestinatinos (listDestinations W) (supportedPlatforms W)).1
       ++ (splitSupportedDestinatinos (listDestinations W) (supportedPlatforms W)).2
     ∧ fst (pickDestinationSmart W r)
       ≠ inl (ExtensionError "No destinations found")
     ∧ (splitSupportedDestinatinos (listDestinations W) (supportedPlatforms W)
        = ([], [macDestination W]) →
        pickDestinationSmart W r
        = (inr (macDestination W),
           MoreReference.remembering "cli.destination.id"
             (JString (id (macDestination W)))
             (MoreReference.asked "Select destination" r))))
  ∧ (getBuildConfigurations W = [] →
     pickConfigurationSmart W r = (inr DEFAULT_DEBUG_CONFIGURATION, r)).
Proof.
  split_and!.
  - intros Hnone workspacePath.
    unfold pickXcodeWorkspacePathSmart, bind, getRememberedValue.
    by rewrite Hnone.
  - intros Hnone prompt. unfold pickSchemeSmart, bind, getRememberedValue.
    by rewrite Hnone.
  - apply mac_is_enumerated.
  - pose proof (mac_is_enumerated W) as Hmac.
    unfold pickDestinationSmart, bind, getRememberedValue, pickDestination.
    destruct (splitSupportedDestinatinos _ _) as [supported unsupported].
    cbn [fst snd] in Hmac.
    assert (Hempty : supported ++ unsupported ≠ []).
    { intros Hnil. rewrite Hnil in Hmac. by apply elem_of_nil in Hmac. }
    set (items := map (fun d => (formatDestinationLabel d, d)) supported
                  ++ map (fun d => (formatDestinationLabel d +:+ " [unsupported]", d))
                         unsupported).
    assert (Hitems : items ≠ []).
    { subst items. by destruct supported, unsupported. }
    assert (Hasked : fst (match fzfPick W "Select destination" items r with
                          | (inl e, r') => (inl e, r')
                          | (inr a, r') =>
                              (inr a, MoreReference.remembering "cli.destination.id"
                                        (JString (id a)) r')
                          end)
                     ≠ inl (ExtensionError "No destinations found")).
    { pose proof (fzfPick_error W "Select destination" items r
                    "No destinations found" Hitems) as Herror.
      destruct (fzfPick W "Select destination" items r) as [[e|a] r'];
        cbn [fst] in *; [|done].
      intros [= ->]. by destruct Herror as [?|[?|?]]. }
    destruct (rememberedDestination _ supported unsupported) as [d|].
    + by destruct supported, unsupported.
    + destruct supported, unsupported; [done|exact Hasked..].
  - intros Hsplit. unfold pickDestinationSmart, bind, getRememberedValue,
      pickDestination.
    rewrite Hsplit.
    rewrite (rememberedDestination_unsupported _ [] [macDestination W]); [done|].
    intros v d _ Hd. by apply elem_of_nil in Hd.
  - intros Hnone. unfold pickConfigurationSmart, bind, getRememberedValue.
    by rewrite Hnone.
Qed.

(** Witness for C3: a directory in which nothing is found, and a Mac
    that is the only destination and unsupported. *)
Lemma no_options_witness :
  let r := Samples.runtimeWith ∅ in
  pickXcodeWorkspacePathSmart Posix.platform Samples.emptyWorld "/p" r
  = (inl (ExtensionError "No xcode workspaces found"), r)
  ∧ pickSchemeSmart Samples.emptyWorld None r
    = (inl (ExtensionError "No schemes found"), r)
  ∧ fst (pickDestinationSmart MoreSamples.macOnlyWorld r) = inr Samples.myMac.
Proof.
  intros r.
  destruct (no_options_throws_except_configuration Posix.platform
              Samples.emptyWorld r) as (Hxc & Hscheme & _).
  destruct (no_options_throws_except_configuration Posix.platform
              MoreSamples.macOnlyWorld r) as (_ & _ & (_ & _ & Hmac) & _).
  split_and!.
  - apply Hxc. reflexivity.
  - apply Hscheme. reflexivity.
  - rewrite Hmac; [reflexivity|]. vm_compute. reflexivity.
Defined.

(** Counterexample to C3 as stated: with no configuration found,
    resolution of the configuration returns a value. *)
Lemma no_configuration_returns_debug :
  let r := Samples.runtimeWith ∅ in
  getBuildConfigurations Samples.emptyWorld = []
  ∧ pickConfigurationSmart Samples.emptyWorld r = (inr "Debug", r)
  ∧ ∀ error, fst (pickConfigurationSmart Samples.emptyWorld r) ≠ inl error.
Proof.
  intros r. split_and!; [reflexivity..|].
  intros error Heq. vm_compute in Heq. discriminate Heq.
Qed.

(** [pickDestination] hands its items to [fzfPick] as soon as there
    is a destination. *)
Lemma pickDestination_items (W : World) (r : Runtime) :
  MoreReference.destinationItems W ≠ [] →
  pickDestination W r
  = fzfPick W "Select destination" (MoreReference.destinationItems W) r.
Proof.
  unfold pickDestination, MoreReference.destinationItems.
  destruct (splitSupportedDestinatinos _ _) as [supported unsupported].
  cbn [fst snd]. by destruct supported, unsupported.
Qed.

(** C4, as the code has it.  When the remembered destination id matches
    no destination of the supported partition but one of the unsupported
    partition, the memory step selects nothing.  With two or more
    destinations the user decides: the destination on the line that
    [fzf] prints is returned and its id remembered, and when [fzf] prints
    no line of the list (cancelled, missing, failed, unreadable output)
    resolution throws and no destination is returned.  With a single
    destination, that one is returned and remembered without a prompt. *)
Theorem unsupported_remembered_destination_falls_through (W : World) (r : Runtime)
    (v : JSON) :
  let supported :=
    (splitSupportedDestinatinos (listDestinations W) (supportedPlatforms W)).1 in
  let unsupported :=
    (splitSupportedDestinatinos (listDestinations W) (supportedPlatforms W)).2 in
  let items := MoreReference.destinationItems W in
  let answer := fzf W "Select destination" (map fst items) in
  persistentState r !! "cli.destination.id" = Some v →
  (∀ d, d ∈ supported → matchesRememberedId v d = false) →
  (∃ d, d ∈ unsupported ∧ matchesRememberedId v d = true) →
  rememberedDestination (Some v) supported unsupported = None
  ∧ ((2 ≤ length items)%nat →
     (∀ index label d,
        answer = FzfPrinted (Some index) → items !! index = Some (label, d) →
        pickDestinationSmart W r
        = (inr d,
           MoreReference.remembering "cli.destination.id" (JString (id d))
             (MoreReference.asked "Select destination" r)))
     ∧ ((∀ index, answer = FzfPrinted (Some index) → items !! index = None) →
        ∃ error,
          pickDestinationSmart W r
          = (inl error, MoreReference.asked "Select destination" r)))
  ∧ (∀ d, supported ++ unsupported = [d] →
       pickDestinationSmart W r
       = (inr d,
          MoreReference.remembering "cli.destination.id" (JString (id d))
            (MoreReference.asked "Select destination" r))).
Proof.
  intros supported unsupported items answer Hmem Hnone (d0 & Hd0 & Hmatch).
  assert (Hrem : rememberedDestination (Some v) supported unsupported = None).
  { apply rememberedDestination_unsupported. intros v' d' [= <-]. apply Hnone. }
  assert (Hne : unsupported ≠ [])
    by (intros Heq; rewrite Heq in Hd0; by apply elem_of_nil in Hd0).
  assert (Hitems : items ≠ []).
  { subst items supported unsupported. unfold MoreReference.destinationItems.
    destruct (splitSupportedDestinatinos _ _) as [sup unsup]. cbn [fst snd] in *.
    by destruct sup, unsup. }
  assert (Hsmart : pickDestinationSmart W r
    = match fzfPick W "Select destination" items r with
      | (inl e, r') => (inl e, r')
      | (inr selected, r') =>
          (inr selected,
           MoreReference.remembering "cli.destination.id" (JString (id selected)) r')
      end).
  { unfold items. rewrite <- (pickDestination_items W r Hitems).
    unfold pickDestinationSmart at 1, bind at 1.
    unfold getRememberedValue, State.getRememberedValue. rewrite Hmem.
    subst supported unsupported.
    destruct (splitSupportedDestinatinos _ _) as [sup unsup].
    cbn [fst snd] in *. rewrite Hrem. unfold bind.
    destruct sup, unsup; try done; by destruct (pickDestination W r) as [[?|?] ?]. }
  split_and!; [done| |].
  - intros Hlength.
    assert (Hpick : fzfPick W "Select destination" items r
              = match answer with
                | FzfNotInstalled =>
                    (inl (ExtensionError
                       "fzf is required but not installed. Install it with `brew install fzf` and try again."),
                     MoreReference.asked "Select destination" r)
                | FzfSpawnError code =>
                    (inl (ErrnoException code),
                     MoreReference.asked "Select destination" r)
                | FzfCancelled =>
                    (inl (ExtensionError "Selection cancelled"),
                     MoreReference.asked "Select destination" r)
                | FzfPrinted None =>
                    (inl (ExtensionError "Failed to parse fzf selection"),
                     MoreReference.asked "Select destination" r)
                | FzfPrinted (Some index) =>
                    match items !! index with
                    | Some item => (inr (snd item),
                                    MoreReference.asked "Select destination" r)
                    | None => (inl (ExtensionError "Failed to parse fzf selection"),
                               MoreReference.asked "Select destination" r)
                    end
                end).
    { subst answer. unfold fzfPick, bind, logFzf, throw, ret,
        MoreReference.asked, logFzf.
      destruct items as [|item [|item' rest]]; [cbn in Hlength; lia..|].
      destruct (fzf W _ _) as [| | |[index|]]; [done..| |done].
      by destruct (_ !! index). }
    rewrite Hsmart, Hpick. split.
    + intros index label d -> ->. done.
    + intros Hnoline. destruct answer as [| | |[index|]]; [by eexists..| |by eexists].
      rewrite (Hnoline index eq_refl). by eexists.
  - intros d Hsingle.
    assert (Hone : items = [(formatDestinationLabel d +:+ " [unsupported]", d)]).
    { subst items supported unsupported. unfold MoreReference.destinationItems.
      destruct (splitSupportedDestinatinos _ _) as [sup unsup]. cbn [fst snd] in *.
      destruct sup as [|s sup]; [|by destruct sup, unsup].
      cbn in Hsingle. by rewrite Hsingle. }
    rewrite Hsmart, Hone. reflexivity.
Qed.

(** Witness for C4: the watch is remembered and unsupported; the
    user picks the first line, the first iPhone. *)
Lemma unsupported_remembered_witness :
  let r := Samples.runtimeWith Samples.rememberedWatch in
  pickDestinationSmart Samples.world r
  = (inr Samples.iPhone15,
     MoreReference.remembering "cli.destination.id"
       (JString "iossimulator-DEF-456")
       (MoreReference.asked "Select destination" r)).
Proof.
  intros r.
  destruct (unsupported_remembered_destination_falls_through Samples.world r
              (JString "ABC-123")) as (_ & Hasked & _).
  - vm_compute. reflexivity.
  - intros d Hd. vm_compute in Hd.
    apply elem_of_cons in Hd as [->|Hd]; [reflexivity|].
    apply list_elem_of_singleton in Hd as ->. reflexivity.
  - exists Samples.appleWatch. split; [|reflexivity].
    vm_compute. right. left.
  - destruct Hasked as [Hline _]; [vm_compute; lia|].
    apply (Hline 0 "iPhone 15 - iOS 17.0" Samples.iPhone15);
      vm_compute; reflexivity.
Defined.

(** Counterexample to C4 as stated: the Mac is remembered, unsupported
    and the only destination; it is returned although the user leaves
    every prompt without choosing. *)
Lemma only_destination_returned_unasked :
  let W := MoreSamples.macOnlyWorld in
  let r := Samples.runtimeWith MoreSamples.rememberedMac in
  splitSupportedDestinatinos (listDestinations W) (supportedPlatforms W)
  = ([], [Samples.myMac])
  ∧ persistentState r !! "cli.destination.id" = Some (JString (id Samples.myMac))
  ∧ (∀ prompt labels, fzf W prompt labels = FzfCancelled)
  ∧ fst (pickDestinationSmart W r) = inr Samples.myMac.
Proof.
  intros W r. split_and!; [vm_compute; reflexivity..|reflexivity|].
  vm_compute. reflexivity.
Qed.

End PickerFacts.

(** ** Explicit values *)

Module CliFacts.
Import Context Cli.

Lemma truthyOpt_Some (s : string) : s ≠ "" → truthyOpt (Some s) = true.
Proof. by destruct s. Qed.

(** X24.  The explicit paths that leave the runtime alone.  A workspace
    file, scheme or configuration given by flag or by configuration, a
    destination id given by flag, and a destination name given by flag
    that matches at most one destination are resolved without touching
    the runtime: no [setRememberedValue] call, the dirty flag and the
    state as they were, no [fzfPick] call. *)
Theorem explicit_value_writes_nothing (P : Platform) (W : World)
    (options : CliOptions) (workspacePath : string) (config : gmap string JSON)
    (r : Runtime) :
  (∀ s, xcworkspace options = Some s → s ≠ "" →
     resolveXcworkspace P W options workspacePath config r
     = (inr (if path_isAbsolute P s then s else path_join P workspacePath s), r))
  ∧ (∀ s, xcworkspace options = None →
       config !! "build.xcodeWorkspacePath" = Some (JString s) → s ≠ "" →
       resolveXcworkspace P W options workspacePath config r
       = (inr (if path_isAbsolute P s then s else path_join P workspacePath s), r))
  ∧ (∀ s, scheme options = Some s → resolveScheme W options r = (inr s, r))
  ∧ (∀ s, configuration options = Some s →
       resolveConfiguration W options config r = (inr (JString s), r))
  ∧ (∀ v, configuration options = None →
       config !! "build.configuration" = Some v → v ≠ JNull →
       resolveConfiguration W options config r = (inr v, r))
  ∧ (∀ i, destinationId options = Some i → i ≠ "" →
       snd (resolveDestination W options r) = r)
  ∧ (∀ n, truthyOpt (destinationId options) = false →
       destinationName options = Some n → n ≠ "" →
       (length (filter (fun item => matchDestinationName item n = true)
                  (listDestinations W)) ≤ 1)%nat →
       snd (resolveDestination W options r) = r).
Proof.
  split_and!.
  - intros s Hopt Hs. unfold resolveXcworkspace. rewrite Hopt.
    by destruct s.
  - intros s Hopt Hcfg Hs. unfold resolveXcworkspace, Config.getCliConfig.
    rewrite Hopt, Hcfg. by destruct s.
  - intros s Hopt. unfold resolveScheme. by rewrite Hopt.
  - intros s Hopt. unfold resolveConfiguration. by rewrite Hopt.
  - intros v Hopt Hcfg Hv. unfold resolveConfiguration, Config.getCliConfig.
    rewrite Hopt, Hcfg. by destruct v.
  - intros i Hopt Hi. unfold resolveDestination.
    rewrite Hopt, (truthyOpt_Some i Hi). cbn [negb andb].
    by destruct (find _ _).
  - intros n Hid Hopt Hn Hlen. unfold resolveDestination.
    rewrite Hid, Hopt, (truthyOpt_Some n Hn). cbn [negb andb default].
    destruct (filter _ _) as [|d [|d' ds]]; [done..|].
    simpl in Hlen. lia.
Qed.

(** Witness for X24: every decision point given on the command line. *)
Lemma explicit_value_witness :
  let r := Samples.runtimeWith Samples.remembered in
  resolveXcworkspace Posix.platform Samples.world Samples.allExplicit "/p" ∅ r
  = (inr "/p/MyApp.xcworkspace", r)
  ∧ resolveScheme Samples.world Samples.allExplicit r = (inr "MyAppTests", r)
  ∧ resolveConfiguration Samples.world Samples.allExplicit ∅ r
    = (inr (JString "Release"), r)
  ∧ snd (resolveDestination Samples.world Samples.allExplicit r) = r.
Proof.
  intros r.
  destruct (explicit_value_writes_nothing Posix.platform Samples.world
              Samples.allExplicit "/p" ∅ r)
    as (Hxc & _ & Hscheme & Hconf & _ & Hid & _).
  split_and!.
  - apply (Hxc "MyApp.xcworkspace"); [reflexivity|discriminate].
  - apply Hscheme. reflexivity.
  - apply Hconf. reflexivity.
  - apply (Hid "ABC-123"); [reflexivity|discriminate].
Defined.

(** C9 at [--destination iPhone] with two iPhones enumerated and
    nothing remembered: the destination was given on the command line,
    yet resolution asks the user and writes the chosen id to selection
    memory and sets the dirty flag. *)
Lemma ambiguous_destination_name_is_remembered :
  let r := Samples.runtimeWith ∅ in
  let after := snd (resolveDestination Samples.world Samples.destinationByName r) in
  fst (resolveDestination Samples.world Samples.destinationByName r)
  = inr Samples.iPhone15
  ∧ rememberLog after = [("cli.destination.id", JString "iossimulator-DEF-456")]
  ∧ stateDirty after = true
  ∧ persistentState after !! "cli.destination.id"
    = Some (JString "iossimulator-DEF-456")
  ∧ after ≠ r.
Proof.
  intros r after. subst after r.
  split_and!; [vm_compute; reflexivity..|].
  intros Heq. apply (f_equal stateDirty) in Heq.
  vm_compute in Heq. discriminate Heq.
Qed.

End CliFacts.


(** ** The scan of the free-form tokens *)

Module ScanFacts.
Import XcodeCommandBuilder Reference BuilderFacts.

Lemma parsed_nil : parsed [] = empty.
Proof. reflexivity. Qed.

Lemma parsed_pair (current next : string) (rest : list string) :
  isPair current next = true →
  parsed (current :: next :: rest)
  = declareAfter (pushParameter {| arg := current; value := next |} empty)
                 (parsed rest).
Proof.
  intros Hpair. unfold parsed at 1. rewrite scanArgs_two, Hpair.
  by rewrite scanArgs_declareAfter.
Qed.

Lemma parsed_single (current : string) (rest : list string) :
  match rest with
  | next :: _ => isPair current next = false
  | [] => True
  end →
  parsed (current :: rest)
  = declareAfter (fst (classifySingle current empty)) (parsed rest).
Proof.
  intros Hsingle. unfold parsed at 1.
  destruct rest as [|next rest].
  - simpl. destruct (classifySingle current empty) as [b1 w1]. simpl.
    by rewrite declareAfter_empty.
  - rewrite scanArgs_two, Hsingle.
    destruct (classifySingle current empty) as [b1 w1].
    rewrite scanArgs_declareAfter. by cbn [fst].
Qed.

(** Induction along the scan: a flag with its value, or one token. *)
Lemma scan_ind (Q : list string → Prop) :
  Q [] →
  (∀ current next rest,
     isPair current next = true → Q rest → Q (current :: next :: rest)) →
  (∀ current rest,
     match rest with
     | next :: _ => isPair current next = false
     | [] => True
     end → Q rest → Q (current :: rest)) →
  ∀ args, Q args.
Proof.
  intros Hnil Hpair Hsingle args.
  induction args as [args IH] using (induction_ltof1 _ (@length string)).
  unfold ltof in IH.
  destruct args as [|current [|next rest]]; [done| |].
  - apply Hsingle; [done|]. apply IH. simpl. lia.
  - destruct (isPair current next) eqn:Hp.
    + apply Hpair; [done|]. apply IH. simpl. lia.
    + apply Hsingle; [done|]. apply IH. simpl. lia.
Qed.

Lemma isPair_true (current next : string) :
  isPair current next = true →
  Js.startsWith current "-" = true
  ∧ Js.startsWith next "-" = false
  ∧ Js.truthy next = true.
Proof.
  unfold isPair. rewrite !andb_true_iff, negb_true_iff. tauto.
Qed.

Lemma prefix_one (c d : ascii) (s : string) :
  String.prefix (String c EmptyString) (String d s) = Ascii.eqb c d.
Proof.
  simpl. destruct (ascii_dec c d) as [->|Hne].
  - rewrite Ascii.eqb_refl. by destruct s.
  - symmetry. by apply Ascii.eqb_neq.
Qed.

(** The first piece of [s.split(sep)]: it has no separator, and it
    starts like [s] unless [s] starts with the separator. *)
Lemma split_head (sep : ascii) (s : string) :
  ∃ head pieces,
    Js.split sep s = head :: pieces
    ∧ Js.includes head (String sep EmptyString) = false
    ∧ ∀ c, c ≠ sep →
        Js.startsWith head (String c EmptyString)
        = Js.startsWith s (String c EmptyString).
Proof.
  induction s as [|d s (head & pieces & Hsplit & Hsep & Hstart)].
  - exists EmptyString, []. done.
  - cbn [Js.split]. destruct (Ascii.eqb_spec d sep) as [->|Hd].
    + exists EmptyString, (Js.split sep s). split_and!; [done..|].
      intros c Hc. unfold Js.startsWith. rewrite prefix_one.
      symmetry. by apply Ascii.eqb_neq.
    + rewrite Hsplit. exists (String d head), pieces. split_and!; [done| |].
      * cbn [Js.includes]. rewrite Hsep, prefix_one, orb_false_r.
        apply Ascii.eqb_neq. congruence.
      * intros c Hc. unfold Js.startsWith. by rewrite !prefix_one.
Qed.

Lemma classifySingle_empty (current : string) :
  classifySingle current empty
  = if Js.startsWith current "-" then
      (pushParameter {| arg := current; value := NO_VALUE |} empty, [])
    else if Js.includes current "=" then
      (pushBuildSetting
         {| key := Js.indexOrUndefined (Js.split "=" current) 0;
            setting := Js.indexOrUndefined (Js.split "=" current) 1 |} empty, [])
    else if Js.arrayIncludes ["clean"; "build"; "test"] current then
      (pushAction current empty, [])
    else (empty, [current]).
Proof. reflexivity. Qed.

Lemma warnings_pair (current next : string) (rest : list string) :
  isPair current next = true →
  snd (scanArgs (current :: next :: rest) empty) = snd (scanArgs rest empty).
Proof.
  intros Hpair. rewrite scanArgs_two, Hpair.
  by rewrite scanArgs_declareAfter.
Qed.

Lemma warnings_single (current : string) (rest : list string) :
  match rest with
  | next :: _ => isPair current next = false
  | [] => True
  end →
  snd (scanArgs (current :: rest) empty)
  = snd (classifySingle current empty) ++ snd (scanArgs rest empty).
Proof.
  intros Hsingle. destruct rest as [|next rest].
  - simpl. by destruct (classifySingle current empty) as [b1 w1].
  - rewrite scanArgs_two, Hsingle.
    destruct (classifySingle current empty) as [b1 w1].
    rewrite scanArgs_declareAfter. by cbn [snd].
Qed.

(** X1.  The flags of the parameters that the scan of the free-form
    tokens produces are exactly the tokens that start with ['-'], in
    their order: such a token is never taken as the value of the flag
    before it, and no other token becomes a flag. *)
Theorem parsed_flags_are_dash_tokens (args : list string) :
  map arg (parameters (parsed args))
  = filter (fun token => Js.startsWith token "-" = true) args.
Proof.
  induction args as [|current next rest Hpair IH|current rest Hsingle IH]
    using scan_ind.
  - done.
  - rewrite (parsed_pair _ _ _ Hpair). simpl.
    apply isPair_true in Hpair as (Hcur & Hnext & _).
    rewrite filter_cons_True by done.
    rewrite filter_cons_False by (by rewrite Hnext).
    by rewrite IH.
  - rewrite (parsed_single _ _ Hsingle), classifySingle_empty.
    destruct (Js.startsWith current "-") eqn:Hdash.
    + rewrite filter_cons_True by done. simpl. by rewrite IH.
    + rewrite filter_cons_False by (by rewrite Hdash).
      destruct (Js.includes current "="); [simpl; by rewrite IH|].
      destruct (Js.arrayIncludes _ current); simpl; by rewrite IH.
Qed.

(** X2.  What the scan of the free-form tokens declares comes from the
    tokens and is well formed: a parameter value is the sentinel or a
    non-empty token that does not start with ['-']; a build-setting key
    neither starts with ['-'] nor contains ['=']; an action is one of the
    three verbs; and a token is warned about only if it starts with no
    ['-'], contains no ['='] and is no verb. *)
Theorem parsed_entries_come_from_tokens (args : list string) :
  (∀ p, p ∈ parameters (parsed args) →
     value p = NO_VALUE
     ∨ (value p ∈ args ∧ Js.truthy (value p) = true
        ∧ Js.startsWith (value p) "-" = false))
  ∧ (∀ s, s ∈ buildSettings (parsed args) →
       Js.startsWith (key s) "-" = false ∧ Js.includes (key s) "=" = false)
  ∧ (∀ a, a ∈ actions (parsed args) →
       a ∈ ["clean"; "build"; "test"] ∧ a ∈ args)
  ∧ (∀ w, w ∈ snd (scanArgs args empty) →
       w ∈ args ∧ Js.startsWith w "-" = false ∧ Js.includes w "=" = false
       ∧ w ∉ ["clean"; "build"; "test"]).
Proof.
  induction args
    as [|current next rest Hpair (IHp & IHs & IHa & IHw)
        |current rest Hsingle (IHp & IHs & IHa & IHw)] using scan_ind.
  - split_and!; intros x Hx; by apply elem_of_nil in Hx.
  - rewrite (parsed_pair _ _ _ Hpair), (warnings_pair _ _ _ Hpair).
    apply isPair_true in Hpair as (Hcur & Hnext & Htruthy).
    cbn [declareAfter pushParameter empty parameters buildSettings actions app].
    split_and!.
    + intros p [->|Hp]%elem_of_cons.
      * right. cbn [value]. split_and!; [|done..]. right. left.
      * destruct (IHp p Hp) as [?|(Hin & ? & ?)]; [by left|right].
        split_and!; [|done..]. by do 2 right.
    + done.
    + intros a Ha. destruct (IHa a Ha) as [? Hin]. split; [done|]. by do 2 right.
    + intros w Hw. destruct (IHw w Hw) as (Hin & ?). split; [|done]. by do 2 right.
  - rewrite (parsed_single _ _ Hsingle), (warnings_single _ _ Hsingle).
    rewrite classifySingle_empty.
    assert (Hp : ∀ p, p ∈ parameters (parsed rest) →
              value p = NO_VALUE
              ∨ (value p ∈ current :: rest ∧ Js.truthy (value p) = true
                 ∧ Js.startsWith (value p) "-" = false)).
    { intros p Hp. destruct (IHp p Hp) as [?|(Hin & ? & ?)]; [by left|right].
      split_and!; [|done..]. by right. }
    assert (Ha : ∀ a, a ∈ actions (parsed rest) →
              a ∈ ["clean"; "build"; "test"] ∧ a ∈ current :: rest).
    { intros a Ha. destruct (IHa a Ha). split; [done|]. by right. }
    assert (Hw : ∀ w, w ∈ snd (scanArgs rest empty) →
              w ∈ current :: rest ∧ Js.startsWith w "-" = false
              ∧ Js.includes w "=" = false ∧ w ∉ ["clean"; "build"; "test"]).
    { intros w Hw. destruct (IHw w Hw) as (? & ?). split; [by right|done]. }
    destruct (Js.startsWith current "-") eqn:Hdash;
      [|destruct (Js.includes current "=") eqn:Heq;
        [|destruct (Js.arrayIncludes _ current) eqn:Hverb]];
      cbn [fst snd declareAfter pushParameter pushBuildSetting pushAction empty
           parameters buildSettings actions app];
      split_and!; try done.
    + intros p [->|?]%elem_of_cons; [by left|auto].
    + intros s [->|?]%elem_of_cons; [|auto]. cbn [key].
      destruct (split_head "=" current) as (head & pieces & Hsplit & Hsep & Hstart).
      rewrite Hsplit. cbn. split; [|done].
      change (Js.startsWith head "-" = false).
      by rewrite (Hstart "-"%char).
    + intros a [->|?]%elem_of_cons; [|auto].
      split; [|left]. by apply bool_decide_eq_true in Hverb.
    + intros w [->|?]%elem_of_cons; [|auto].
      split_and!; [left|done..|]. by apply bool_decide_eq_false in Hverb.
Qed.

(** Witness for X2: a flag with its value, and a token that is
    neither a flag, a setting nor a verb. *)
Lemma parsed_entries_witness :
  "Release" ∈ ["-configuration"; "Release"; "stray"]
  ∧ Js.includes "stray" "=" = false.
Proof.
  destruct (parsed_entries_come_from_tokens ["-configuration"; "Release"; "stray"])
    as (Hparameters & _ & _ & Hwarned).
  destruct (Hparameters {| arg := "-configuration"; value := "Release" |})
    as [Hsentinel|(Hin & _)]; [vm_compute; left|discriminate Hsentinel|].
  destruct (Hwarned "stray") as (_ & _ & Hequals & _); [vm_compute; left|].
  split; [exact Hin|exact Hequals].
Defined.

End ScanFacts.


(** ** Assembly of the command *)

Module AssemblyFacts.
Import XcodeCommandBuilder Reference MoreReference BuilderFacts ScanFacts.

Section Keys.
Context {A : Type} (k : A → string).

Lemma keepFirst_keys (l : list A) (y : string) :
  y ∈ map k (keepFirst k l) ↔ y ∈ map k l.
Proof.
  unfold keepFirst.
  by rewrite map_rev, elem_of_rev, keepLast_keys, map_rev, elem_of_rev.
Qed.

Lemma keepFirst_subset (l : list A) (x : A) : x ∈ keepFirst k l → x ∈ l.
Proof.
  unfold keepFirst. rewrite elem_of_rev. intros Hx%keepLast_subset.
  by apply elem_of_rev.
Qed.

Lemma keepLast_NoDup_id (l : list A) : NoDup (map k l) → keepLast k l = l.
Proof.
  induction l as [|x l IH]; simpl; [done|].
  intros [Hx Hl]%NoDup_cons. rewrite bool_decide_false by done.
  by rewrite IH.
Qed.

Lemma keepLast_idem (l : list A) : keepLast k (keepLast k l) = keepLast k l.
Proof. apply keepLast_NoDup_id, keepLast_NoDup. Qed.

Lemma filter_rev (P : A → Prop) `{!∀ x, Decision (P x)} (l : list A) :
  filter P (rev l) = rev (filter P l).
Proof.
  induction l as [|x l IH]; simpl; [done|].
  rewrite filter_app, IH.
  destruct (decide (P x)).
  - by rewrite !(filter_cons_True _ x) by done.
  - rewrite !(filter_cons_False _ x) by done. simpl. by rewrite app_nil_r.
Qed.

Lemma keepFirst_app (l1 l2 : list A) :
  keepFirst k (l1 ++ l2)
  = keepFirst k l1 ++ filter (fun x => k x ∉ map k l1) (keepFirst k l2).
Proof.
  unfold keepFirst.
  rewrite rev_app_distr, keepLast_app, rev_app_distr. f_equal.
  rewrite <- filter_rev. apply list_filter_iff.
  intros x. by rewrite map_rev, elem_of_rev.
Qed.

Lemma keepFirst_idem (l : list A) : keepFirst k (keepFirst k l) = keepFirst k l.
Proof.
  unfold keepFirst. by rewrite rev_involutive, keepLast_idem.
Qed.

(** Declaring again what was merged already changes nothing. *)
Lemma keepLast_again (l1 l2 : list A) :
  keepLast k (keepLast k (l1 ++ l2) ++ l2) = keepLast k (l1 ++ l2).
Proof.
  rewrite (keepLast_app k (keepLast k (l1 ++ l2)) l2), keepLast_idem.
  rewrite (keepLast_app k l1 l2).
  rewrite filter_app, list_filter_filter, <- app_assoc.
  f_equal; [apply list_filter_iff; tauto|].
  rewrite (filter_none _ (keepLast k l2)); [done|].
  intros x Hx%keepLast_subset Hout. apply Hout.
  apply list_elem_of_In, in_map, list_elem_of_In, Hx.
Qed.

Lemma keepFirst_again (l1 l2 : list A) :
  keepFirst k (keepFirst k (l1 ++ l2) ++ l2) = keepFirst k (l1 ++ l2).
Proof.
  rewrite (keepFirst_app (keepFirst k (l1 ++ l2))), keepFirst_idem.
  rewrite filter_none; [by rewrite app_nil_r|].
  intros x Hx%keepFirst_subset Hout. apply Hout, keepFirst_keys.
  rewrite map_app, elem_of_app. right.
  apply list_elem_of_In, in_map, list_elem_of_In, Hx.
Qed.

(** An entry declared in the later list decides what survives under
    its key. *)
Lemma later_declaration_wins (l1 l2 : list A) (x : A) :
  x ∈ l2 →
  ∃ q, q ∈ l2 ∧ k q = k x ∧ withKey k (k x) (keepLast k (l1 ++ l2)) = [q].
Proof.
  intros Hx.
  assert (Hkey : k x ∈ map k l2)
    by (apply list_elem_of_In, in_map, list_elem_of_In, Hx).
  destruct (last_declaration k l2 (k x) Hkey)
    as (pre & q & post & -> & Hq & Hpost).
  exists q. split_and!; [|done|].
  - rewrite elem_of_app. right. left.
  - rewrite <- Hq in Hpost |- *.
    rewrite (app_assoc l1 pre (q :: post)).
    by destruct (keepLast_at_last k (l1 ++ pre) post q Hpost) as [-> _].
Qed.

End Keys.

Lemma keepFirst_elem (l : list string) (x : string) :
  x ∈ keepFirst Datatypes.id l ↔ x ∈ l.
Proof.
  pose proof (keepFirst_keys Datatypes.id l x) as Hkeys.
  by rewrite !map_id in Hkeys.
Qed.

Lemma addAdditionalArgs_cases (args : list string) (b : t) :
  (args = [] ∧ addAdditionalArgs args b = declareAfter b (parsed args))
  ∨ (args ≠ [] ∧ addAdditionalArgs args b = dedup (declareAfter b (parsed args))).
Proof.
  destruct args as [|a args].
  - left. split; [done|]. by rewrite parsed_nil, declareAfter_empty.
  - right. split; [done|]. by apply addAdditionalArgs_nonempty.
Qed.

(** X3.  The merge loses no key and invents no entry: the build-setting
    keys, parameter flags and action verbs present after
    [addAdditionalArgs] are exactly those declared before or by the
    tokens, and every surviving build setting and parameter is one of the
    declared entries. *)
Theorem merge_keeps_every_key_and_invents_none (b : t) (args : list string) :
  let merged := declareAfter b (parsed args) in
  let built := addAdditionalArgs args b in
  (∀ k, k ∈ map key (buildSettings built) ↔ k ∈ map key (buildSettings merged))
  ∧ (∀ f, f ∈ map arg (parameters built) ↔ f ∈ map arg (parameters merged))
  ∧ (∀ a, a ∈ actions built ↔ a ∈ actions merged)
  ∧ (∀ s, s ∈ buildSettings built → s ∈ buildSettings merged)
  ∧ (∀ p, p ∈ parameters built → p ∈ parameters merged).
Proof.
  intros merged built. subst built.
  destruct (addAdditionalArgs_cases args b) as [[_ ->]|[_ ->]]; [done|].
  rewrite dedup_classes. fold merged. simpl. split_and!.
  - intros k. apply keepLast_keys.
  - intros f. apply keepLast_keys.
  - intros a. apply keepFirst_elem.
  - intros s. apply keepLast_subset.
  - intros p. apply keepLast_subset.
Qed.

(** Witness for X3: the setting that [build.args] gives survives and
    is the declared one. *)
Lemma merge_keeps_witness :
  {| key := "ONLY_ACTIVE_ARCH"; setting := "NO" |}
  ∈ buildSettings
      (declareAfter (buildAppDeclared MoreSamples.overridingBuild)
         (parsed ["-configuration"; "Release"; "ONLY_ACTIVE_ARCH=NO"])).
Proof.
  destruct (merge_keeps_every_key_and_invents_none
              (buildAppDeclared MoreSamples.overridingBuild)
              ["-configuration"; "Release"; "ONLY_ACTIVE_ARCH=NO"])
    as (_ & _ & _ & Hsettings & _).
  apply Hsettings. vm_compute. repeat first [by left|right].
Defined.

Lemma renderSetting_has_equals (s : BuildSetting) :
  Js.includes (renderSetting s) "=" = true.
Proof.
  unfold renderSetting. induction (key s) as [|c k IH].
  - change (Js.includes (String "=" (setting s)) "=" = true).
    cbn [Js.includes]. by rewrite prefix_one.
  - change (Js.includes (String c (k +:+ "=" +:+ setting s)) "=" = true).
    cbn [Js.includes]. rewrite IH. apply orb_true_r.
Qed.

Lemma renderParameter_sentinel (p : Param) :
  NO_VALUE ∈ renderParameter p → arg p = NO_VALUE.
Proof.
  unfold renderParameter.
  destruct (String.eqb_spec (value p) NO_VALUE) as [Hv|Hv].
  - by intros ->%list_elem_of_singleton.
  - intros [->|Hin%list_elem_of_singleton]%elem_of_cons; [done|].
    by destruct Hv.
Qed.

(** The sentinel stays out of the argument vector of a builder whose
    flags and actions are not the sentinel. *)
Lemma build_without_sentinel (b : t) :
  (∀ p, p ∈ parameters b → arg p ≠ NO_VALUE) →
  NO_VALUE ∉ actions b →
  NO_VALUE ∉ build b.
Proof.
  intros Hflags Hactions. unfold build.
  rewrite !elem_of_app. intros [Hx|[Hs|[Hp|Ha]]].
  - apply list_elem_of_singleton in Hx. discriminate Hx.
  - apply list_elem_of_In, in_map_iff in Hs as (s & Hs & _).
    pose proof (renderSetting_has_equals s) as Heq.
    rewrite Hs in Heq. discriminate Heq.
  - apply list_elem_of_In, in_concat in Hp as (rendered & Hin & Hx).
    apply in_map_iff in Hin as (p & <- & Hp).
    apply (Hflags p); [by apply list_elem_of_In|].
    by apply renderParameter_sentinel, list_elem_of_In.
  - done.
Qed.

Lemma wellFormed_empty : wellFormed empty.
Proof. split; intros x Hx; by apply elem_of_nil in Hx. Qed.

Lemma wellFormed_when (c : bool) (f : t → t) (b : t) :
  (∀ b', wellFormed b' → wellFormed (f b')) →
  wellFormed b → wellFormed (when c f b).
Proof. intros Hf Hb. destruct c; simpl; auto. Qed.

Lemma wellFormed_addBuildSettings (k v : string) (b : t) :
  wellFormed b → wellFormed (addBuildSettings k v b).
Proof. done. Qed.

Lemma wellFormed_addParameters (flag v : string) (b : t) :
  Js.startsWith flag "-" = true →
  wellFormed b → wellFormed (addParameters flag v b).
Proof.
  intros Hflag [Hp Ha]. split; [|done]. simpl.
  intros p [?|Hp'%list_elem_of_singleton]%elem_of_app; [auto|by subst].
Qed.

Lemma wellFormed_addOption (flag : string) (b : t) :
  Js.startsWith flag "-" = true →
  wellFormed b → wellFormed (addOption flag b).
Proof. apply wellFormed_addParameters. Qed.

Lemma wellFormed_addAction (a : string) (b : t) :
  a ∈ ["clean"; "build"; "test"] →
  wellFormed b → wellFormed (addAction a b).
Proof.
  intros Hverb [Hp Ha]. split; [done|]. simpl.
  intros a' [?|Ha'%list_elem_of_singleton]%elem_of_app; [auto|by subst].
Qed.

Lemma wellFormed_buildAppDeclared (o : BuildAppInput) :
  wellFormed (buildAppDeclared o).
Proof.
  unfold buildAppDeclared.
  repeat first
    [ apply wellFormed_when; [intros ? ?|]
    | apply wellFormed_addBuildSettings
    | apply wellFormed_addParameters; [reflexivity|]
    | apply wellFormed_addOption; [reflexivity|]
    | apply wellFormed_addAction;
        [apply (bool_decide_unpack _); vm_compute; exact I|]
    | apply wellFormed_empty
    | assumption ].
Qed.

Lemma wellFormed_parsed (args : list string) : wellFormed (parsed args).
Proof.
  induction args as [|current next rest Hpair [IHp IHa]
                     |current rest Hsingle [IHp IHa]] using scan_ind.
  - apply wellFormed_empty.
  - rewrite (parsed_pair _ _ _ Hpair).
    apply isPair_true in Hpair as (Hcur & _). split; simpl; [|done].
    intros p [->|?]%elem_of_cons; [done|auto].
  - rewrite (parsed_single _ _ Hsingle), classifySingle_empty.
    destruct (Js.startsWith current "-") eqn:Hdash;
      [|destruct (Js.includes current "=");
        [|destruct (Js.arrayIncludes _ current) eqn:Hverb]];
      split; simpl; try done.
    + intros p [->|?]%elem_of_cons; [done|auto].
    + intros a [->|?]%elem_of_cons; [|auto].
      by apply bool_decide_eq_true in Hverb.
Qed.

Lemma wellFormed_addAdditionalArgs (args : list string) (b : t) :
  wellFormed b → wellFormed (addAdditionalArgs args b).
Proof.
  intros [Hp Ha]. destruct (wellFormed_parsed args) as [Hpp Hpa].
  assert (Hmerged : wellFormed (declareAfter b (parsed args))).
  { split; simpl.
    - intros p [?|?]%elem_of_app; [by apply Hp|by apply Hpp].
    - intros a [?|?]%elem_of_app; [by apply Ha|by apply Hpa]. }
  destruct Hmerged as [Hmp Hma].
  destruct (addAdditionalArgs_cases args b) as [[_ ->]|[_ ->]]; [done|].
  rewrite dedup_classes. split; simpl.
  - intros p Hin%keepLast_subset. exact (Hmp p Hin).
  - intros a Hin. apply (proj1 (keepFirst_elem _ _)) in Hin.
    exact (Hma a Hin).
Qed.

(** X4.  The sentinel that marks a flag without a value never reaches
    the argument vector of [buildApp], whatever the options, the
    configuration and the additional arguments are. *)
Theorem sentinel_never_reaches_xcodebuild (o : BuildAppInput) :
  NO_VALUE ∉ buildAppCommandParts o.
Proof.
  unfold buildAppCommandParts, buildAppCommand.
  destruct (wellFormed_addAdditionalArgs (additionalArgs o) (buildAppDeclared o)
              (wellFormed_buildAppDeclared o)) as [Hflags Hactions].
  apply build_without_sentinel.
  - intros p Hp Heq. apply Hflags in Hp. rewrite Heq in Hp. discriminate Hp.
  - intros Hin. apply Hactions in Hin.
    apply (bool_decide_pack _) in Hin. vm_compute in Hin. exact Hin.
Qed.

(** X5.  The additional arguments override the structured declarations:
    for a flag or a build-setting key that a token declares, the entry
    that survives [addAdditionalArgs] is one that the tokens declared,
    whatever the builder held under that key before. *)
Theorem additional_args_override_declared (b : t) (args : list string) :
  (∀ p, p ∈ parameters (parsed args) →
     ∃ q, q ∈ parameters (parsed args) ∧ arg q = arg p
          ∧ withKey arg (arg p) (parameters (addAdditionalArgs args b)) = [q])
  ∧ (∀ s, s ∈ buildSettings (parsed args) →
       ∃ q, q ∈ buildSettings (parsed args) ∧ key q = key s
            ∧ withKey key (key s) (buildSettings (addAdditionalArgs args b)) = [q]).
Proof.
  destruct (addAdditionalArgs_cases args b) as [[-> _]|[_ ->]].
  - rewrite parsed_nil. split; intros x Hx; by apply elem_of_nil in Hx.
  - rewrite dedup_classes. simpl. split.
    + intros p Hp. by apply later_declaration_wins.
    + intros s Hs. by apply later_declaration_wins.
Qed.

(** Witness for X5: [build.args] with [-configuration Release] and
    [ONLY_ACTIVE_ARCH=NO] against a debug build that declares both. *)
Lemma additional_args_override_witness :
  withKey arg "-configuration"
    (parameters (buildAppCommand MoreSamples.overridingBuild))
  = [ {| arg := "-configuration"; value := "Release" |} ]
  ∧ withKey key "ONLY_ACTIVE_ARCH"
      (buildSettings (buildAppCommand MoreSamples.overridingBuild))
    = [ {| key := "ONLY_ACTIVE_ARCH"; setting := "NO" |} ].
Proof.
  destruct (additional_args_override_declared
              (buildAppDeclared MoreSamples.overridingBuild)
              ["-configuration"; "Release"; "ONLY_ACTIVE_ARCH=NO"])
    as [Hparams Hsettings].
  split.
  - destruct (Hparams {| arg := "-configuration"; value := "Release" |})
      as (q & Hq & _ & Honce); [vm_compute; left|].
    vm_compute in Hq. apply list_elem_of_singleton in Hq as ->.
    exact Honce.
  - destruct (Hsettings {| key := "ONLY_ACTIVE_ARCH"; setting := "NO" |})
      as (q & Hq & _ & Honce); [vm_compute; left|].
    vm_compute in Hq. apply list_elem_of_singleton in Hq as ->.
    exact Honce.
Defined.

(** X6.  Merging the same additional arguments a second time changes
    nothing. *)
Theorem addAdditionalArgs_twice (args : list string) (b : t) :
  addAdditionalArgs args (addAdditionalArgs args b) = addAdditionalArgs args b.
Proof.
  destruct (addAdditionalArgs_cases args b) as [[-> _]|[Hne Hfirst]]; [done|].
  rewrite (addAdditionalArgs_nonempty args _ Hne), Hfirst.
  rewrite !dedup_classes. unfold declareAfter. simpl. f_equal.
  - apply keepLast_again.
  - apply keepLast_again.
  - apply keepFirst_again.
Qed.

End AssemblyFacts.


(** ** The line buffer of the terminal *)

Module TerminalFacts.
Import Terminal MoreReference.

Lemma append_cons (c : ascii) (a b : string) :
  String c a +:+ b = String c (a +:+ b).
Proof. reflexivity. Qed.

Lemma append_empty_l (a : string) : "" +:+ a = a.
Proof. reflexivity. Qed.

Lemma append_empty_r (a : string) : a +:+ "" = a.
Proof. induction a as [|c a IH]; [done|]. by rewrite append_cons, IH. Qed.

Lemma append_assoc (a b c : string) : (a +:+ b) +:+ c = a +:+ (b +:+ c).
Proof. induction a as [|d a IH]; [done|]. by rewrite !append_cons, IH. Qed.

Lemma split_nonempty (sep : ascii) (s : string) : Js.split sep s ≠ [].
Proof.
  destruct s as [|c s]; [done|]. cbn [Js.split].
  destruct (Ascii.eqb c sep); [done|]. by destruct (Js.split sep s).
Qed.

Lemma split_cons_sep (sep : ascii) (s : string) :
  Js.split sep (String sep s) = "" :: Js.split sep s.
Proof. cbn [Js.split]. by rewrite Ascii.eqb_refl. Qed.

Lemma split_cons_other (sep c : ascii) (s : string) :
  c ≠ sep →
  ∃ head pieces,
    Js.split sep s = head :: pieces
    ∧ Js.split sep (String c s) = String c head :: pieces.
Proof.
  intros Hc. cbn [Js.split]. rewrite (proj2 (Ascii.eqb_neq c sep) Hc).
  pose proof (split_nonempty sep s) as Hne.
  destruct (Js.split sep s) as [|head pieces]; [done|]. by exists head, pieces.
Qed.

(** Cutting a text in two: the pieces of the whole are the complete
    pieces of the first part, then the pieces of its unfinished piece
    continued by the second part. *)
Lemma split_append (sep : ascii) (x y : string) :
  Js.split sep (x +:+ y)
  = removelast (Js.split sep x)
    ++ Js.split sep (default "" (last (Js.split sep x)) +:+ y).
Proof.
  induction x as [|c x IH]; [done|].
  rewrite append_cons.
  destruct (Ascii.eqb_spec c sep) as [->|Hc].
  - rewrite !split_cons_sep, IH.
    pose proof (split_nonempty sep x) as Hne.
    destruct (Js.split sep x) as [|p ps]; [done|]. done.
  - destruct (split_cons_other sep c (x +:+ y) Hc) as (h & t & Hxy & ->).
    destruct (split_cons_other sep c x Hc) as (p & ps & Hx & ->).
    rewrite Hx in IH. rewrite IH in Hxy.
    destruct ps as [|q ps].
    + cbn in Hxy |- *. rewrite append_cons.
      destruct (split_cons_other sep c (p +:+ y) Hc) as (h' & t' & Hpy & ->).
      rewrite Hpy in Hxy. by injection Hxy as -> ->.
    + cbn [removelast last default app] in Hxy |- *.
      change (last (String c p :: q :: ps)) with (last (q :: ps)).
      change (last (p :: q :: ps)) with (last (q :: ps)) in Hxy.
      by injection Hxy as -> ->.
Qed.

Lemma last_after (A : Type) (l1 l2 : list A) :
  l2 ≠ [] → last (l1 ++ l2) = last l2.
Proof.
  intros Hne. destruct l2 as [|x l2]; [done|]. apply last_app_cons.
Qed.

(** No piece of a split contains the separator. *)
Lemma split_pieces (sep : ascii) (s piece : string) :
  piece ∈ Js.split sep s → Js.includes piece (String sep "") = false.
Proof.
  revert piece. induction s as [|c s IH]; intros piece.
  - by intros ->%list_elem_of_singleton.
  - destruct (Ascii.eqb_spec c sep) as [->|Hc].
    + rewrite split_cons_sep. intros [->|?]%elem_of_cons; [done|auto].
    + destruct (split_cons_other sep c s Hc) as (h & t & Hs & ->).
      rewrite Hs in IH.
      intros [->|Hin]%elem_of_cons.
      * cbn [Js.includes]. rewrite (IH h) by left.
        rewrite ScanFacts.prefix_one, orb_false_r.
        apply Ascii.eqb_neq. congruence.
      * apply IH. by right.
Qed.

(** A text without separator is its own single piece. *)
Lemma split_whole (sep : ascii) (s : string) :
  Js.includes s (String sep "") = false → Js.split sep s = [s].
Proof.
  induction s as [|c s IH]; [done|].
  cbn [Js.includes]. rewrite ScanFacts.prefix_one.
  intros [Hc Hs]%orb_false_iff. apply Ascii.eqb_neq in Hc.
  destruct (split_cons_other sep c s) as (h & t & Hsplit & ->); [congruence|].
  rewrite (IH Hs) in Hsplit. by injection Hsplit as <- <-.
Qed.

(** The complete pieces, each closed by the separator, and the last
    piece give the text back. *)
Lemma terminated_split (s : string) :
  terminated (removelast (Js.split LF s))
    +:+ default "" (last (Js.split LF s)) = s.
Proof.
  induction s as [|c s IH]; [done|].
  pose proof (split_nonempty LF s) as Hne.
  destruct (Ascii.eqb_spec c LF) as [->|Hc].
  - rewrite split_cons_sep.
    destruct (Js.split LF s) as [|p ps] eqn:Hs; [done|].
    change (removelast ("" :: p :: ps)) with ("" :: removelast (p :: ps)).
    rewrite last_cons_cons. cbn [terminated].
    by rewrite append_empty_l, append_cons, IH.
  - destruct (split_cons_other LF c s Hc) as (h & t & Hs & ->).
    rewrite Hs in IH. destruct t as [|q t].
    + cbn in IH |- *. rewrite append_empty_l in IH |- *. by rewrite IH.
    + change (removelast (String c h :: q :: t))
        with (String c h :: removelast (q :: t)).
      change (removelast (h :: q :: t)) with (h :: removelast (q :: t)) in IH.
      rewrite last_cons_cons in IH |- *. cbn [terminated] in IH |- *.
      rewrite append_assoc in IH |- *. rewrite append_cons. by rewrite IH.
Qed.

Lemma appendAll_from (chunks : list string) (lb : LineBuffer) :
  enabled lb = true →
  Js.includes (buffer lb) (String LF "") = false →
  appendAll chunks lb
  = ({| buffer := default "" (last (Js.split LF (buffer lb +:+ concatStrings chunks)));
        enabled := true |},
     removelast (Js.split LF (buffer lb +:+ concatStrings chunks))).
Proof.
  revert lb. induction chunks as [|chunk chunks IH]; intros [b e] He Hb;
    simpl in He, Hb; subst e.
  - cbn [appendAll concatStrings buffer]. rewrite append_empty_r.
    by rewrite (split_whole LF b Hb).
  - cbn [appendAll concatStrings buffer]. unfold append. cbn [enabled negb buffer].
    pose proof (split_nonempty LF (b +:+ chunk)) as Hne.
    assert (Hlast : Js.includes (default "" (last (Js.split LF (b +:+ chunk))))
                      (String LF "") = false).
    { destruct (last (Js.split LF (b +:+ chunk))) as [p|] eqn:Hl; [|done].
      apply (split_pieces LF (b +:+ chunk)). by apply last_Some_elem_of. }
    rewrite IH by done. cbn [buffer].
    rewrite <- append_assoc, (split_append LF (b +:+ chunk)).
    pose proof (split_nonempty LF
      (default "" (last (Js.split LF (b +:+ chunk))) +:+ concatStrings chunks)).
    by rewrite last_after, removelast_app.
Qed.

(** X7.  The lines that [LineBuffer] hands to its callback do not depend
    on how the output arrives in chunks: after any sequence of [append]
    calls on a fresh enabled buffer they are the complete lines of the
    whole text, the buffer holds the unfinished rest, no line and no
    buffer contains a line feed, and lines and buffer give the text
    back. *)
Theorem line_buffer_ignores_chunking (chunks : list string) :
  let text := concatStrings chunks in
  let result := appendAll chunks (create true) in
  snd result = removelast (Js.split LF text)
  ∧ buffer (fst result) = default "" (last (Js.split LF text))
  ∧ terminated (snd result) +:+ buffer (fst result) = text
  ∧ (∀ line, line ∈ snd result → Js.includes line (String LF "") = false)
  ∧ Js.includes (buffer (fst result)) (String LF "") = false.
Proof.
  intros text result. subst result.
  rewrite (appendAll_from chunks (create true)) by done.
  cbn [fst snd buffer create]. rewrite append_empty_l. fold text.
  pose proof (split_nonempty LF text) as Hne.
  split_and!; [done|done|apply terminated_split| |].
  - intros line Hin. apply (split_pieces LF text).
    apply list_elem_of_In in Hin. apply list_elem_of_In.
    destruct (exists_last Hne) as (front & final & Hsplit).
    rewrite Hsplit in Hin |- *. rewrite removelast_last in Hin.
    apply in_or_app. by left.
  - destruct (last (Js.split LF text)) as [p|] eqn:Hl; [|done].
    apply (split_pieces LF text). by apply last_Some_elem_of.
Qed.

(** Witness for X7: a line that arrives in two chunks. *)
Lemma line_buffer_witness :
  Js.includes "ab" (String LF "") = false.
Proof.
  destruct (line_buffer_ignores_chunking ["a"; "b" +:+ String LF "cd"])
    as (_ & _ & _ & Hlines & _).
  apply Hlines. vm_compute. left.
Defined.

Lemma appendAll_disabled (chunks : list string) (lb : LineBuffer) :
  enabled lb = false → appendAll chunks lb = (lb, []).
Proof.
  intros He. induction chunks as [|chunk chunks IH]; [done|].
  cbn [appendAll]. unfold append. rewrite He. cbn [negb]. by rewrite IH.
Qed.

(** X8.  [append] calls followed by [flush] deliver the whole text: on a
    fresh enabled buffer the callback receives the pieces of the text
    between line feeds, in order, without the last piece when that one
    is empty; the buffer is then empty and a second [flush] delivers
    nothing.  A disabled buffer delivers nothing and stays as it is. *)
Theorem append_then_flush_delivers_the_text (chunks : list string) :
  let pieces := Js.split LF (concatStrings chunks) in
  let appended := appendAll chunks (create true) in
  let flushed := flush (fst appended) in
  snd appended ++ snd flushed
  = (if Js.truthy (default "" (last pieces)) then pieces else removelast pieces)
  ∧ buffer (fst flushed) = ""
  ∧ flush (fst flushed) = (fst flushed, [])
  ∧ appendAll chunks (create false) = (create false, [])
  ∧ flush (create false) = (create false, []).
Proof.
  intros pieces appended flushed. subst appended flushed.
  rewrite (appendAll_from chunks (create true)) by done.
  cbn [fst snd buffer create]. rewrite append_empty_l. fold pieces.
  assert (Hpieces : pieces = removelast pieces ++ [default "" (last pieces)]).
  { pose proof (split_nonempty LF (concatStrings chunks)) as Hne. fold pieces in Hne.
    destruct (exists_last Hne) as (front & final & ->).
    by rewrite removelast_last, last_snoc. }
  unfold flush. cbn [enabled negb buffer].
  destruct (default "" (last pieces)) as [|c rest] eqn:Hlast; cbn [Js.truthy fst snd buffer].
  - rewrite app_nil_r. split_and!; [done..|by apply appendAll_disabled|done].
  - split_and!; [by rewrite Hpieces at 2|done..|by apply appendAll_disabled|done].
Qed.

End TerminalFacts.


(** ** The pickers *)

Module PickerMore.
Import Context Pickers MoreReference PickerFacts.

Lemma sameMemory_refl (r : Runtime) : sameMemory r r.
Proof. done. Qed.

Lemma sameMemory_asked (prompt : string) (r : Runtime) :
  sameMemory r (asked prompt r).
Proof. done. Qed.

(** What [fzfPick] does, case by case. *)
Lemma fzfPick_cases {T : Type} (W : World) (prompt : string)
    (items : list (string * T)) (r : Runtime) :
  snd (fzfPick W prompt items r) = asked prompt r
  ∧ match fst (fzfPick W prompt items r) with
    | inr v => v ∈ map snd items
    | inl _ => True
    end.
Proof.
  unfold fzfPick, bind, logFzf, throw, ret, asked. cbn [snd fst].
  destruct items as [|item [|item' items]]; cbn [fst snd]; [done| |].
  - split; [done|]. left.
  - destruct (fzf W prompt _) as [| | |[index|]]; cbn [fst snd]; [done..| |done].
    destruct (_ !! index) as [chosen|] eqn:Hchosen; cbn [fst snd]; [|done].
    split; [done|].
    apply list_elem_of_In, in_map, list_elem_of_In.
    by apply list_elem_of_lookup_2 in Hchosen.
Qed.

(** X9.  [fzfPick] offers nothing it was not given: with no item it
    throws, with one item it returns that item's value without running
    [fzf], and whatever [fzf] prints, a value that it returns is the
    value of one of the items; it touches the runtime only by being
    asked. *)
Theorem fzfPick_returns_an_offered_value {T : Type} (W : World) (prompt : string)
    (items : list (string * T)) (r : Runtime) :
  (items = [] →
     fzfPick W prompt items r
     = (inl (ExtensionError "No items available for selection"), asked prompt r))
  ∧ (∀ item, items = [item] →
       fzfPick W prompt items r = (inr (snd item), asked prompt r))
  ∧ (∀ v r', fzfPick W prompt items r = (inr v, r') →
       v ∈ map snd items ∧ r' = asked prompt r)
  ∧ snd (fzfPick W prompt items r) = asked prompt r.
Proof.
  destruct (fzfPick_cases W prompt items r) as [Hstate Hvalue].
  split_and!; [by intros ->|by intros item ->| |done].
  intros v r' Hpick. rewrite Hpick in Hstate, Hvalue. by cbn in *.
Qed.

(** Witness for X9: the two schemes of the sample, the user picking the
    first line. *)
Lemma fzfPick_witness :
  let items := [("MyApp", "MyApp"); ("MyAppTests", "MyAppTests")] in
  let r := Samples.runtimeWith ∅ in
  fzfPick Samples.world "Select scheme" items r
  = (inr "MyApp", asked "Select scheme" r)
  ∧ "MyApp" ∈ map snd items.
Proof.
  intros items r.
  destruct (fzfPick_returns_an_offered_value Samples.world "Select scheme" items r)
    as (_ & _ & Hin & _).
  assert (Hpick : fzfPick Samples.world "Select scheme" items r
                  = (inr "MyApp", asked "Select scheme" r))
    by (vm_compute; reflexivity).
  split; [exact Hpick|]. exact (proj1 (Hin _ _ Hpick)).
Defined.

Lemma insertByDepth_perm (p : string) (sorted : list string) :
  insertByDepth p sorted ≡ₚ p :: sorted.
Proof.
  induction sorted as [|q sorted IH]; simpl; [done|].
  destruct (_ <=? _)%nat; [|done]. rewrite IH. apply Permutation_swap.
Qed.

Lemma insertByDepth_sorted (p : string) (sorted : list string) :
  StronglySorted shallower sorted →
  StronglySorted shallower (insertByDepth p sorted).
Proof.
  induction 1 as [|q sorted Hsorted IH Hq]; simpl.
  - repeat constructor.
  - destruct (Nat.leb_spec (pathDepth q) (pathDepth p)) as [Hle|Hlt].
    + constructor; [done|]. rewrite insertByDepth_perm. by constructor.
    + constructor; [by constructor|]. constructor.
      * unfold shallower. lia.
      * eapply Forall_impl; [exact Hq|]. unfold shallower. intros x. lia.
Qed.

Lemma insertByDepth_stable (n : nat) (p : string) (sorted : list string) :
  StronglySorted shallower sorted →
  atDepth n (insertByDepth p sorted) = atDepth n sorted ++ atDepth n [p].
Proof.
  unfold atDepth. induction 1 as [|q sorted Hsorted IH Hq]; simpl; [done|].
  destruct (Nat.leb_spec (pathDepth q) (pathDepth p)) as [Hle|Hlt].
  - destruct (decide (pathDepth q = n)).
    + rewrite !(filter_cons_True _ q) by done. by rewrite IH.
    + rewrite !(filter_cons_False _ q) by done. by rewrite IH.
  - destruct (decide (pathDepth p = n)) as [Hp|Hp].
    + rewrite !(filter_cons_True _ p) by done.
      rewrite (BuilderFacts.filter_none _ (q :: sorted)); [done|].
      intros x Hx Hn. apply elem_of_cons in Hx as [->|Hx]; [lia|].
      rewrite Forall_forall in Hq. specialize (Hq x Hx).
      unfold shallower in Hq. lia.
    + rewrite !(filter_cons_False _ p) by done.
      by rewrite filter_nil, app_nil_r.
Qed.

Lemma sortFrom (paths acc : list string) :
  StronglySorted shallower acc →
  fold_left (fun sorted p => insertByDepth p sorted) paths acc ≡ₚ acc ++ paths
  ∧ StronglySorted shallower
      (fold_left (fun sorted p => insertByDepth p sorted) paths acc)
  ∧ ∀ n, atDepth n (fold_left (fun sorted p => insertByDepth p sorted) paths acc)
         = atDepth n acc ++ atDepth n paths.
Proof.
  revert acc. induction paths as [|p paths IH]; intros acc Hacc; simpl.
  - split_and!; [by rewrite app_nil_r|done|].
    intros n. unfold atDepth. by rewrite filter_nil, app_nil_r.
  - destruct (IH (insertByDepth p acc) (insertByDepth_sorted p acc Hacc))
      as (Hperm & Hsorted & Hstable).
    split_and!; [|done|].
    + rewrite Hperm, insertByDepth_perm. simpl. apply Permutation_middle.
    + intros n. rewrite Hstable, insertByDepth_stable by done.
      unfold atDepth. rewrite <- app_assoc. f_equal.
      by rewrite <- filter_app.
Qed.


(** *** The plain pickers *)

Lemma pickScheme_cases (W : World) (prompt : option string) (r : Runtime) :
  sameMemory r (snd (pickScheme W prompt r))
  ∧ match fst (pickScheme W prompt r) with
    | inr s => s ∈ getSchemes W
    | inl _ => True
    end.
Proof.
  unfold pickScheme.
  destruct (getSchemes W) as [|s [|s' schemes]] eqn:Hschemes;
    [done|split; [done|left]|].
  destruct (fzfPick_cases W (default "Select scheme" prompt)
              (map (fun scheme => (scheme, scheme)) (s :: s' :: schemes)) r)
    as [Hstate Hvalue].
  rewrite Hstate. split; [done|].
  destruct (fst (fzfPick _ _ _ _)) as [e|v]; [done|].
  by rewrite map_map, map_id in Hvalue.
Qed.

Lemma debugReleasePair_has_debug (configurations : list string) :
  isDebugReleasePair configurations = true →
  DEFAULT_DEBUG_CONFIGURATION ∈ configurations.
Proof.
  unfold isDebugReleasePair. rewrite !andb_true_iff.
  intros [[_ Hdebug] _]. apply existsb_exists in Hdebug as (c & Hin & Heq).
  apply String.eqb_eq in Heq as <-. by apply list_elem_of_In.
Qed.

Lemma pickConfiguration_cases (W : World) (r : Runtime) :
  sameMemory r (snd (pickConfiguration W r))
  ∧ match fst (pickConfiguration W r) with
    | inr s => s ∈ getBuildConfigurations W
               ∨ (getBuildConfigurations W = [] ∧ s = DEFAULT_DEBUG_CONFIGURATION)
    | inl _ => True
    end.
Proof.
  unfold pickConfiguration.
  destruct (getBuildConfigurations W) as [|c [|c' cs]] eqn:Hconfigs;
    [split; [done|by right]|split; [done|left; left]|].
  destruct (isDebugReleasePair (c :: c' :: cs)) eqn:Hpair.
  - split; [done|]. left. by apply debugReleasePair_has_debug.
  - destruct (fzfPick_cases W "Select configuration"
                (map (fun configuration => (configuration, configuration))
                     (c :: c' :: cs)) r)
      as [Hstate Hvalue].
    rewrite Hstate. split; [done|].
    destruct (fst (fzfPick _ _ _ _)) as [e|v]; [done|].
    left. by rewrite map_map, map_id in Hvalue.
Qed.

Lemma pickXcodeWorkspacePath_cases (P : Platform) (W : World)
    (workspacePath : string) (r : Runtime) :
  sameMemory r (snd (pickXcodeWorkspacePath P W workspacePath r))
  ∧ match fst (pickXcodeWorkspacePath P W workspacePath r) with
    | inr s => s ∈ detectXcodeWorkspacesPaths W
    | inl _ => True
    end.
Proof.
  unfold pickXcodeWorkspacePath.
  destruct (detectXcodeWorkspacesPaths W) as [|s [|s' paths]] eqn:Hpaths;
    [done|split; [done|left]|].
  destruct (fzfPick_cases W "Select xcode workspace"
              (map (fun xcPath => (path_relative P workspacePath xcPath, xcPath))
                   (sortByDepth (s :: s' :: paths))) r)
    as [Hstate Hvalue].
  rewrite Hstate. split; [done|].
  destruct (fst (fzfPick _ _ _ _)) as [e|v]; [done|].
  rewrite map_map, map_id in Hvalue.
  destruct (sortFrom (s :: s' :: paths) []) as (Hperm & _); [constructor|].
  unfold sortByDepth in Hvalue. by rewrite Hperm in Hvalue.
Qed.

Lemma pickDestination_cases (W : World) (r : Runtime) :
  sameMemory r (snd (pickDestination W r))
  ∧ match fst (pickDestination W r) with
    | inr d => d ∈ (splitSupportedDestinatinos (listDestinations W)
                      (supportedPlatforms W)).1
                   ++ (splitSupportedDestinatinos (listDestinations W)
                         (supportedPlatforms W)).2
    | inl _ => True
    end.
Proof.
  unfold pickDestination.
  destruct (splitSupportedDestinatinos _ _) as [supported unsupported].
  cbn [fst snd].
  set (items := map (fun d => (formatDestinationLabel d, d)) supported
                ++ map (fun d => (formatDestinationLabel d +:+ " [unsupported]", d))
                       unsupported).
  assert (Hitems : map snd items = supported ++ unsupported).
  { unfold items. by rewrite map_app, !map_map, !map_id. }
  destruct (fzfPick_cases W "Select destination" items r) as [Hstate Hvalue].
  rewrite Hitems in Hvalue.
  destruct supported, unsupported; try done; by rewrite Hstate.
Qed.

(** *** The smart pickers *)

(** The plain picker followed by the write of its choice. *)
Lemma pick_then_remember {A : Type} (key : string) (toJson : A → JSON)
    (available : A → Prop) (pick : M A) (r : Runtime) :
  sameMemory r (snd (pick r)) →
  match fst (pick r) with inr a => available a | inl _ => True end →
  smartOutcome key toJson available r
    ((selected <- pick ;; setRememberedValue key (toJson selected) ;;; ret selected)%cli r).
Proof.
  unfold bind, smartOutcome. destruct (pick r) as [[e|a] r1]; cbn [fst snd].
  - intros Hsame _. right. left. by exists e, r1.
  - intros Hsame Ha. right. right. by exists a, r1.
Qed.

Lemma findRemembered_elem (remembered : option JSON) (names : list string)
    (s : string) :
  findRemembered remembered names = Some s → s ∈ names.
Proof.
  unfold findRemembered. destruct remembered as [v|]; [|done].
  destruct (truthy v); [|done].
  intros [Hin _]%find_some. by apply list_elem_of_In.
Qed.

Lemma rememberedPath_elem (remembered : option JSON) (paths : list string)
    (s : string) :
  rememberedPath remembered paths = Some s → s ∈ paths.
Proof.
  unfold rememberedPath. destruct remembered as [[| | |s'| |]|]; try done.
  destruct (Js.truthy s'); [|done]. cbn [andb]. unfold Js.arrayIncludes.
  case_bool_decide; [|done]. by intros [= <-].
Qed.

Lemma rememberedDestination_elem (rememberedId : option JSON)
    (supported unsupported : list Destination) (d : Destination) :
  rememberedDestination rememberedId supported unsupported = Some d →
  d ∈ supported.
Proof.
  unfold rememberedDestination. destruct rememberedId as [v|]; [|done].
  destruct (truthy v); [|done].
  destruct (find _ _) as [d'|]; [|done].
  case_bool_decide; [|done]. by intros [= <-].
Qed.

Lemma pickSchemeSmart_outcome (W : World) (prompt : option string) (r : Runtime) :
  smartOutcome "cli.scheme" JString (fun s => s ∈ getSchemes W) r
    (pickSchemeSmart W prompt r).
Proof.
  unfold pickSchemeSmart at 1, bind at 1, getRememberedValue.
  destruct (getSchemes W) as [|s0 schemes] eqn:Hschemes.
  - right. left. by eexists _, r.
  - destruct (findRemembered _ _) as [s|] eqn:Hfind.
    + left. exists s. split; [done|]. by apply findRemembered_elem in Hfind.
    + rewrite <- Hschemes.
      apply (pick_then_remember "cli.scheme" JString _ (pickScheme W prompt));
        apply pickScheme_cases.
Qed.

Lemma pickConfigurationSmart_outcome (W : World) (r : Runtime) :
  smartOutcome "cli.configuration" JString
    (fun s => s ∈ getBuildConfigurations W
              ∨ (getBuildConfigurations W = [] ∧ s = DEFAULT_DEBUG_CONFIGURATION)) r
    (pickConfigurationSmart W r).
Proof.
  unfold pickConfigurationSmart at 1, bind at 1, getRememberedValue.
  destruct (getBuildConfigurations W) as [|c [|c' cs]] eqn:Hconfigs.
  - left. exists DEFAULT_DEBUG_CONFIGURATION. split; [done|by right].
  - left. exists c. split; [done|]. left. left.
  - destruct (isDebugReleasePair _) eqn:Hpair.
    + left. exists DEFAULT_DEBUG_CONFIGURATION. split; [done|]. left.
      by apply debugReleasePair_has_debug.
    + destruct (findRemembered _ _) as [s|] eqn:Hfind.
      * left. exists s. split; [done|]. left.
        by apply findRemembered_elem in Hfind.
      * rewrite <- Hconfigs.
        apply (pick_then_remember "cli.configuration" JString _
                 (pickConfiguration W));
          apply pickConfiguration_cases.
Qed.

Lemma pickXcodeWorkspacePathSmart_outcome (P : Platform) (W : World)
    (workspacePath : string) (r : Runtime) :
  smartOutcome "cli.xcworkspace" JString
    (fun s => s ∈ detectXcodeWorkspacesPaths W) r
    (pickXcodeWorkspacePathSmart P W workspacePath r).
Proof.
  unfold pickXcodeWorkspacePathSmart at 1, bind at 1, getRememberedValue.
  destruct (detectXcodeWorkspacesPaths W) as [|s0 paths] eqn:Hpaths.
  - right. left. by eexists _, r.
  - destruct (rememberedPath _ _) as [s|] eqn:Hfind.
    + left. exists s. split; [done|]. by apply rememberedPath_elem in Hfind.
    + destruct paths as [|s1 paths].
      * left. exists s0. split; [done|]. left.
      * rewrite <- Hpaths.
        apply (pick_then_remember "cli.xcworkspace" JString _
                 (pickXcodeWorkspacePath P W workspacePath));
          apply pickXcodeWorkspacePath_cases.
Qed.

Lemma pickDestinationSmart_outcome (W : World) (r : Runtime) :
  smartOutcome "cli.destination.id" (fun d => JString (id d))
    (fun d => d ∈ (splitSupportedDestinatinos (listDestinations W)
                     (supportedPlatforms W)).1
                  ++ (splitSupportedDestinatinos (listDestinations W)
                        (supportedPlatforms W)).2) r
    (pickDestinationSmart W r).
Proof.
  pose proof (pickDestination_cases W r) as [Hsame Hvalue].
  unfold pickDestinationSmart at 1, bind at 1, getRememberedValue.
  destruct (splitSupportedDestinatinos _ _) as [supported unsupported].
  cbn [fst snd] in *.
  assert (Hremembered : ∀ d,
    rememberedDestination
      (State.getRememberedValue (persistentState r) "cli.destination.id")
      supported unsupported = Some d →
    d ∈ supported ++ unsupported).
  { intros d Hd%rememberedDestination_elem. apply elem_of_app. by left. }
  destruct (rememberedDestination _ supported unsupported) as [d|].
  - destruct supported as [|d0 supported]; [destruct unsupported as [|u0 unsupported]|].
    + right. left. by eexists _, r.
    + left. exists d. split; [done|]. by apply Hremembered.
    + left. exists d. split; [done|]. by apply Hremembered.
  - destruct supported as [|d0 supported]; [destruct unsupported as [|u0 unsupported]|].
    + right. left. by eexists _, r.
    + by apply (pick_then_remember "cli.destination.id"
                  (fun d => JString (id d)) _ (pickDestination W)).
    + by apply (pick_then_remember "cli.destination.id"
                  (fun d => JString (id d)) _ (pickDestination W)).
Qed.

Section Outcome.
Context {A : Type} (key : string) (toJson : A → JSON) (available : A → Prop).
Context (r : Runtime) (result : (Error + A) * Runtime).
Hypothesis Houtcome : smartOutcome key toJson available r result.

Lemma outcome_available (a : A) (r' : Runtime) :
  result = (inr a, r') → available a.
Proof using Houtcome.
  destruct Houtcome as [(a0 & -> & Ha)|[(e & r1 & -> & _)|(a0 & r1 & -> & Ha & _)]];
    by intros [= <- <-].
Qed.

Lemma outcome_error (e : Error) (r' : Runtime) :
  result = (inl e, r') → sameMemory r r'.
Proof using Houtcome.
  destruct Houtcome as [(a0 & -> & Ha)|[(e0 & r1 & -> & Hsame)|(a0 & r1 & -> & _)]];
    by intros [= <- <-].
Qed.

Lemma outcome_write (a : A) (r' : Runtime) :
  result = (inr a, r') →
  r' = r
  ∨ (persistentState r' = <[key := toJson a]> (persistentState r)
     ∧ stateDirty r' = true
     ∧ rememberLog r' = rememberLog r ++ [(key, toJson a)]).
Proof using Houtcome.
  destruct Houtcome
    as [(a0 & -> & Ha)|[(e0 & r1 & -> & _)|(a0 & r1 & -> & _ & Hp & _ & Hl)]];
    intros [= <- <-]; [by left|right].
  unfold remembering, setRememberedValue, State.setRememberedValue. cbn.
  by rewrite Hp, Hl.
Qed.

End Outcome.

(** X10.  A smart picker returns only what is there now: a workspace
    file among those found, a scheme among the schemes, a destination of
    one of the two partitions, and a configuration among the
    configurations, or Debug when there is none. *)
Theorem smart_pickers_return_available_options (P : Platform) (W : World)
    (workspacePath : string) (prompt : option string) (r : Runtime) :
  (∀ s r', pickXcodeWorkspacePathSmart P W workspacePath r = (inr s, r') →
     s ∈ detectXcodeWorkspacesPaths W)
  ∧ (∀ s r', pickSchemeSmart W prompt r = (inr s, r') → s ∈ getSchemes W)
  ∧ (∀ s r', pickConfigurationSmart W r = (inr s, r') →
       s ∈ getBuildConfigurations W
       ∨ (getBuildConfigurations W = [] ∧ s = DEFAULT_DEBUG_CONFIGURATION))
  ∧ (∀ d r', pickDestinationSmart W r = (inr d, r') →
       d ∈ (splitSupportedDestinatinos (listDestinations W)
              (supportedPlatforms W)).1
           ++ (splitSupportedDestinatinos (listDestinations W)
                 (supportedPlatforms W)).2).
Proof.
  split_and!; intros a r' Hpick.
  - exact (outcome_available _ _ _ _ _
             (pickXcodeWorkspacePathSmart_outcome P W workspacePath r) a r' Hpick).
  - exact (outcome_available _ _ _ _ _
             (pickSchemeSmart_outcome W prompt r) a r' Hpick).
  - exact (outcome_available _ _ _ _ _
             (pickConfigurationSmart_outcome W r) a r' Hpick).
  - exact (outcome_available _ _ _ _ _
             (pickDestinationSmart_outcome W r) a r' Hpick).
Qed.

(** Witness for X10: nothing is remembered, the user picks the first
    line each time. *)
Lemma smart_pickers_available_witness :
  let r := Samples.runtimeWith ∅ in
  "/p/MyApp.xcworkspace" ∈ detectXcodeWorkspacesPaths Samples.worldWithStaging
  ∧ "MyApp" ∈ getSchemes Samples.worldWithStaging
  ∧ "Debug" ∈ getBuildConfigurations Samples.worldWithStaging.
Proof.
  intros r.
  destruct (smart_pickers_return_available_options Posix.platform
              Samples.worldWithStaging "/p" None r)
    as (Hxc & Hscheme & Hconf & _).
  split_and!.
  - eapply Hxc. vm_compute. reflexivity.
  - eapply Hscheme. vm_compute. reflexivity.
  - destruct (Hconf "Debug"
                (remembering "cli.configuration" (JString "Debug")
                   (asked "Select configuration" r)))
      as [Hin|[Hnone _]]; [vm_compute; reflexivity|exact Hin|discriminate Hnone].
Defined.

(** X11.  A smart picker that fails (nothing to pick from, the
    selection cancelled, [fzf] missing) leaves selection memory as it
    was: the state, the dirty flag and the writes made. *)
Theorem failed_pick_leaves_memory_untouched (P : Platform) (W : World)
    (workspacePath : string) (prompt : option string) (r : Runtime) :
  (∀ e r', pickXcodeWorkspacePathSmart P W workspacePath r = (inl e, r') →
     sameMemory r r')
  ∧ (∀ e r', pickSchemeSmart W prompt r = (inl e, r') → sameMemory r r')
  ∧ (∀ e r', pickConfigurationSmart W r = (inl e, r') → sameMemory r r')
  ∧ (∀ e r', pickDestinationSmart W r = (inl e, r') → sameMemory r r').
Proof.
  split_and!; intros e r' Hpick.
  - exact (outcome_error _ _ _ _ _
             (pickXcodeWorkspacePathSmart_outcome P W workspacePath r) e r' Hpick).
  - exact (outcome_error _ _ _ _ _
             (pickSchemeSmart_outcome W prompt r) e r' Hpick).
  - exact (outcome_error _ _ _ _ _
             (pickConfigurationSmart_outcome W r) e r' Hpick).
  - exact (outcome_error _ _ _ _ _
             (pickDestinationSmart_outcome W r) e r' Hpick).
Qed.

(** X12.  A smart picker that succeeds either leaves the runtime as it
    was or has made one write: the returned value (for a destination,
    its id) under the picker's own key, with the dirty flag set; no other
    key of the state changes. *)
Theorem successful_pick_writes_its_own_key (P : Platform) (W : World)
    (workspacePath : string) (prompt : option string) (r : Runtime) :
  (∀ s r', pickXcodeWorkspacePathSmart P W workspacePath r = (inr s, r') →
     r' = r
     ∨ (persistentState r' = <["cli.xcworkspace" := JString s]> (persistentState r)
        ∧ stateDirty r' = true
        ∧ rememberLog r' = rememberLog r ++ [("cli.xcworkspace", JString s)]))
  ∧ (∀ s r', pickSchemeSmart W prompt r = (inr s, r') →
       r' = r
       ∨ (persistentState r' = <["cli.scheme" := JString s]> (persistentState r)
          ∧ stateDirty r' = true
          ∧ rememberLog r' = rememberLog r ++ [("cli.scheme", JString s)]))
  ∧ (∀ s r', pickConfigurationSmart W r = (inr s, r') →
       r' = r
       ∨ (persistentState r'
          = <["cli.configuration" := JString s]> (persistentState r)
          ∧ stateDirty r' = true
          ∧ rememberLog r' = rememberLog r ++ [("cli.configuration", JString s)]))
  ∧ (∀ d r', pickDestinationSmart W r = (inr d, r') →
       r' = r
       ∨ (persistentState r'
          = <["cli.destination.id" := JString (id d)]> (persistentState r)
          ∧ stateDirty r' = true
          ∧ rememberLog r'
            = rememberLog r ++ [("cli.destination.id", JString (id d))])).
Proof.
  split_and!; intros a r' Hpick.
  - exact (outcome_write _ _ _ _ _
             (pickXcodeWorkspacePathSmart_outcome P W workspacePath r) a r' Hpick).
  - exact (outcome_write _ _ _ _ _
             (pickSchemeSmart_outcome W prompt r) a r' Hpick).
  - exact (outcome_write _ _ _ _ _
             (pickConfigurationSmart_outcome W r) a r' Hpick).
  - exact (outcome_write _ _ _ _ _
             (pickDestinationSmart_outcome W r) a r' Hpick).
Qed.

(** Witness for X11: the user cancels every selection. *)
Lemma failed_pick_witness :
  let r := Samples.runtimeWith Samples.rememberedWatch in
  sameMemory r (snd (pickSchemeSmart MoreSamples.cancellingWorld None r))
  ∧ sameMemory r (snd (pickDestinationSmart MoreSamples.cancellingWorld r)).
Proof.
  intros r.
  destruct (failed_pick_leaves_memory_untouched Posix.platform
              MoreSamples.cancellingWorld "/p" None r)
    as (_ & Hscheme & _ & Hdest).
  split.
  - eapply (Hscheme (ExtensionError "Selection cancelled")).
    vm_compute. reflexivity.
  - eapply (Hdest (ExtensionError "Selection cancelled")).
    vm_compute. reflexivity.
Defined.

(** Witness for X12: nothing is remembered and the user picks the first
    scheme. *)
Lemma successful_pick_witness :
  let r := Samples.runtimeWith ∅ in
  let r' := snd (pickSchemeSmart Samples.world None r) in
  r' = r
  ∨ (persistentState r' = <["cli.scheme" := JString "MyApp"]> (persistentState r)
     ∧ stateDirty r' = true
     ∧ rememberLog r' = rememberLog r ++ [("cli.scheme", JString "MyApp")]).
Proof.
  intros r r'.
  destruct (successful_pick_writes_its_own_key Posix.platform Samples.world
              "/p" None r) as (_ & Hscheme & _).
  apply Hscheme. vm_compute. reflexivity.
Defined.

(** *** The next run *)

Lemma scheme_hit (W : World) (prompt : option string) (r : Runtime) (s : string) :
  persistentState r !! "cli.scheme" = Some (JString s) →
  s ≠ "" → s ∈ getSchemes W →
  pickSchemeSmart W prompt r = (inr s, r).
Proof.
  intros Hmem Hs Hin.
  unfold pickSchemeSmart, bind, getRememberedValue, State.getRememberedValue.
  rewrite Hmem, (findRemembered_string s _ Hs Hin).
  by destruct (getSchemes W); [apply elem_of_nil in Hin|].
Qed.

Lemma xcworkspace_hit (P : Platform) (W : World) (workspacePath : string)
    (r : Runtime) (s : string) :
  persistentState r !! "cli.xcworkspace" = Some (JString s) →
  s ≠ "" → s ∈ detectXcodeWorkspacesPaths W →
  pickXcodeWorkspacePathSmart P W workspacePath r = (inr s, r).
Proof.
  intros Hmem Hs Hin.
  unfold pickXcodeWorkspacePathSmart, bind, getRememberedValue,
    State.getRememberedValue.
  rewrite Hmem, (rememberedPath_string s _ Hs Hin).
  by destruct (detectXcodeWorkspacesPaths W); [apply elem_of_nil in Hin|].
Qed.

Lemma configuration_shortcut (W : World) (r : Runtime) :
  getBuildConfigurations W = []
  ∨ isDebugReleasePair (getBuildConfigurations W) = true →
  pickConfigurationSmart W r = (inr DEFAULT_DEBUG_CONFIGURATION, r).
Proof.
  unfold pickConfigurationSmart, bind, getRememberedValue.
  intros [->|Hpair]; [done|]. rewrite Hpair.
  by destruct (getBuildConfigurations W) as [|c [|c' cs]].
Qed.

Lemma configuration_hit (W : World) (r : Runtime) (s : string) :
  persistentState r !! "cli.configuration" = Some (JString s) →
  s ≠ "" → s ∈ getBuildConfigurations W →
  isDebugReleasePair (getBuildConfigurations W) = false →
  pickConfigurationSmart W r = (inr s, r).
Proof.
  intros Hmem Hs Hin Hpair.
  unfold pickConfigurationSmart, bind, getRememberedValue,
    State.getRememberedValue.
  rewrite Hmem, Hpair, (findRemembered_string s _ Hs Hin).
  destruct (getBuildConfigurations W) as [|c [|c' cs]];
    [by apply elem_of_nil in Hin| |done].
  by apply list_elem_of_singleton in Hin as ->.
Qed.

Lemma destination_hit (W : World) (r : Runtime) (s : string) :
  persistentState r !! "cli.destination.id" = Some (JString s) →
  s ≠ "" →
  (∃ d, d ∈ (splitSupportedDestinatinos (listDestinations W)
               (supportedPlatforms W)).1
        ∧ matchesRememberedId (JString s) d = true) →
  ∃ d, d ∈ (splitSupportedDestinatinos (listDestinations W)
              (supportedPlatforms W)).1
       ∧ matchesRememberedId (JString s) d = true
       ∧ pickDestinationSmart W r = (inr d, r).
Proof.
  intros Hmem Hs Hex.
  assert (Htruthy : truthy (JString s) = true) by (by destruct s).
  unfold pickDestinationSmart, bind, getRememberedValue, State.getRememberedValue.
  rewrite Hmem.
  destruct (splitSupportedDestinatinos _ _) as [supported unsupported].
  cbn [fst] in Hex |- *.
  destruct (rememberedDestination_supported _ supported unsupported Htruthy Hex)
    as (d & Hd & Hin & Hmatch).
  exists d. split_and!; [done..|]. rewrite Hd.
  destruct supported; [by apply elem_of_nil in Hin|done].
Qed.

Lemma matchesRememberedId_own (d : Destination) :
  matchesRememberedId (JString (id d)) d = true.
Proof.
  unfold matchesRememberedId, strictEqualsString.
  destruct (udid d); rewrite String.eqb_refl; [apply orb_true_r|done].
Qed.

Lemma remembering_lookup (key : string) (value : JSON) (r : Runtime) :
  persistentState (remembering key value r) !! key = Some value.
Proof. apply lookup_insert_eq. Qed.

(** X14.  What a smart picker returned is what it returns on the next
    run, without asking and without writing: for a workspace file, a
    scheme and a configuration that are not the empty string the next
    run starts from the runtime that the first left and returns the same
    value; for a supported destination with a non-empty id it returns a
    supported destination with that id or udid. *)
Theorem next_run_does_not_ask (P : Platform) (W : World)
    (workspacePath : string) (prompt : option string) (r : Runtime) :
  (∀ s r', s ≠ "" →
     pickXcodeWorkspacePathSmart P W workspacePath r = (inr s, r') →
     pickXcodeWorkspacePathSmart P W workspacePath r' = (inr s, r'))
  ∧ (∀ s r', s ≠ "" →
       pickSchemeSmart W prompt r = (inr s, r') →
       pickSchemeSmart W prompt r' = (inr s, r'))
  ∧ (∀ s r', s ≠ "" →
       pickConfigurationSmart W r = (inr s, r') →
       pickConfigurationSmart W r' = (inr s, r'))
  ∧ (∀ d r', id d ≠ "" →
       d ∈ (splitSupportedDestinatinos (listDestinations W)
              (supportedPlatforms W)).1 →
       pickDestinationSmart W r = (inr d, r') →
       ∃ d', d' ∈ (splitSupportedDestinatinos (listDestinations W)
                     (supportedPlatforms W)).1
             ∧ matchesRememberedId (JString (id d)) d' = true
             ∧ pickDestinationSmart W r' = (inr d', r')).
Proof.
  split_and!.
  - intros s r' Hs Hpick.
    destruct (pickXcodeWorkspacePathSmart_outcome P W workspacePath r)
      as [(a & Hres & Ha)|[(e & r1 & Hres & _)|(a & r1 & Hres & Ha & _)]];
      rewrite Hpick in Hres;
      [by injection Hres as -> ->|discriminate|injection Hres as -> ->].
    apply xcworkspace_hit; [apply remembering_lookup|done..].
  - intros s r' Hs Hpick.
    destruct (pickSchemeSmart_outcome W prompt r)
      as [(a & Hres & Ha)|[(e & r1 & Hres & _)|(a & r1 & Hres & Ha & _)]];
      rewrite Hpick in Hres;
      [by injection Hres as -> ->|discriminate|injection Hres as -> ->].
    apply scheme_hit; [apply remembering_lookup|done..].
  - intros s r' Hs Hpick.
    destruct (getBuildConfigurations W) as [|c cs] eqn:Hconfigs.
    { rewrite configuration_shortcut in Hpick by (left; done).
      injection Hpick as <- <-.
      apply configuration_shortcut. by left. }
    destruct (isDebugReleasePair (c :: cs)) eqn:Hpair.
    { rewrite configuration_shortcut in Hpick by (right; by rewrite Hconfigs).
      injection Hpick as <- <-.
      apply configuration_shortcut. right. by rewrite Hconfigs. }
    destruct (pickConfigurationSmart_outcome W r)
      as [(a & Hres & Ha)|[(e & r1 & Hres & _)|(a & r1 & Hres & Ha & _)]];
      rewrite Hpick in Hres;
      [by injection Hres as -> ->|discriminate|injection Hres as -> ->].
    rewrite Hconfigs in Ha. destruct Ha as [Ha|[? _]]; [|done].
    apply configuration_hit;
      [apply remembering_lookup|done|by rewrite Hconfigs|by rewrite Hconfigs].
  - intros d r' Hid Hsupported Hpick.
    destruct (pickDestinationSmart_outcome W r)
      as [(a & Hres & Ha)|[(e & r1 & Hres & _)|(a & r1 & Hres & Ha & _)]];
      rewrite Hpick in Hres;
      [injection Hres as -> ->|discriminate|injection Hres as -> ->].
    + exists a. split_and!; [done|apply matchesRememberedId_own|done].
    + apply destination_hit; [apply remembering_lookup|done|].
      exists a. split; [done|apply matchesRememberedId_own].
Qed.

(** Witness for X14: the scheme picked in a first run is returned by
    the second. *)
Lemma next_run_witness :
  let r := Samples.runtimeWith ∅ in
  let r' := snd (pickSchemeSmart Samples.world None r) in
  pickSchemeSmart Samples.world None r' = (inr "MyApp", r')
  ∧ fzfLog r' = ["Select scheme"].
Proof.
  intros r r'.
  destruct (next_run_does_not_ask Posix.platform Samples.world "/p" None r)
    as (_ & Hscheme & _).
  split; [|vm_compute; reflexivity].
  apply Hscheme; [discriminate|]. vm_compute. reflexivity.
Defined.

End PickerMore.

(** ** Two runs in a row *)

Module RunFacts.
Import Context Pickers Cli MoreReference PickerFacts PickerMore.
Local Open Scope cli_scope.

Lemma writesUnder_refl (key : string) (r : Runtime) : writesUnder key r r.
Proof. by left. Qed.

Lemma writesUnder_other (key k : string) (r r' : Runtime) :
  writesUnder key r r' → k ≠ key →
  persistentState r' !! k = persistentState r !! k.
Proof.
  intros [[-> _]|(v & -> & _)] Hk; [done|]. by rewrite lookup_insert_ne.
Qed.

Lemma writesUnder_clean (key : string) (r r' : Runtime) :
  writesUnder key r r' → stateDirty r' = false →
  persistentState r' = persistentState r ∧ stateDirty r = false.
Proof.
  intros [[-> <-]|(v & _ & ->)] Hclean; [done|discriminate].
Qed.

Lemma outcome_writesUnder {A : Type} (key : string) (toJson : A → JSON)
    (available : A → Prop) (r : Runtime) (result : (Error + A) * Runtime) :
  smartOutcome key toJson available r result → writesUnder key r (snd result).
Proof.
  intros [(a & -> & _)|[(e & r1 & -> & Hp & Hd & _)|(a & r1 & -> & _ & Hp & _)]];
    cbn [snd].
  - by left.
  - by left.
  - right. exists (toJson a). cbn. by rewrite Hp.
Qed.

(** *** What a decision point writes *)

Lemma resolveXcworkspace_writes (P : Platform) (W : World) (options : CliOptions)
    (workspacePath : string) (config : gmap string JSON) (r : Runtime) :
  writesUnder "cli.xcworkspace" r
    (snd (resolveXcworkspace P W options workspacePath config r)).
Proof.
  pose proof (outcome_writesUnder _ _ _ _ _
                (pickXcodeWorkspacePathSmart_outcome P W workspacePath r)) as Hpick.
  unfold resolveXcworkspace.
  destruct (match xcworkspace options with
            | Some s => Some (JString s)
            | None => Config.getCliConfig config "build.xcodeWorkspacePath"
            end) as [v|]; [|done].
  destruct (truthy v); [|done].
  destruct v; apply writesUnder_refl.
Qed.

Lemma resolveScheme_writes (W : World) (options : CliOptions) (r : Runtime) :
  writesUnder "cli.scheme" r (snd (resolveScheme W options r)).
Proof.
  unfold resolveScheme. destruct (scheme options); [apply writesUnder_refl|].
  exact (outcome_writesUnder _ _ _ _ _ (pickSchemeSmart_outcome W None r)).
Qed.

Lemma resolveConfiguration_writes (W : World) (options : CliOptions)
    (config : gmap string JSON) (r : Runtime) :
  writesUnder "cli.configuration" r (snd (resolveConfiguration W options config r)).
Proof.
  pose proof (outcome_writesUnder _ _ _ _ _
                (pickConfigurationSmart_outcome W r)) as Hpick.
  assert (Hask : writesUnder "cli.configuration" r
            (snd ((selected <- pickConfigurationSmart W ;;
                   ret (JString selected)) r))).
  { unfold bind. by destruct (pickConfigurationSmart W r) as [[e|s] r1]. }
  unfold resolveConfiguration.
  destruct (configuration options); [apply writesUnder_refl|].
  destruct (Config.getCliConfig config "build.configuration") as [[]|];
    first [exact Hask|apply writesUnder_refl].
Qed.

Lemma resolveDestination_writes (W : World) (options : CliOptions) (r : Runtime) :
  writesUnder "cli.destination.id" r (snd (resolveDestination W options r)).
Proof.
  pose proof (outcome_writesUnder _ _ _ _ _
                (pickDestinationSmart_outcome W r)) as Hpick.
  unfold resolveDestination.
  destruct (negb _ && negb _); [done|].
  destruct (truthyOpt (destinationId options)).
  - destruct (find _ _); apply writesUnder_refl.
  - destruct (filter _ _) as [|d [|d' ds]]; first [done|apply writesUnder_refl].
Qed.

(** *** What a decision point returns when the memory is that of the
        first run *)

Lemma pickXcodeWorkspacePathSmart_replay (P : Platform) (W : World)
    (workspacePath : string) (r r' r2 : Runtime) (s : string) :
  pickXcodeWorkspacePathSmart P W workspacePath r = (inr s, r') →
  s ≠ "" →
  persistentState r2 !! "cli.xcworkspace" = persistentState r' !! "cli.xcworkspace" →
  pickXcodeWorkspacePathSmart P W workspacePath r2 = (inr s, r2).
Proof.
  intros Hpick Hs Hlook.
  assert (Hin : s ∈ detectXcodeWorkspacesPaths W).
  { exact (outcome_available _ _ _ _ _
             (pickXcodeWorkspacePathSmart_outcome P W workspacePath r) s r' Hpick). }
  unfold pickXcodeWorkspacePathSmart, bind, getRememberedValue,
    State.getRememberedValue in Hpick.
  destruct (detectXcodeWorkspacesPaths W) as [|p paths] eqn:Hpaths; [done|].
  destruct (rememberedPath (persistentState r !! "cli.xcworkspace") (p :: paths))
    as [path|] eqn:Hremembered.
  - injection Hpick as -> ->.
    unfold pickXcodeWorkspacePathSmart, bind, getRememberedValue,
      State.getRememberedValue.
    by rewrite Hlook, Hpaths, Hremembered.
  - destruct paths as [|p' paths].
    + injection Hpick as -> ->.
      unfold pickXcodeWorkspacePathSmart, bind, getRememberedValue,
        State.getRememberedValue.
      by rewrite Hlook, Hpaths, Hremembered.
    + destruct (pickXcodeWorkspacePath P W workspacePath r) as [[e|a] r1];
        [done|].
      cbn in Hpick. injection Hpick as -> <-.
      cbn in Hlook. unfold State.setRememberedValue in Hlook.
      rewrite lookup_insert_eq in Hlook.
      apply xcworkspace_hit; [done|done|by rewrite Hpaths].
Qed.

Lemma pickSchemeSmart_replay (W : World) (prompt : option string)
    (r r' r2 : Runtime) (s : string) :
  pickSchemeSmart W prompt r = (inr s, r') →
  s ≠ "" →
  persistentState r2 !! "cli.scheme" = persistentState r' !! "cli.scheme" →
  pickSchemeSmart W prompt r2 = (inr s, r2).
Proof.
  intros Hpick Hs Hlook.
  assert (Hin : s ∈ getSchemes W).
  { exact (outcome_available _ _ _ _ _
             (pickSchemeSmart_outcome W prompt r) s r' Hpick). }
  unfold pickSchemeSmart, bind, getRememberedValue,
    State.getRememberedValue in Hpick.
  destruct (getSchemes W) as [|s0 schemes] eqn:Hschemes; [done|].
  destruct (findRemembered (persistentState r !! "cli.scheme") (s0 :: schemes))
    as [found|] eqn:Hremembered.
  - injection Hpick as -> ->.
    unfold pickSchemeSmart, bind, getRememberedValue, State.getRememberedValue.
    by rewrite Hlook, Hschemes, Hremembered.
  - destruct (pickScheme W prompt r) as [[e|a] r1]; [done|].
    cbn in Hpick. injection Hpick as -> <-.
      cbn in Hlook. unfold State.setRememberedValue in Hlook.
    rewrite lookup_insert_eq in Hlook.
    apply scheme_hit; [done|done|by rewrite Hschemes].
Qed.

Lemma pickConfigurationSmart_replay (W : World) (r r' r2 : Runtime) (s : string) :
  pickConfigurationSmart W r = (inr s, r') →
  s ≠ "" →
  persistentState r2 !! "cli.configuration"
  = persistentState r' !! "cli.configuration" →
  pickConfigurationSmart W r2 = (inr s, r2).
Proof.
  intros Hpick Hs Hlook.
  destruct (getBuildConfigurations W) as [|c cs] eqn:Hconfigs.
  { rewrite configuration_shortcut in Hpick by (left; done).
    injection Hpick as <- <-. apply configuration_shortcut. by left. }
  destruct (isDebugReleasePair (c :: cs)) eqn:Hpair.
  { rewrite configuration_shortcut in Hpick by (right; by rewrite Hconfigs).
    injection Hpick as <- <-.
    apply configuration_shortcut. right. by rewrite Hconfigs. }
  assert (Hin : s ∈ c :: cs).
  { destruct (outcome_available _ _ _ _ _
                (pickConfigurationSmart_outcome W r) s r' Hpick) as [Hin|[Hnil _]].
    - by rewrite Hconfigs in Hin.
    - by rewrite Hconfigs in Hnil. }
  unfold pickConfigurationSmart, bind, getRememberedValue,
    State.getRememberedValue in Hpick.
  rewrite Hconfigs, Hpair in Hpick.
  destruct cs as [|c' cs].
  { injection Hpick as -> ->.
    unfold pickConfigurationSmart, bind, getRememberedValue.
    by rewrite Hconfigs. }
  destruct (findRemembered (persistentState r !! "cli.configuration")
              (c :: c' :: cs)) as [found|] eqn:Hremembered.
  - injection Hpick as -> ->.
    unfold pickConfigurationSmart, bind, getRememberedValue,
      State.getRememberedValue.
    by rewrite Hlook, Hconfigs, Hpair, Hremembered.
  - destruct (pickConfiguration W r) as [[e|a] r1]; [done|].
    cbn in Hpick. injection Hpick as -> <-.
      cbn in Hlook. unfold State.setRememberedValue in Hlook.
    rewrite lookup_insert_eq in Hlook.
    apply configuration_hit;
      [done|done|by rewrite Hconfigs|by rewrite Hconfigs].
Qed.

Lemma pickDestinationSmart_replay (W : World) (r r' r2 : Runtime)
    (d : Destination) :
  pickDestinationSmart W r = (inr d, r') →
  id d ≠ "" → d ∈ supportedDestinations W →
  persistentState r2 !! "cli.destination.id"
  = persistentState r' !! "cli.destination.id" →
  ∃ d', d' ∈ supportedDestinations W
        ∧ matchesRememberedId (JString (id d)) d' = true
        ∧ pickDestinationSmart W r2 = (inr d', r2).
Proof.
  unfold supportedDestinations. intros Hpick Hid Hin Hlook.
  unfold pickDestinationSmart, bind, getRememberedValue,
    State.getRememberedValue in Hpick.
  destruct (splitSupportedDestinatinos (listDestinations W) (supportedPlatforms W))
    as [supported unsupported] eqn:Hsplit.
  cbn [fst] in Hin |- *.
  destruct (rememberedDestination (persistentState r !! "cli.destination.id")
              supported unsupported) as [found|] eqn:Hremembered.
  - assert (Hsame : (inr found, r) = (inr d, r') :> (Error + Destination) * Runtime)
      by (by destruct supported, unsupported).
    injection Hsame as -> ->.
    exists d. split_and!; [done|apply matchesRememberedId_own|].
    unfold pickDestinationSmart, bind, getRememberedValue,
      State.getRememberedValue.
    rewrite Hlook, Hsplit, Hremembered.
    by destruct supported, unsupported.
  - assert (Hasked : match pickDestination W r with
                     | (inl e, r1) => (inl e, r1)
                     | (inr a, r1) =>
                         (inr a, remembering "cli.destination.id" (JString (id a)) r1)
                     end = (inr d, r'))
      by (by destruct supported, unsupported;
            [apply elem_of_nil in Hin|..]).
    destruct (pickDestination W r) as [[e|a] r1]; [done|].
    injection Hasked as -> <-. rewrite remembering_lookup in Hlook.
    pose proof (destination_hit W r2 (id d) Hlook Hid) as Hhit.
    rewrite Hsplit in Hhit. cbn [fst] in Hhit.
    apply Hhit. exists d. split; [done|apply matchesRememberedId_own].
Qed.

Lemma resolveXcworkspace_replay (P : Platform) (W : World) (options : CliOptions)
    (workspacePath : string) (config : gmap string JSON) (r r' r2 : Runtime)
    (s : string) :
  resolveXcworkspace P W options workspacePath config r = (inr s, r') →
  s ≠ "" →
  persistentState r2 !! "cli.xcworkspace" = persistentState r' !! "cli.xcworkspace" →
  resolveXcworkspace P W options workspacePath config r2 = (inr s, r2).
Proof.
  unfold resolveXcworkspace. intros Hresolve Hs Hlook.
  destruct (match xcworkspace options with
            | Some s => Some (JString s)
            | None => Config.getCliConfig config "build.xcodeWorkspacePath"
            end) as [v|];
    [|by apply (pickXcodeWorkspacePathSmart_replay P W workspacePath r r')].
  destruct (truthy v);
    [|by apply (pickXcodeWorkspacePathSmart_replay P W workspacePath r r')].
  destruct v; try done. by injection Hresolve as <- _.
Qed.

Lemma resolveScheme_replay (W : World) (options : CliOptions) (r r' r2 : Runtime)
    (s : string) :
  resolveScheme W options r = (inr s, r') →
  s ≠ "" →
  persistentState r2 !! "cli.scheme" = persistentState r' !! "cli.scheme" →
  resolveScheme W options r2 = (inr s, r2).
Proof.
  unfold resolveScheme. intros Hresolve Hs Hlook.
  destruct (scheme options).
  - by injection Hresolve as <- _.
  - by apply (pickSchemeSmart_replay W None r r').
Qed.

Lemma resolveConfiguration_replay (W : World) (options : CliOptions)
    (config : gmap string JSON) (r r' r2 : Runtime) (c : JSON) :
  resolveConfiguration W options config r = (inr c, r') →
  c ≠ JString "" →
  persistentState r2 !! "cli.configuration"
  = persistentState r' !! "cli.configuration" →
  resolveConfiguration W options config r2 = (inr c, r2).
Proof.
  unfold resolveConfiguration. intros Hresolve Hc Hlook.
  assert (Hask : (selected <- pickConfigurationSmart W ;;
                  ret (JString selected)) r = (inr c, r') →
                 (selected <- pickConfigurationSmart W ;;
                  ret (JString selected)) r2 = (inr c, r2)).
  { unfold bind.
    destruct (pickConfigurationSmart W r) as [[e|s] r1] eqn:Hpick; [done|].
    intros [= <- ->].
    rewrite (pickConfigurationSmart_replay W r r' r2 s); [done..| |done].
    by intros ->. }
  destruct (configuration options); [by injection Hresolve as <- _|].
  destruct (Config.getCliConfig config "build.configuration") as [[]|];
    first [by apply Hask|by injection Hresolve as <- _].
Qed.

Lemma resolveDestination_replay (W : World) (options : CliOptions)
    (r r' r2 : Runtime) (d : Destination) :
  resolveDestination W options r = (inr d, r') →
  id d ≠ "" → d ∈ supportedDestinations W →
  persistentState r2 !! "cli.destination.id"
  = persistentState r' !! "cli.destination.id" →
  ∃ d', d' ∈ supportedDestinations W
        ∧ matchesRememberedId (JString (id d)) d' = true
        ∧ resolveDestination W options r2 = (inr d', r2).
Proof.
  unfold resolveDestination. intros Hresolve Hid Hin Hlook.
  assert (Hexplicit : ∀ found : Destination,
            (inr found, r) = (inr d, r') :> (Error + Destination) * Runtime →
            ∃ d', d' ∈ supportedDestinations W
                  ∧ matchesRememberedId (JString (id d)) d' = true
                  ∧ (inr found, r2) = (inr d', r2) :> (Error + Destination) * Runtime).
  { intros found [= -> _]. exists d.
    split_and!; [done|apply matchesRememberedId_own|done]. }
  destruct (negb _ && negb _);
    [by apply (pickDestinationSmart_replay W r r')|].
  destruct (truthyOpt (destinationId options)).
  - destruct (find _ _) as [found|]; [by apply Hexplicit|done].
  - destruct (filter _ _) as [|found [|found' rest]];
      [done|by apply Hexplicit|by apply (pickDestinationSmart_replay W r r')].
Qed.

(** *** The four decision points together *)

Lemma resolveAll_steps (P : Platform) (W : World) (options : CliOptions)
    (workspacePath : string) (config : gmap string JSON) (r r' : Runtime)
    (x s : string) (c : JSON) (d : Destination) :
  resolveAll P W options workspacePath config r = (inr (x, s, c, d), r') →
  ∃ ra rb rc,
    resolveXcworkspace P W options workspacePath config r = (inr x, ra)
    ∧ resolveScheme W options ra = (inr s, rb)
    ∧ resolveConfiguration W options config rb = (inr c, rc)
    ∧ resolveDestination W options rc = (inr d, r').
Proof.
  unfold resolveAll, bind, ret. intros Hall.
  destruct (resolveXcworkspace _ _ _ _ _ r) as [[e|x'] ra] eqn:Hx; [done|].
  destruct (resolveScheme _ _ ra) as [[e|s'] rb] eqn:Hs; [done|].
  destruct (resolveConfiguration _ _ _ rb) as [[e|c'] rc] eqn:Hc; [done|].
  destruct (resolveDestination _ _ rc) as [[e|d'] rd] eqn:Hd; [done|].
  injection Hall as -> -> -> -> ->. by exists ra, rb, rc.
Qed.

Lemma resolveAll_replay (P : Platform) (W : World) (options : CliOptions)
    (workspacePath : string) (config : gmap string JSON) (r r' r2 : Runtime)
    (x s : string) (c : JSON) (d : Destination) :
  resolveAll P W options workspacePath config r = (inr (x, s, c, d), r') →
  x ≠ "" → s ≠ "" → c ≠ JString "" → id d ≠ "" →
  d ∈ supportedDestinations W →
  persistentState r2 = persistentState r' →
  ∃ d', d' ∈ supportedDestinations W
        ∧ matchesRememberedId (JString (id d)) d' = true
        ∧ resolveAll P W options workspacePath config r2 = (inr (x, s, c, d'), r2).
Proof.
  intros (ra & rb & rc & Hx & Hs & Hc & Hd)%resolveAll_steps
    Hx0 Hs0 Hc0 Hid Hin Hstate.
  pose proof (resolveScheme_writes W options ra) as Wb. rewrite Hs in Wb.
  pose proof (resolveConfiguration_writes W options config rb) as Wc.
  rewrite Hc in Wc.
  pose proof (resolveDestination_writes W options rc) as Wd. rewrite Hd in Wd.
  cbn [snd] in Wb, Wc, Wd.
  destruct (resolveDestination_replay W options rc r' r2 d Hd Hid Hin)
    as (d' & Hin' & Hmatch & Hd'); [by rewrite Hstate|].
  exists d'. split_and!; [done..|].
  unfold resolveAll, bind, ret.
  rewrite (resolveXcworkspace_replay P W options workspacePath config r ra r2 x),
    (resolveScheme_replay W options ra rb r2 s),
    (resolveConfiguration_replay W options config rb rc r2 c), Hd';
    [done|done|done| |done|done| |done|done|].
  - rewrite Hstate, (writesUnder_other _ _ _ _ Wd) by done. done.
  - rewrite Hstate, (writesUnder_other _ _ _ _ Wd),
      (writesUnder_other _ _ _ _ Wc) by done. done.
  - rewrite Hstate, (writesUnder_other _ _ _ _ Wd),
      (writesUnder_other _ _ _ _ Wc), (writesUnder_other _ _ _ _ Wb) by done.
    done.
Qed.

Lemma resolveAll_clean (P : Platform) (W : World) (options : CliOptions)
    (workspacePath : string) (config : gmap string JSON) (r r' : Runtime)
    (x s : string) (c : JSON) (d : Destination) :
  resolveAll P W options workspacePath config r = (inr (x, s, c, d), r') →
  stateDirty r' = false →
  persistentState r' = persistentState r.
Proof.
  intros (ra & rb & rc & Hx & Hs & Hc & Hd)%resolveAll_steps Hclean.
  pose proof (resolveXcworkspace_writes P W options workspacePath config r) as Wa.
  rewrite Hx in Wa.
  pose proof (resolveScheme_writes W options ra) as Wb. rewrite Hs in Wb.
  pose proof (resolveConfiguration_writes W options config rb) as Wc.
  rewrite Hc in Wc.
  pose proof (resolveDestination_writes W options rc) as Wd. rewrite Hd in Wd.
  cbn [snd] in Wa, Wb, Wc, Wd.
  destruct (writesUnder_clean _ _ _ Wd Hclean) as [-> Hclean_c].
  destruct (writesUnder_clean _ _ _ Wc Hclean_c) as [-> Hclean_b].
  destruct (writesUnder_clean _ _ _ Wb Hclean_b) as [-> Hclean_a].
  by destruct (writesUnder_clean _ _ _ Wa Hclean_a) as [-> _].
Qed.

(** X15.  The run after a successful run asks nothing.  When [run] has
    resolved a workspace file, a scheme, a configuration and a
    destination (from flags, settings, memory or [fzf]) and saved its
    state, a second run with the same flags, settings and project
    resolves the same workspace file, scheme and configuration and a
    supported destination with the same id, shows no [fzf] prompt, writes
    nothing to memory and leaves the file system as it is.  The
    conditions: the values are not the empty string, the destination is a
    supported one, and the saved state survives [JSON.stringify] and
    [JSON.parse]. *)
Theorem second_run_asks_nothing (P : Platform) (W : World)
    (fs fs1 : gmap string Node) (storagePath workspacePath : string)
    (options : CliOptions) (config : gmap string JSON)
    (x s : string) (c : JSON) (d : Destination) (r1 : Runtime) :
  Run.selections P W fs storagePath options workspacePath config
  = inr ((x, s, c, d), fs1, r1) →
  JSON_parse P (JSON_stringify P (State.ofStateMap (persistentState r1)))
  = Some (State.ofStateMap (persistentState r1)) →
  x ≠ "" → s ≠ "" → c ≠ JString "" → id d ≠ "" →
  d ∈ supportedDestinations W →
  ∃ d' r2,
    Run.selections P W fs1 storagePath options workspacePath config
    = inr ((x, s, c, d'), fs1, r2)
    ∧ d' ∈ supportedDestinations W
    ∧ matchesRememberedId (JString (id d)) d' = true
    ∧ persistentState r2 = persistentState r1
    ∧ fzfLog r2 = [] ∧ rememberLog r2 = [].
Proof.
  unfold Run.selections, create. intros Hrun Hjson Hx Hs Hc Hid Hin.
  destruct (State.loadState P fs storagePath) as [e|state0] eqn:Hload; [done|].
  destruct (resolveAll _ _ _ _ _ _) as [[e|resolved] ra] eqn:Hall; [done|].
  unfold savePersistentState in Hrun.
  assert (Hloaded : State.loadState P fs1 storagePath = inr (persistentState r1)
                    ∧ persistentState r1 = persistentState ra).
  { destruct (stateDirty ra) eqn:Hdirty.
    - destruct (State.saveState P fs storagePath (persistentState ra))
        as [e|fs'] eqn:Hsave; [done|].
      injection Hrun as -> -> <-. cbn in Hjson |- *. split; [|done].
      by apply (StateFacts.loadState_after_saveState P fs).
    - injection Hrun as -> -> ->. split; [|done].
      by rewrite (resolveAll_clean _ _ _ _ _ _ _ _ _ _ _ Hall Hdirty). }
  destruct Hloaded as [Hloaded Hstate]. rewrite Hloaded.
  set (r2 := {| persistentState := persistentState r1; stateDirty := false;
                fzfLog := []; rememberLog := [] |}).
  assert (resolved = (x, s, c, d)) as ->.
  { destruct (stateDirty ra);
      [destruct (State.saveState _ _ _ _); [done|]|]; by injection Hrun. }
  destruct (resolveAll_replay P W options workspacePath config _ ra r2
              x s c d Hall Hx Hs Hc Hid Hin) as (d' & Hin' & Hmatch & Hsecond);
    [by rewrite <- Hstate|].
  exists d', r2. rewrite Hsecond. by unfold savePersistentState.
Qed.

(** Witness for X15: nothing is remembered, the user picks the first
    line each time; the selections are saved and the second run finds
    them. *)
Lemma second_run_witness :
  ∃ d' r2,
    Run.selections Posix.platform Samples.worldWithStaging MoreSamples.afterFirstRun
      Samples.storagePath MoreSamples.noFlags "/p" ∅
    = inr (("/p/MyApp.xcworkspace", "MyApp", JString "Debug", d'),
           MoreSamples.afterFirstRun, r2)
    ∧ fzfLog r2 = [].
Proof.
  edestruct (second_run_asks_nothing Posix.platform Samples.worldWithStaging ∅
               MoreSamples.afterFirstRun Samples.storagePath "/p"
               MoreSamples.noFlags ∅
               "/p/MyApp.xcworkspace" "MyApp" (JString "Debug") Samples.iPhone15)
    as (d' & r2 & Hsecond & _ & _ & _ & Hlog & _).
  - vm_compute. reflexivity.
  - vm_compute. reflexivity.
  - discriminate.
  - discriminate.
  - discriminate.
  - discriminate.
  - vm_compute. left.
  - exists d', r2. split; [exact Hsecond|exact Hlog].
Defined.

End RunFacts.

(** ** The command line *)

Module ArgsFacts.
Import Args MoreReference.

Lemma two_step_ind {A : Type} (Q : list A → Prop) :
  Q [] →
  (∀ a l, Q l → (∀ b l', l = b :: l' → Q l') → Q (a :: l)) →
  ∀ l, Q l.
Proof.
  intros Hnil Hcons l.
  enough (Q l ∧ ∀ a, Q (a :: l)) as [H _] by done.
  induction l as [|b l [IH1 IH2]].
  - split; [done|]. intros a. by apply Hcons.
  - split; [apply IH2|]. intros a. apply Hcons; [apply IH2|].
    by intros b' l' [= -> ->].
Qed.

Lemma follows_later (flag value : string) (argv more : list string) :
  follows flag value argv → follows flag value (argv ++ more).
Proof.
  intros (before & after & ->). exists before, (after ++ more).
  by rewrite <- !app_assoc.
Qed.

Lemma storedFrom_later (argv more : list string) (options : CliOptions) :
  storedFrom argv options → storedFrom (argv ++ more) options.
Proof.
  intros [Hvalues Hcommand]. split.
  - intros flag field value Hflag Hfield.
    destruct (Hvalues flag field value Hflag Hfield) as (? & ? & ?).
    split_and!; [done..|by apply follows_later].
  - intros name Hname. destruct (Hcommand name Hname) as [? ?].
    split; [done|]. apply elem_of_app. by left.
Qed.

Ltac each_value_flag H :=
  unfold valueFlags in H;
  repeat (apply elem_of_cons in H as [[= -> ->]|H]);
  [..|by apply elem_of_nil in H].

Lemma storedFrom_initial : storedFrom [] initial.
Proof.
  split; [|done]. intros flag field value Hflag. by each_value_flag Hflag.
Qed.

Lemma storedFrom_same (argv : list string) (options options' : CliOptions) :
  (∀ flag field, (flag, field) ∈ valueFlags → field options' = field options) →
  command options' = command options →
  storedFrom argv options → storedFrom argv options'.
Proof.
  intros Hfields Hcommand [Hvalues Hname]. split.
  - intros flag field value Hflag. rewrite (Hfields flag field Hflag).
    by apply Hvalues.
  - by rewrite Hcommand.
Qed.

(** What the [switch] of [parseArgs] stores. *)
Lemma store_fields (P : Platform) (arg next : string) (options options' : CliOptions) :
  store P arg next options = inr options' →
  command options' = command options
  ∧ ∀ flag field, (flag, field) ∈ valueFlags →
      field options' = if String.eqb arg flag then Some next else field options.
Proof.
  unfold store. intros Hstore.
  repeat match type of Hstore with
         | (if String.eqb arg ?flag then _ else _) = _ =>
             let Harg := fresh "Harg" in
             destruct (String.eqb arg flag) eqn:Harg;
             [apply String.eqb_eq in Harg as ->; injection Hstore as <-;
              split; [done|];
              intros flag' field Hflag; each_value_flag Hflag; reflexivity|]
         end.
  assert (Hother : ∀ flag field, (flag, field) ∈ valueFlags →
                     field options = if String.eqb arg flag then Some next
                                     else field options).
  { intros flag field Hflag.
    each_value_flag Hflag;
      by rewrite ?Harg, ?Harg0, ?Harg1, ?Harg2, ?Harg3, ?Harg4, ?Harg5. }
  destruct (String.eqb arg "--launch-args").
  { destruct (parseListValue P next); [done|]. injection Hstore as <-.
    split; [done|]. intros flag field Hflag. rewrite <- (Hother flag field Hflag).
    each_value_flag Hflag; reflexivity. }
  destruct (String.eqb arg "--launch-env"); [|done].
  destruct (parseEnvValue P next); [done|]. injection Hstore as <-.
  split; [done|]. intros flag field Hflag. rewrite <- (Hother flag field Hflag).
  each_value_flag Hflag; reflexivity.
Qed.

Lemma store_stored (P : Platform) (arg next : string) (argv : list string)
    (options options' : CliOptions) :
  store P arg next options = inr options' →
  next ≠ "" → Js.startsWith next "-" = false →
  storedFrom argv options →
  storedFrom (argv ++ [arg; next]) options'.
Proof.
  intros [Hcommand Hfields]%store_fields Hnext Hdash Hstored.
  apply (storedFrom_later _ [arg; next]) in Hstored as [Hvalues Hname].
  split; [|by rewrite Hcommand].
  intros flag field value Hflag. rewrite (Hfields flag field Hflag).
  destruct (String.eqb arg flag) eqn:Harg; [|by apply Hvalues].
  apply String.eqb_eq in Harg as ->. intros [= <-].
  split_and!; [done..|]. by exists argv, [].
Qed.

Lemma parseFrom_stored (P : Platform) (rest : list string) :
  ∀ (argv : list string) (options options' : CliOptions),
    storedFrom argv options →
    parseFrom P rest options = inr options' →
    storedFrom (argv ++ rest) options'.
Proof.
  induction rest as [|arg rest IH IH2] using two_step_ind;
    intros argv options options' Hstored.
  - intros [= <-]. by rewrite app_nil_r.
  - cbn [parseFrom]. rewrite (cons_middle arg argv rest), app_assoc.
    destruct (String.eqb arg "--help" || String.eqb arg "-h").
    { apply IH, (storedFrom_later _ [arg]).
      apply (storedFrom_same _ options); [|done..].
      intros flag field Hflag. each_value_flag Hflag; reflexivity. }
    destruct (String.eqb arg "--debug").
    { apply IH, (storedFrom_later _ [arg]).
      apply (storedFrom_same _ options); [|done..].
      intros flag field Hflag. each_value_flag Hflag; reflexivity. }
    destruct (negb (Js.startsWith arg "-") && negb (truthyOpt (command options)))
      eqn:Hpositional.
    { apply andb_true_iff in Hpositional as [Hdash%negb_true_iff _].
      apply IH. apply (storedFrom_later _ [arg]) in Hstored as [Hvalues _].
      split.
      - intros flag field value Hflag Hfield. apply (Hvalues flag field value Hflag).
        each_value_flag Hflag; exact Hfield.
      - intros name [= <-]. split; [done|]. apply elem_of_app. right. by left. }
    destruct rest as [|next rest']; [done|].
    destruct (negb (Js.truthy next) || Js.startsWith next "-") eqn:Hnext; [done|].
    apply orb_false_iff in Hnext as [Htruthy%negb_false_iff Hdash].
    destruct (store P arg next options) as [error|options1] eqn:Hstore; [done|].
    intros Hparse.
    rewrite (cons_middle next (argv ++ [arg]) rest'), app_assoc, <- (app_assoc argv).
    apply (IH2 next rest' eq_refl _ options1); [|done].
    apply (store_stored P arg next argv options); [done| |done..].
    by intros ->.
Qed.

(** X16.  What [parseArgs] stores for a flag that takes a value is a
    token of the command line that comes right after that flag, is not
    the empty string and does not start with a dash; the command is a
    token that does not start with a dash. *)
Theorem parsed_values_follow_their_flags (P : Platform) (argv : list string)
    (options : CliOptions) :
  parseArgs P argv = inr options →
  (∀ flag field value,
     (flag, field) ∈ valueFlags → field options = Some value →
     value ≠ "" ∧ Js.startsWith value "-" = false ∧ follows flag value argv)
  ∧ (∀ name, command options = Some name →
       Js.startsWith name "-" = false ∧ name ∈ argv).
Proof.
  intros Hparse.
  exact (parseFrom_stored P argv [] initial options storedFrom_initial Hparse).
Qed.

(** Witness for X16: a scheme given on the command line. *)
Lemma parsed_values_witness :
  follows "--scheme" "MyApp" ["build"; "--scheme"; "MyApp"; "--debug"].
Proof.
  destruct (parsed_values_follow_their_flags Posix.platform
              ["build"; "--scheme"; "MyApp"; "--debug"]
              (setDebug (setScheme "MyApp" (setCommand "build" initial))))
    as [Hvalues _]; [vm_compute; reflexivity|].
  apply (Hvalues "--scheme" scheme "MyApp"); [|reflexivity].
  unfold valueFlags. apply elem_of_cons. right. apply elem_of_cons. right.
  apply elem_of_cons. by left.
Defined.

Lemma parseListValue_error (P : Platform) (raw : string) (error : Error) :
  parseListValue P raw = inl error → error = SyntaxError.
Proof.
  unfold parseListValue.
  destruct (Js.startsWith _ _).
  - destruct (JSON_parse P _) as [[]|]; by intros [= <-].
  - by destruct (negb _).
Qed.

Lemma parseEnvValue_error (P : Platform) (raw : string) (error : Error) :
  parseEnvValue P raw = inl error → error = SyntaxError.
Proof.
  unfold parseEnvValue.
  destruct (Js.startsWith _ _); [|done].
  destruct (JSON_parse P _); by intros [= <-].
Qed.

Lemma store_error (P : Platform) (arg next : string) (options : CliOptions)
    (error : Error) :
  store P arg next options = inl error →
  error = SyntaxError ∨ error = ExtensionError ("Unknown argument: " +:+ arg).
Proof.
  unfold store. intros Hstore.
  repeat match type of Hstore with
         | (if String.eqb arg ?flag then inr _ else _) = _ =>
             destruct (String.eqb arg flag); [done|]
         end.
  destruct (String.eqb arg "--launch-args").
  { destruct (parseListValue P next) eqn:Hlist; [|done].
    injection Hstore as <-. left. by apply (parseListValue_error P next). }
  destruct (String.eqb arg "--launch-env").
  { destruct (parseEnvValue P next) eqn:Henv; [|done].
    injection Hstore as <-. left. by apply (parseEnvValue_error P next). }
  injection Hstore as <-. by right.
Qed.

Lemma parseFrom_error (P : Platform) (rest : list string) :
  ∀ (options : CliOptions) (error : Error),
    parseFrom P rest options = inl error →
    error = SyntaxError
    ∨ ∃ arg, arg ∈ rest
             ∧ (error = ExtensionError ("Missing value for " +:+ arg)
                ∨ error = ExtensionError ("Unknown argument: " +:+ arg)).
Proof.
  induction rest as [|arg rest IH IH2] using two_step_ind;
    intros options error; [done|].
  assert (Hlater : ∀ options1,
            parseFrom P rest options1 = inl error →
            error = SyntaxError
            ∨ ∃ arg', arg' ∈ arg :: rest
                ∧ (error = ExtensionError ("Missing value for " +:+ arg')
                   ∨ error = ExtensionError ("Unknown argument: " +:+ arg'))).
  { intros options1 [->|(arg' & Hin & Herror)]%IH; [by left|right].
    exists arg'. split; [by right|done]. }
  cbn [parseFrom].
  destruct (String.eqb arg "--help" || String.eqb arg "-h"); [apply Hlater|].
  destruct (String.eqb arg "--debug"); [apply Hlater|].
  destruct (negb (Js.startsWith arg "-") && negb (truthyOpt (command options)));
    [apply Hlater|].
  assert (Hmissing : inl (ExtensionError ("Missing value for " +:+ arg))
                     = inl error :> Error + CliOptions →
            error = SyntaxError
            ∨ ∃ arg', arg' ∈ arg :: rest
                ∧ (error = ExtensionError ("Missing value for " +:+ arg')
                   ∨ error = ExtensionError ("Unknown argument: " +:+ arg'))).
  { intros [= <-]. right. exists arg. split; [by left|by left]. }
  destruct rest as [|next rest']; [done|].
  destruct (negb (Js.truthy next) || Js.startsWith next "-"); [done|].
  destruct (store P arg next options) as [error1|options1] eqn:Hstore.
  - intros [= <-]. destruct (store_error P arg next options error1 Hstore)
      as [-> | ->]; [by left|right].
    exists arg. split; [by left|by right].
  - intros [->|(arg' & Hin & Herror)]%(IH2 next rest' eq_refl); [by left|right].
    exists arg'. split; [by do 2 right|done].
Qed.

Lemma parseFrom_dangling (P : Platform) (rest : list string) :
  ∀ (options : CliOptions) (arg : string),
    last rest = Some arg →
    Js.startsWith arg "-" = true → arg ∉ switches →
    ∃ error, parseFrom P rest options = inl error.
Proof.
  induction rest as [|token rest IH IH2] using two_step_ind;
    intros options arg Hlast Hdash Hswitch; [done|].
  assert (Hlater : rest ≠ [] →
            ∀ options1, ∃ error, parseFrom P rest options1 = inl error).
  { intros Hrest options1. apply (IH options1 arg); [|done..].
    destruct rest; [done|exact Hlast]. }
  assert (Hhere : rest = [] → token = arg).
  { intros ->. by injection Hlast. }
  cbn [parseFrom].
  destruct (String.eqb token "--help" || String.eqb token "-h") eqn:Hhelp.
  { apply Hlater. intros <-%Hhere. apply Hswitch. unfold switches.
    apply orb_true_iff in Hhelp as [Hhelp|Hhelp];
      apply String.eqb_eq in Hhelp as ->; [by left|right; by left]. }
  destruct (String.eqb token "--debug") eqn:Hdebug.
  { apply Hlater. intros <-%Hhere. apply Hswitch. unfold switches.
    apply String.eqb_eq in Hdebug as ->. do 2 right. by left. }
  destruct (negb (Js.startsWith token "-") && negb (truthyOpt (command options)))
    eqn:Hpositional.
  { apply Hlater. intros <-%Hhere.
    apply andb_true_iff in Hpositional as [Hpositional _].
    by rewrite Hdash in Hpositional. }
  destruct rest as [|next rest']; [by eexists|].
  destruct (negb (Js.truthy next) || Js.startsWith next "-") eqn:Hnext;
    [by eexists|].
  destruct (store P token next options) as [error1|options1]; [by eexists|].
  apply (IH2 next rest' eq_refl options1 arg); [|done..].
  destruct rest' as [|token' rest']; [|exact Hlast].
  injection Hlast as ->. apply orb_false_iff in Hnext as [_ Hnext]. congruence.
Qed.

(** X17.  How [parseArgs] fails.  An error is the [SyntaxError] of a
    JSON value of [--launch-args] or [--launch-env], or names a token of
    the command line: [Missing value for] the token or [Unknown
    argument:] the token.  A command line whose last token starts with a
    dash and is none of [--help], [-h] and [--debug] is never accepted. *)
Theorem parseArgs_errors (P : Platform) (argv : list string) :
  (∀ error, parseArgs P argv = inl error →
     error = SyntaxError
     ∨ ∃ arg, arg ∈ argv
              ∧ (error = ExtensionError ("Missing value for " +:+ arg)
                 ∨ error = ExtensionError ("Unknown argument: " +:+ arg)))
  ∧ (∀ arg, last argv = Some arg →
       Js.startsWith arg "-" = true → arg ∉ switches →
       ∃ error, parseArgs P argv = inl error).
Proof.
  split.
  - intros error. apply parseFrom_error.
  - intros arg. apply parseFrom_dangling.
Qed.

(** Witness for X17: the value of [--scheme] is missing. *)
Lemma parseArgs_errors_witness :
  ∃ error, parseArgs Posix.platform ["build"; "--scheme"] = inl error.
Proof.
  destruct (parseArgs_errors Posix.platform ["build"; "--scheme"]) as [_ Hdangling].
  apply (Hdangling "--scheme"); [reflexivity|reflexivity|].
  unfold switches. intros Hin.
  repeat (apply elem_of_cons in Hin as [Hin|Hin]; [discriminate Hin|]).
  by apply elem_of_nil in Hin.
Defined.

(** *** Plain launch arguments and environment *)

Lemma trimStart_length (s : string) :
  (String.length (Js.trimStart s) ≤ String.length s)%nat.
Proof.
  induction s as [|c s IH]; [done|]. cbn [Js.trimStart].
  destruct (Js.isSpace c); cbn [String.length]; lia.
Qed.

Lemma trimEnd_length (s : string) :
  (String.length (Js.trimEnd s) ≤ String.length s)%nat.
Proof.
  induction s as [|c s IH]; [done|]. cbn [Js.trimEnd].
  destruct (Js.trimEnd s) as [|d rest].
  - destruct (Js.isSpace c); cbn [String.length]; lia.
  - cbn [String.length] in *. lia.
Qed.

(** A non-empty text that [trim] leaves alone starts with a character
    that is not white space, and [trimEnd] leaves it alone. *)
Lemma trim_fixed (c : ascii) (s : string) :
  Js.trim (String c s) = String c s →
  Js.isSpace c = false ∧ Js.trimEnd (String c s) = String c s.
Proof.
  unfold Js.trim. cbn [Js.trimStart]. destruct (Js.isSpace c); [|done].
  intros Htrim. apply (f_equal String.length) in Htrim.
  pose proof (trimEnd_length (Js.trimStart s)).
  pose proof (trimStart_length s). cbn [String.length] in Htrim. lia.
Qed.

Lemma trimEnd_append (a b : string) :
  Js.trimEnd b ≠ "" → Js.trimEnd (a +:+ b) = a +:+ Js.trimEnd b.
Proof.
  intros Hb. induction a as [|c a IH]; [done|].
  rewrite !TerminalFacts.append_cons. cbn [Js.trimEnd]. rewrite IH.
  destruct (a +:+ Js.trimEnd b) eqn:Hrest; [|done].
  destruct a; [|done]. by rewrite TerminalFacts.append_empty_l in Hrest.
Qed.

(** Between a text that does not start with white space and one that
    does not end with it, [trim] removes nothing. *)
Lemma trim_between (a m b : string) :
  a ≠ "" → Js.trim a = a → b ≠ "" → Js.trim b = b →
  Js.trim (a +:+ m +:+ b) = a +:+ m +:+ b.
Proof.
  intros Ha Htrim_a Hb Htrim_b.
  destruct a as [|c a]; [done|]. destruct b as [|d b]; [done|].
  apply trim_fixed in Htrim_a as [Hc _].
  apply trim_fixed in Htrim_b as [_ Hend].
  unfold Js.trim. rewrite TerminalFacts.append_cons. cbn [Js.trimStart].
  rewrite Hc, <- TerminalFacts.append_cons, <- TerminalFacts.append_assoc.
  rewrite trimEnd_append; by rewrite Hend.
Qed.

Lemma split_append_sep (sep : ascii) (a b : string) :
  Js.includes a (String sep "") = false →
  Js.split sep (a +:+ String sep b) = a :: Js.split sep b.
Proof.
  induction a as [|c a IH]; intros Hsep.
  - rewrite TerminalFacts.append_empty_l. apply TerminalFacts.split_cons_sep.
  - cbn [Js.includes] in Hsep. rewrite ScanFacts.prefix_one in Hsep.
    apply orb_false_iff in Hsep as [Hc Ha].
    rewrite TerminalFacts.append_cons. cbn [Js.split].
    rewrite Ascii.eqb_sym, Hc, (IH Ha). done.
Qed.

Lemma join_cons (sep x y : string) (l : list string) :
  JsonText.join sep (x :: y :: l) = x +:+ sep +:+ JsonText.join sep (y :: l).
Proof. reflexivity. Qed.

(** [items.join(sep).split(sep)] gives the items back when none of them
    has the separator. *)
Lemma split_join (sep : ascii) (items : list string) :
  items ≠ [] →
  (∀ item, item ∈ items → Js.includes item (String sep "") = false) →
  Js.split sep (JsonText.join (String sep "") items) = items.
Proof.
  induction items as [|x [|y items] IH]; intros Hne Hsep; [done| |].
  - apply TerminalFacts.split_whole, Hsep. by left.
  - rewrite join_cons.
    change (String sep "" +:+ ?rest) with (String sep rest).
    rewrite split_append_sep by (apply Hsep; by left).
    rewrite IH; [done|done|]. intros item Hitem. apply Hsep. by right.
Qed.

(** [s.split(sep).join(sep)] is [s]. *)
Lemma join_split (sep : ascii) (s : string) :
  JsonText.join (String sep "") (Js.split sep s) = s.
Proof.
  induction s as [|c s IH]; [done|].
  pose proof (TerminalFacts.split_nonempty sep s) as Hne.
  cbn [Js.split]. destruct (Ascii.eqb_spec c sep) as [->|Hc].
  - destruct (Js.split sep s) as [|head pieces]; [done|].
    rewrite join_cons, IH. reflexivity.
  - destruct (Js.split sep s) as [|head [|piece pieces]]; [done| |].
    + cbn in IH |- *. by rewrite IH.
    + rewrite join_cons in IH |- *. rewrite TerminalFacts.append_cons. by rewrite IH.
Qed.

Lemma join_nonempty (sep x : string) (l : list string) :
  x ≠ "" → JsonText.join sep (x :: l) ≠ "".
Proof.
  intros Hx. destruct x as [|c x]; [done|]. by destruct l.
Qed.

Lemma join_startsWith (sep x : string) (l : list string) (c : ascii) :
  x ≠ "" →
  Js.startsWith (JsonText.join sep (x :: l)) (String c "")
  = Js.startsWith x (String c "").
Proof.
  intros Hx. destruct x as [|d x]; [done|]. destruct l as [|y l]; [done|].
  rewrite join_cons, TerminalFacts.append_cons. unfold Js.startsWith.
  by rewrite !ScanFacts.prefix_one.
Qed.

(** [trim] removes nothing from a list of non-empty texts that it
    leaves alone one by one. *)
Lemma trim_join (sep : string) (items : list string) :
  (∀ item, item ∈ items → item ≠ "" ∧ Js.trim item = item) →
  Js.trim (JsonText.join sep items) = JsonText.join sep items.
Proof.
  intros Hitems. destruct items as [|x items]; [done|].
  destruct (Hitems x) as [Hx Htrim]; [by left|].
  assert (Hrest : ∀ item, item ∈ items → item ≠ "" ∧ Js.trim item = item).
  { intros item Hitem. apply Hitems. by right. }
  clear Hitems. revert x Hx Htrim.
  induction items as [|y items IH]; intros x Hx Htrim; [done|].
  destruct (Hrest y) as [Hy Htrim_y]; [by left|].
  rewrite join_cons. apply trim_between; [done..| |].
  - by apply join_nonempty.
  - apply IH; [|done..]. intros item Hitem. apply Hrest. by right.
Qed.

Lemma map_fixed {A : Type} (f : A → A) (l : list A) :
  (∀ x, x ∈ l → f x = x) → map f l = l.
Proof.
  induction l as [|x l IH]; intros Hall; [done|]. cbn [map].
  rewrite (Hall x) by (by left). f_equal. apply IH. intros y Hy. apply Hall.
  by right.
Qed.

(** X18.  The plain form of [--launch-args]: a comma-separated list of
    non-empty elements that have no comma, no white space at either end
    and no opening bracket in front comes back element by element, as
    strings; a blank text gives no element. *)
Theorem parseListValue_plain (P : Platform) (items : list string) :
  (items ≠ [] → (∀ item, item ∈ items → plainItem item) →
   parseListValue P (JsonText.join "," items) = inr (map JString items))
  ∧ (∀ blank, Js.trim blank = "" → parseListValue P blank = inr []).
Proof.
  split.
  - intros Hne Hitems. unfold parseListValue.
    rewrite trim_join
      by (intros item (? & [? ?] & ?)%Hitems; by split).
    destruct items as [|x items]; [done|].
    destruct (Hitems x) as (Hx & _ & Hbracket); [by left|].
    rewrite (join_startsWith "," x items "[" Hx), Hbracket.
    assert (Htruthy : Js.truthy (JsonText.join "," (x :: items)) = true).
    { pose proof (join_nonempty "," x items Hx) as Hjoined.
      by destruct (JsonText.join "," (x :: items)). }
    rewrite Htruthy. cbn [negb].
    rewrite (split_join "," (x :: items)); [|done|].
    + rewrite (map_fixed Js.trim (x :: items)), BuilderFacts.filter_all; [done| |].
      * intros item Hitem. destruct (Hitems item Hitem) as (? & _).
        by destruct item.
      * intros item Hitem. by destruct (Hitems item Hitem) as (_ & [? _] & _).
    + intros item Hitem. by destruct (Hitems item Hitem) as (_ & [_ ?] & _).
  - intros blank Hblank. unfold parseListValue. by rewrite Hblank.
Qed.

(** Witness for X18. *)
Lemma parseListValue_witness :
  parseListValue Posix.platform "-v,--fast,x=1"
  = inr [JString "-v"; JString "--fast"; JString "x=1"].
Proof.
  apply (parseListValue_plain Posix.platform ["-v"; "--fast"; "x=1"]); [done|].
  intros item Hitem.
  repeat (apply elem_of_cons in Hitem as [->|Hitem];
          [by vm_compute|]).
  by apply elem_of_nil in Hitem.
Defined.

Lemma envItem_pair (env : gmap string JSON) (key value : string) :
  plainKey key → Js.trim value = value →
  envItem env (pairText (key, value)) = <[key := JString value]> env.
Proof.
  intros (Hkey & Hproto & [Htrim _] & Hequals & _) Hvalue.
  unfold envItem, pairText. cbn [fst snd].
  change ("=" +:+ value) with (String "=" value).
  rewrite (split_append_sep "=" key value Hequals).
  pose proof (TerminalFacts.split_nonempty "=" value) as Hrest.
  rewrite bool_decide_false by done.
  destruct key as [|c key]; [done|]. cbn [Js.truthy negb orb].
  rewrite (join_split "=" value), Htrim, Hvalue. unfold assign.
  by rewrite (proj2 (String.eqb_neq _ _) Hproto).
Qed.

Lemma foldl_envItem (pairs : list (string * string)) (env : gmap string JSON) :
  (∀ key value, (key, value) ∈ pairs → plainKey key ∧ plain value) →
  foldl envItem env (map pairText pairs)
  = foldl (fun env pair => <[pair.1 := JString pair.2]> env) env pairs.
Proof.
  revert env. induction pairs as [|[key value] pairs IH]; intros env Hpairs;
    [done|].
  destruct (Hpairs key value) as [Hkey [Hvalue _]]; [by left|].
  cbn [map foldl]. rewrite (envItem_pair env key value Hkey Hvalue).
  apply IH. intros key' value' Hin. apply Hpairs. by right.
Qed.

Lemma foldl_insert_envObject (pairs : list (string * string)) :
  foldl (fun env pair => <[pair.1 := JString pair.2]> env) ∅ pairs
  = envObject pairs.
Proof.
  unfold envObject.
  induction pairs as [|[key value] pairs IH] using rev_ind; [done|].
  rewrite foldl_app, map_app, reverse_app. cbn. by rewrite IH.
Qed.

Lemma pairText_solid (key value : string) :
  plainKey key → plain value →
  pairText (key, value) ≠ "" ∧ Js.trim (pairText (key, value)) = pairText (key, value)
  ∧ Js.includes (pairText (key, value)) "," = false
  ∧ Js.startsWith (pairText (key, value)) "{" = Js.startsWith key "{".
Proof.
  intros (Hkey & _ & [Htrim Hcomma] & _ & _) [Hvalue Hcomma_v].
  unfold pairText. cbn [fst snd]. split_and!.
  - by destruct key.
  - destruct value as [|c value].
    + change (Js.trim (key +:+ "" +:+ "=") = key +:+ "" +:+ "=").
      by apply trim_between.
    + by apply trim_between.
  - clear Htrim Hvalue Hkey. induction key as [|c key IH].
    + exact Hcomma_v.
    + cbn [Js.includes] in Hcomma. rewrite ScanFacts.prefix_one in Hcomma.
      apply orb_false_iff in Hcomma as [Hc Hcomma].
      rewrite TerminalFacts.append_cons. cbn [Js.includes].
      rewrite ScanFacts.prefix_one, Hc. by apply IH.
  - destruct key as [|c key]; [done|].
    rewrite TerminalFacts.append_cons. unfold Js.startsWith.
    by rewrite !ScanFacts.prefix_one.
Qed.

(** X19.  The plain form of [--launch-env]: from a comma-separated list
    of [KEY=VALUE] pairs (keys that are not empty, not [__proto__], with
    no comma, no equals sign, no white space at either end and no opening
    brace in front; values with no comma and no white space at either
    end) every key comes back bound to the last value given for it, and
    a value keeps its equals signs. *)
Theorem parseEnvValue_plain (P : Platform) (pairs : list (string * string)) :
  pairs ≠ [] →
  (∀ key value, (key, value) ∈ pairs → plainKey key ∧ plain value) →
  parseEnvValue P (envText pairs) = inr (envObject pairs).
Proof.
  intros Hne Hpairs. unfold parseEnvValue, envText.
  assert (Hitems : ∀ item, item ∈ map pairText pairs →
            item ≠ "" ∧ Js.trim item = item ∧ Js.includes item "," = false).
  { intros item ([key value] & -> & [Hkey Hvalue]%Hpairs)%list_elem_of_fmap.
    by destruct (pairText_solid key value Hkey Hvalue) as (? & ? & ? & _). }
  rewrite trim_join by (intros item (? & ? & _)%Hitems; by split).
  destruct pairs as [|[key value] pairs]; [done|].
  destruct (Hpairs key value) as [Hkey Hvalue]; [by left|].
  destruct (pairText_solid key value Hkey Hvalue) as (Hsolid & _ & _ & Hbrace).
  cbn [map]. rewrite (join_startsWith "," _ _ "{" Hsolid), Hbrace.
  destruct Hkey as (_ & _ & _ & _ & ->).
  rewrite (split_join "," (pairText (key, value) :: map pairText pairs));
    [|done|by intros item (_ & _ & ?)%Hitems].
  f_equal. change (pairText (key, value) :: map pairText pairs)
    with (map pairText ((key, value) :: pairs)).
  by rewrite foldl_envItem, foldl_insert_envObject.
Qed.

(** Witness for X19: a value with an equals sign, and a key given
    twice. *)
Lemma parseEnvValue_witness :
  parseEnvValue Posix.platform "A=1,FLAGS=x=y,A=2"
  = inr (<["A" := JString "2"]> (<["FLAGS" := JString "x=y"]> ∅)).
Proof.
  assert (Hparsed : parseEnvValue Posix.platform
                      (envText [("A", "1"); ("FLAGS", "x=y"); ("A", "2")])
                    = inr (envObject [("A", "1"); ("FLAGS", "x=y"); ("A", "2")])).
  { apply parseEnvValue_plain; [done|].
    intros key value Hin.
    repeat (apply elem_of_cons in Hin as [[= -> ->]|Hin];
            [by vm_compute|]).
    by apply elem_of_nil in Hin. }
  exact Hparsed.
Defined.

End ArgsFacts.

(** ** A destination given on the command line *)

Module ResolveFacts.
Import Context Pickers Cli MoreReference PickerFacts PickerMore CliFacts.

Lemma matchDestinationName_blank (d : Destination) (n : string) :
  Js.trim n = "" → matchDestinationName d n = false.
Proof. unfold matchDestinationName. by intros ->. Qed.

Lemma filter_nil_none {A : Type} (f : A → bool) (l : list A) :
  (∀ x, x ∈ l → f x = false) → filter (fun x => f x = true) l = [].
Proof.
  induction l as [|x l IH]; intros Hnone; [done|].
  rewrite filter_cons_False by (rewrite (Hnone x) by (by left); done).
  apply IH. intros y Hy. apply Hnone. by right.
Qed.

Lemma find_first {A : Type} (f : A → bool) (l : list A) (x : A) :
  find f l = Some x →
  ∃ before after, l = before ++ x :: after ∧ f x = true
                  ∧ ∀ y, y ∈ before → f y = false.
Proof.
  induction l as [|y l IH]; [done|]. cbn [find].
  destruct (f y) eqn:Hy.
  - intros [= ->]. exists [], l. split_and!; [done..|].
    intros z Hz. by apply elem_of_nil in Hz.
  - intros (before & after & -> & Hx & Hbefore)%IH.
    exists (y :: before), after. split_and!; [done..|].
    intros z [->|Hz]%elem_of_cons; [done|by apply Hbefore].
Qed.

Lemma find_none {A : Type} (f : A → bool) (l : list A) :
  find f l = None → ∀ x, x ∈ l → f x = false.
Proof.
  induction l as [|y l IH]; intros Hfind x Hx; [by apply elem_of_nil in Hx|].
  cbn [find] in Hfind. destruct (f y) eqn:Hy; [done|].
  apply elem_of_cons in Hx as [->|Hx]; [done|by apply IH].
Qed.

(** X20.  A destination asked for by [--destination-id] is the first
    enumerated destination whose udid or id is the given text, case and
    surrounding white space aside, supported or not; when there is none
    the run stops with [Destination not found for id].  Without an id, a
    [--destination] name that matches exactly one destination gives that
    one, and a name of white space only stops the run with [Destination
    not found for name].  None of this reads or writes selection memory. *)
Theorem explicit_destination_is_the_match (W : World) (options : CliOptions)
    (r : Runtime) :
  (∀ i, destinationId options = Some i → i ≠ "" →
     (∃ d before after,
        resolveDestination W options r = (inr d, r)
        ∧ listDestinations W = before ++ d :: after
        ∧ matchDestinationId d i = true
        ∧ ∀ d', d' ∈ before → matchDestinationId d' i = false)
     ∨ (resolveDestination W options r
        = (inl (ExtensionError ("Destination not found for id: " +:+ i)), r)
        ∧ ∀ d, d ∈ listDestinations W → matchDestinationId d i = false))
  ∧ (∀ n d, truthyOpt (destinationId options) = false →
       destinationName options = Some n → n ≠ "" →
       filter (fun item => matchDestinationName item n = true) (listDestinations W)
       = [d] →
       resolveDestination W options r = (inr d, r)
       ∧ d ∈ listDestinations W ∧ matchDestinationName d n = true)
  ∧ (∀ n, truthyOpt (destinationId options) = false →
       destinationName options = Some n → n ≠ "" → Js.trim n = "" →
       resolveDestination W options r
       = (inl (ExtensionError ("Destination not found for name: " +:+ n)), r)).
Proof.
  split_and!.
  - intros i Hid Hi. unfold resolveDestination.
    rewrite Hid, (truthyOpt_Some i Hi). cbn [negb andb default from_option Datatypes.id].
    destruct (find _ _) as [d|] eqn:Hfind.
    + left. apply find_first in Hfind as (before & after & Hlist & Hd & Hbefore).
      by exists d, before, after.
    + right. split; [done|]. by apply find_none.
  - intros n d Hid Hname Hn Hfilter. unfold resolveDestination.
    rewrite Hid, Hname, (truthyOpt_Some n Hn). cbn [negb andb default from_option Datatypes.id].
    rewrite Hfilter. split; [done|].
    assert (Hin : d ∈ filter (fun item => matchDestinationName item n = true)
                         (listDestinations W)) by (rewrite Hfilter; by left).
    by apply list_elem_of_filter in Hin as [? ?].
  - intros n Hid Hname Hn Hblank. unfold resolveDestination.
    rewrite Hid, Hname, (truthyOpt_Some n Hn). cbn [negb andb default from_option Datatypes.id].
    rewrite filter_nil_none; [done|].
    intros d _. by apply matchDestinationName_blank.
Qed.

(** Witness for X20: the udid of the second destination, in lower case
    and with spaces around it. *)
Lemma explicit_destination_witness :
  fst (resolveDestination Samples.world MoreSamples.destinationByUdid
         (Samples.runtimeWith Samples.rememberedWatch))
  = inr Samples.iPhone15.
Proof.
  destruct (explicit_destination_is_the_match Samples.world
              MoreSamples.destinationByUdid
              (Samples.runtimeWith Samples.rememberedWatch)) as (Hid & _ & _).
  destruct (Hid " def-456 ") as [(d & before & after & Hresolve & _)|[Hnone _]];
    [reflexivity|discriminate| |].
  - rewrite Hresolve. vm_compute in Hresolve. by injection Hresolve as <-.
  - vm_compute in Hnone. discriminate Hnone.
Defined.

(** X21.  A [--destination] name that matches more than one
    destination no longer restricts the choice: resolution continues as
    if no destination had been given, and when selection memory holds the
    id or udid of a supported destination, that destination is the result,
    without a prompt, whether or not the name matches it. *)
Theorem ambiguous_name_yields_to_memory (W : World) (options : CliOptions)
    (r : Runtime) (n s : string) :
  truthyOpt (destinationId options) = false →
  destinationName options = Some n →
  (2 ≤ length (filter (fun item => matchDestinationName item n = true)
                 (listDestinations W)))%nat →
  resolveDestination W options r = pickDestinationSmart W r
  ∧ (persistentState r !! "cli.destination.id" = Some (JString s) → s ≠ "" →
     (∃ d, d ∈ supportedDestinations W ∧ matchesRememberedId (JString s) d = true) →
     ∃ d, d ∈ supportedDestinations W
          ∧ matchesRememberedId (JString s) d = true
          ∧ resolveDestination W options r = (inr d, r)).
Proof.
  intros Hid Hname Hmany.
  assert (Hsame : resolveDestination W options r = pickDestinationSmart W r).
  { unfold resolveDestination. rewrite Hid, Hname. cbn [negb andb default from_option Datatypes.id].
    destruct (negb (truthyOpt (Some n))); [done|].
    destruct (filter _ _) as [|d [|d' ds]]; [cbn in Hmany; lia..|done]. }
  split; [done|]. rewrite Hsame. apply destination_hit.
Qed.

(** Witness for X21: [--destination iPhone] with the watch remembered,
    in a project where every destination is supported. *)
Lemma ambiguous_name_witness :
  ∃ d, matchDestinationName d "iPhone" = false
       ∧ resolveDestination MoreSamples.openWorld Samples.destinationByName
           (Samples.runtimeWith Samples.rememberedWatch)
         = (inr d, Samples.runtimeWith Samples.rememberedWatch).
Proof.
  destruct (ambiguous_name_yields_to_memory MoreSamples.openWorld
              Samples.destinationByName
              (Samples.runtimeWith Samples.rememberedWatch) "iPhone" "ABC-123")
    as [Hsame Hmemory]; [reflexivity|reflexivity|vm_compute; lia|].
  destruct Hmemory as (d & _ & _ & Hresolve);
    [reflexivity|discriminate| |].
  - exists Samples.appleWatch. split; [|vm_compute; reflexivity].
    unfold supportedDestinations. vm_compute. do 3 right. left.
  - exists d. split; [|exact Hresolve].
    rewrite Hsame in Hresolve. vm_compute in Hresolve.
    by injection Hresolve as <-.
Defined.

End ResolveFacts.

(** ** The runtime across a restart *)

Module ContextFacts.
Import Context MoreReference.



End ContextFacts.

(** ** From the command line to the decision points *)

Module FlagFacts.
Import Context Cli MoreReference.

Lemma parsed_value (P : Platform) (argv : list string) (options : Args.CliOptions)
    (flag : string) (field : Args.CliOptions → option string) (value : string) :
  Args.parseArgs P argv = inr options →
  (flag, field) ∈ valueFlags → field options = Some value →
  value ≠ "".
Proof.
  intros Hparse Hflag Hfield.
  destruct (ArgsFacts.parseFrom_stored P argv [] Args.initial options
              ArgsFacts.storedFrom_initial Hparse) as [Hvalues _].
  by destruct (Hvalues flag field value Hflag Hfield) as (? & _).
Qed.

(** X23.  A flag that [parseArgs] accepted decides its decision point
    alone: the workspace file of [--xcworkspace] (made absolute), the
    scheme of [--scheme] and the configuration of [--configuration] are
    the resolved values, and with [--destination-id] the destination is
    looked up by that id among all destinations; in each case the runtime
    is left as it was: no prompt and no write to selection memory. *)
Theorem accepted_flags_decide (P : Platform) (W : World) (argv : list string)
    (parsed : Args.CliOptions) (workspacePath : string)
    (config : gmap string JSON) (r : Runtime) :
  Args.parseArgs P argv = inr parsed →
  let options := Args.resolutionOptions parsed in
  (∀ value, Args.xcworkspace parsed = Some value →
     resolveXcworkspace P W options workspacePath config r
     = (inr (if path_isAbsolute P value then value
             else path_join P workspacePath value), r))
  ∧ (∀ value, Args.scheme parsed = Some value →
       resolveScheme W options r = (inr value, r))
  ∧ (∀ value, Args.configuration parsed = Some value →
       resolveConfiguration W options config r = (inr (JString value), r))
  ∧ (∀ value, Args.destinationId parsed = Some value →
       resolveDestination W options r
       = match find (fun item => matchDestinationId item value)
                 (listDestinations W) with
         | Some destination => (inr destination, r)
         | None =>
             (inl (ExtensionError ("Destination not found for id: " +:+ value)), r)
         end).
Proof.
  intros Hparse options. subst options. split_and!.
  - intros value Hvalue.
    assert (Hne : value ≠ "").
    { apply (parsed_value P argv parsed "--xcworkspace" Args.xcworkspace);
        [done| |done].
      unfold valueFlags. right. left. }
    unfold resolveXcworkspace, Args.resolutionOptions. cbn [xcworkspace].
    rewrite Hvalue. by destruct value.
  - intros value Hvalue. unfold resolveScheme, Args.resolutionOptions.
    cbn [scheme]. by rewrite Hvalue.
  - intros value Hvalue. unfold resolveConfiguration, Args.resolutionOptions.
    cbn [configuration]. by rewrite Hvalue.
  - intros value Hvalue.
    assert (Hne : value ≠ "").
    { apply (parsed_value P argv parsed "--destination-id" Args.destinationId);
        [done| |done].
      unfold valueFlags. do 4 right. left. }
    unfold resolveDestination, Args.resolutionOptions.
    cbn [destinationId destinationName]. rewrite Hvalue.
    rewrite (CliFacts.truthyOpt_Some value Hne).
    cbn [negb andb default from_option Datatypes.id].
    by destruct (find _ _).
Qed.

(** Witness for X23: three flags against a memory that holds other
    selections. *)
Lemma accepted_flags_witness :
  let r := Samples.runtimeWith Samples.remembered in
  resolveXcworkspace Posix.platform Samples.world
    (Args.resolutionOptions
       (Args.setDestinationId "ABC-123"
          (Args.setScheme "MyAppTests"
             (Args.setXcworkspace "MyApp.xcworkspace"
                (Args.setCommand "run" Args.initial)))))
    "/p" ∅ r
  = (inr "/p/MyApp.xcworkspace", r).
Proof.
  intros r.
  destruct (accepted_flags_decide Posix.platform Samples.world
              MoreSamples.flagsGiven
              (Args.setDestinationId "ABC-123"
                 (Args.setScheme "MyAppTests"
                    (Args.setXcworkspace "MyApp.xcworkspace"
                       (Args.setCommand "run" Args.initial))))
              "/p" ∅ r) as (Hxcworkspace & _); [vm_compute; reflexivity|].
  apply (Hxcworkspace "MyApp.xcworkspace"). reflexivity.
Defined.

End FlagFacts.
